(** * ducible: verification of [src/patch_image.cpp]

    A shallow embedding of the image-patching pipeline of ducible
    (parsing of the PE debug directories, the deferred patch list, the
    checksum that skips the patched regions, the PE/PDB signature check and
    the PDB rewrite), and the properties of the specification proved or
    refuted on it.

    Conventions.
    - The mapped image is a [list byte]; a pointer into it is its byte
      offset from [buf], a [Z].  [size_t] arithmetic is written out modulo
      [2^64]; 32-bit fields are decoded little-endian.
    - A read that leaves the buffer is undefined behaviour in C++ and is
      [None] here.
    - C++ exceptions are the type [exn]; code that can throw returns a
      [Result]; code with effects on the image or on files runs in the
      state-and-exception monad [M] over [World]. *)

From stdpp Require Import gmap strings list fin_maps vector sorting.
From Stdlib Require Import ZArith Lia.
From Stdlib.Strings Require Import Byte.

Local Open Scope Z_scope.

(** ** Bytes, integers and memory *)

#[global] Instance byte_eq_decision : EqDecision byte := byte_eq_dec.

Definition byte_to_Z (b : byte) : Z := Z.of_N (Byte.to_N b).

Definition byte_of_Z (z : Z) : byte :=
  match Byte.of_N (Z.to_N (z mod 256)) with
  | Some b => b
  | None => x00
  end.

(** Little-endian value of a byte string, as [*(uint32_t* )p] reads it. *)
Fixpoint le_decode (bs : list byte) : Z :=
  match bs with
  | [] => 0
  | b :: rest => byte_to_Z b + 256 * le_decode rest
  end.

(** The [n] bytes of the little-endian representation of [z]. *)
Fixpoint le_encode (n : nat) (z : Z) : list byte :=
  match n with
  | O => []
  | S n' => byte_of_Z z :: le_encode n' (z / 256)
  end.

Definition Zlen {A} (l : list A) : Z := Z.of_nat (length l).

(** [size_t] is 64 bits wide; unsigned arithmetic wraps around. *)
Definition SIZE_MAX1 : Z := 2 ^ 64.
Definition size_t_wrap (z : Z) : Z := z mod SIZE_MAX1.

(** The [n] bytes starting at offset [pos]. *)
Definition slice (buf : list byte) (pos n : Z) : list byte :=
  take (Z.to_nat n) (drop (Z.to_nat pos) buf).

(** Reading [n] bytes at [buf + pos]: defined only inside the buffer. *)
Definition mem_read (buf : list byte) (pos n : Z) : option (list byte) :=
  if decide (0 <= pos ∧ 0 <= n ∧ pos + n <= Zlen buf)
  then Some (slice buf pos n) else None.

(** [memcpy(buf + pos, src, |src|)]: overwrite in place, length unchanged. *)
Definition mem_write (buf : list byte) (pos : Z) (src : list byte) : list byte :=
  take (Z.to_nat pos) buf ++ src ++ drop (Z.to_nat pos + length src) buf.

Definition read32 (buf : list byte) (pos : Z) : option Z :=
  le_decode <$> mem_read buf pos 4.

(** ** The MD5 collaborator ([md5.h], not part of the verified file)

    [calculateChecksum] only needs an incremental hash with a 16-byte
    output; the source comment says that any 128-bit hash would do.  The
    interface is a class so that every theorem holds for whatever
    implementation is linked in. *)

Class Md5 := {
  md5_context : Type;
  md5_starts : md5_context;
  md5_update : md5_context → list byte → md5_context;
  md5_finish : md5_context → vec byte 16
}.

(** ** Patches

    [Patch::data] points at a member of the [PEFile] object; the member is
    read when the patch is applied, not when it is added. *)

Inductive DataPtr := ptr_timestamp | ptr_pdbSignature | ptr_pdbAge.

#[global] Instance DataPtr_eq_decision : EqDecision DataPtr.
Proof. solve_decision. Defined.

Record Patch := mkPatch {
  offset : Z;
  length : Z;
  data : DataPtr;
  name : string
}.

#[global] Instance Patch_eq_decision : EqDecision Patch.
Proof. solve_decision. Defined.

(** The byte at offset [i] lies in the range of some patch of [ps]. *)
Definition in_patch (i : Z) (p : Patch) : Prop :=
  offset p <= i < offset p + length p.

Definition covered (ps : list Patch) (i : Z) : Prop :=
  Exists (in_patch i) ps.

(** Sorted by ascending offset with no overlap: every patch ends before
    the next one starts. *)
Fixpoint sorted_disjoint (ps : list Patch) : Prop :=
  match ps with
  | [] => True
  | p :: rest =>
      match rest with
      | [] => True
      | q :: _ => offset p + length p <= offset q
      end ∧ sorted_disjoint rest
  end.

(** Every patch range lies inside [[0, len)]. *)
Definition patches_within (len : Z) (ps : list Patch) : Prop :=
  Forall (λ p, 0 <= offset p ∧ 0 <= length p ∧ offset p + length p <= len) ps.

(** Every patch is a range of [size_t] offsets: its end does not wrap. *)
Definition size_t_ranges (ps : list Patch) : Prop :=
  Forall (λ p, 0 <= offset p ∧ 0 <= length p ∧
               offset p + length p < SIZE_MAX1) ps.

(** Sorted, non-overlapping [size_t] ranges as one walk from position
    [pos]. *)
Fixpoint chain_from (pos : Z) (ps : list Patch) : Prop :=
  match ps with
  | [] => True
  | p :: rest =>
      pos <= offset p ∧ 0 <= length p ∧ offset p + length p < SIZE_MAX1 ∧
      chain_from (offset p + length p) rest
  end.

(** The same walk for patches inside [[0, len)]: the form the loop of
    [calculateChecksum] consumes. *)
Fixpoint chain_ok (pos len : Z) (ps : list Patch) : Prop :=
  match ps with
  | [] => pos <= len
  | p :: rest =>
      pos <= offset p ∧ 0 <= length p ∧ chain_ok (offset p + length p) len rest
  end.

(** Two buffers hold the same bytes at the offsets satisfying [P]. *)
Definition agree_on (P : Z → Prop) (buf1 buf2 : list byte) : Prop :=
  ∀ i, 0 <= i → P i → buf1 !! Z.to_nat i = buf2 !! Z.to_nat i.

(** ** [calculateChecksum] (lines 174-197) *)

Section Checksum.
Context `{Md5}.

(** The [for (auto&& patch: patches)] loop, threading [pos] and [ctx]. *)
Fixpoint checksum_loop (buf : list byte) (patches : list Patch)
    (pos : Z) (ctx : md5_context) : option (Z * md5_context) :=
  match patches with
  | [] => Some (pos, ctx)
  | patch :: rest =>
      match mem_read buf pos (size_t_wrap (offset patch - pos)) with
      | Some chunk =>
          checksum_loop buf rest
            (size_t_wrap (offset patch + length patch))
            (md5_update ctx chunk)
      | None => None
      end
  end.

Definition calculateChecksum (buf : list byte) (length : Z)
    (patches : list Patch) : option (vec byte 16) :=
  match checksum_loop buf patches 0 md5_starts with
  | Some (pos, ctx) =>
      match mem_read buf pos (size_t_wrap (length - pos)) with
      | Some chunk => Some (md5_finish (md5_update ctx chunk))
      | None => None
      end
  | None => None
  end.

(** The last [md5_update] and [md5_finish], from the state the loop has
    left. *)
Definition checksum_tail (buf : list byte) (length : Z)
    (st : option (Z * md5_context)) : option (vec byte 16) :=
  match st with
  | Some (pos, ctx) =>
      match mem_read buf pos (size_t_wrap (length - pos)) with
      | Some chunk => Some (md5_finish (md5_update ctx chunk))
      | None => None
      end
  | None => None
  end.

(** The specification's description of the same walk: the gap strictly
    before each patch, in ascending order, then the tail after the last
    patch. *)
Fixpoint unpatched_chunks (buf : list byte) (len : Z)
    (pos : Z) (patches : list Patch) : list (list byte) :=
  match patches with
  | [] => [slice buf pos (len - pos)]
  | patch :: rest =>
      slice buf pos (offset patch - pos)
        :: unpatched_chunks buf len (offset patch + length patch) rest
  end.

Definition digest_of_chunks (chunks : list (list byte)) : vec byte 16 :=
  md5_finish (foldl md5_update md5_starts chunks).
End Checksum.

(** ** Exceptions, results and the pipeline monad *)

Inductive exn :=
  | InvalidImage (what : string)
  | InvalidPdb (what : string)
  | system_error (code : Z) (what : string)
  | internal_error (what : string).

#[global] Instance exn_eq_decision : EqDecision exn.
Proof. solve_decision. Defined.

(** Outcome of C++ code: a value, a thrown exception, or undefined
    behaviour (a read outside the mapped image). *)
Inductive Result (A : Type) :=
  | Ok (a : A)
  | Throw (e : exn)
  | Undefined.
Arguments Ok {A} a.
Arguments Throw {A} e.
Arguments Undefined {A}.

#[global] Instance Result_ret : MRet Result := λ A a, Ok a.
#[global] Instance Result_bind : MBind Result := λ A B f m,
  match m with
  | Ok a => f a
  | Throw e => Throw e
  | Undefined => Undefined
  end.

Definition of_option {A} (o : option A) : Result A :=
  match o with Some a => Ok a | None => Undefined end.

(** The files the run touches besides the mapped image.  [unwritable] and
    [undeletable] are the paths on which the operating system refuses to
    create, respectively unlink, a file. *)
Record World := mkWorld {
  image : list byte;
  files : gmap string (list byte);
  unwritable : gset string;
  undeletable : gset string;
  errno : Z;
  stdout : list (string * Z)
}.

Definition set_image (img : list byte) (w : World) : World :=
  mkWorld img (files w) (unwritable w) (undeletable w) (errno w) (stdout w).
Definition set_files (fs : gmap string (list byte)) (w : World) : World :=
  mkWorld (image w) fs (unwritable w) (undeletable w) (errno w) (stdout w).
Definition set_errno (e : Z) (w : World) : World :=
  mkWorld (image w) (files w) (unwritable w) (undeletable w) e (stdout w).
Definition print (label : string) (v : Z) (w : World) : World :=
  mkWorld (image w) (files w) (unwritable w) (undeletable w) (errno w)
    (stdout w ++ [(label, v)]).

Definition M (A : Type) : Type := World → Result A * World.

#[global] Instance M_ret : MRet M := λ A a w, (Ok a, w).
#[global] Instance M_bind : MBind M := λ A B f m w,
  match m w with
  | (Ok a, w') => f a w'
  | (Throw e, w') => (Throw e, w')
  | (Undefined, w') => (Undefined, w')
  end.

Definition throw {A} (e : exn) : M A := λ w, (Throw e, w).
Definition lift {A} (r : Result A) : M A := λ w, (r, w).
Definition get_world : M World := λ w, (Ok w, w).
Definition modify (f : World → World) : M unit := λ w, (Ok (), f w).

(** ** PE structures ([pe_format.h], not part of the verified file) *)

(** Modelled from the spec: the constants and field offsets of the headers,
    data directories, debug directory entries and PDB match record of
    sections 3 and 4.1, declared in [pe_format.h]; the values are those of
    the PE/COFF format. *)
Definition IMAGE_NT_OPTIONAL_HDR32_MAGIC : Z := 0x10b.
Definition IMAGE_NT_OPTIONAL_HDR64_MAGIC : Z := 0x20b.
Definition IMAGE_DIRECTORY_ENTRY_EXPORT : Z := 0.
Definition IMAGE_DIRECTORY_ENTRY_RESOURCE : Z := 2.
Definition IMAGE_DEBUG_TYPE_CODEVIEW : Z := 2.
(** ['RSDS'] *)
Definition CV_INFO_SIGNATURE_PDB70 : Z := 0x53445352.

(** [offsetof(IMAGE_FILE_HEADER, TimeDateStamp)] *)
Definition FileHeader_TimeDateStamp : Z := 4.
(** [offsetof(IMAGE_OPTIONAL_HEADER32/64, CheckSum)], the same in both. *)
Definition OptionalHeader_CheckSum : Z := 64.
Definition ExportDirectory_TimeDateStamp : Z := 4.
Definition ResourceDirectory_TimeDateStamp : Z := 4.
(** [IMAGE_DEBUG_DIRECTORY] *)
Definition sizeof_IMAGE_DEBUG_DIRECTORY : Z := 28.
Definition DebugDirectory_TimeDateStamp : Z := 4.
Definition DebugDirectory_Type : Z := 12.
Definition DebugDirectory_PointerToRawData : Z := 24.
(** [CV_INFO_PDB70] *)
Definition CvInfo_CvSignature : Z := 0.
Definition CvInfo_Signature : Z := 4.
Definition CvInfo_Age : Z := 20.

Inductive OptHeader := IMAGE_OPTIONAL_HEADER32 | IMAGE_OPTIONAL_HEADER64.

(** Modelled from the spec: the PDB match record of section 3, signature
    tag, 128-bit GUID and 32-bit age ([CV_INFO_PDB70] of [pe_format.h]). *)
Record CV_INFO_PDB70 := mkCvInfo {
  CvSignature : Z;
  Signature : vec byte 16;
  Age : Z
}.

(** The [n] bytes at [pos] as a fixed-size array; bytes outside the buffer
    read as zero (callers check the range first). *)
Definition slice_vec (buf : list byte) (pos : Z) (n : nat) : vec byte n :=
  fun_to_vec (λ i : fin n, default x00 (buf !! (Z.to_nat pos + fin_to_nat i)%nat)).

(** [*pdbInfo]: the record at offset [off] of the image. *)
Definition load_CV_INFO_PDB70 (buf : list byte) (off : Z) : option CV_INFO_PDB70 :=
  if decide (0 <= off ∧ off + 24 <= Zlen buf) then
    Some (mkCvInfo (le_decode (slice buf (off + CvInfo_CvSignature) 4))
                   (slice_vec buf (off + CvInfo_Signature) 16)
                   (le_decode (slice buf (off + CvInfo_Age) 4)))
  else None.

(** ** The PE parser ([pe_file.h], not part of the verified file) *)

(** Modelled from the spec: the lookups of [PEFile], section 4.1.  They are
    read-only functions of the image bytes; each may throw [InvalidImage].
    A pointer into the image is its offset; a null pointer is [None]. *)
Class PEParser := {
  (** [PEFile::PEFile(buf, length)]; the result is [pe.fileHeader]. *)
  PEFile : list byte → Z → Result Z;
  (** [pe.magic()] *)
  magic : list byte → Z;
  (** [pe.optionalHeader<T>()] *)
  optionalHeader : list byte → OptHeader → Result Z;
  (** [pe.pdbInfo(opt)] *)
  pdbInfo : list byte → OptHeader → Z → Result (option Z);
  (** [pe.getDataDir<T>(opt, entry)]; [None] when the directory is absent. *)
  getDataDir : list byte → OptHeader → Z → Z → Result (option Z);
  (** [pe.getDebugDataDirs(opt, debugDirCount)]: first entry and count. *)
  getDebugDataDirs : list byte → OptHeader → Z → Result (Z * Z);
  (** [pe.isValidRef(cvInfo)] *)
  isValidRef : list byte → Z → bool;
  (** [pe.pdbAge], the replacement for the PDB age. *)
  pdbAge : Z
}.

(** Modelled from the spec: [pe.timestamp] is declared in [pe_file.h]; its
    value is the one the header comment of [patch_image.cpp] gives, Jan 1,
    2010, 0:00:00 GMT, in seconds since the Unix epoch. *)
Definition timestamp : Z := 1262304000.

(** Days from 1970-01-01 to the civil date [y]-[m]-[d] (proleptic
    Gregorian calendar), to read [timestamp] as a date. *)
Definition days_from_civil (y m d : Z) : Z :=
  let y' := if m <=? 2 then y - 1 else y in
  let era := y' / 400 in
  let yoe := y' - era * 400 in
  let mp := (m + 9) mod 12 in
  let doy := (153 * mp + 2) / 5 + d - 1 in
  let doe := yoe * 365 + yoe / 4 - yoe / 100 + doy in
  era * 146097 + doe - 719468.

(** ** [Patches] ([patches.h], not part of the verified file) *)

(** Modelled from the spec: [Patches::add] records the patch at the end of
    the list, with the offset of [addr] in the image and [sizeof(T)]; no
    write and no overlap check happen here. *)
Definition Patches_add (patches : list Patch) (addr : Z) (size : Z) (data : DataPtr)
    (name : string) : list Patch :=
  patches ++ [mkPatch addr size data name].

(** Modelled from the spec: [Patches::sort] orders the recorded patches by
    ascending offset. *)
Fixpoint insert_sorted (p : Patch) (ps : list Patch) : list Patch :=
  match ps with
  | [] => [p]
  | q :: rest =>
      if decide (offset p <= offset q) then p :: q :: rest
      else q :: insert_sorted p rest
  end.

(** Modelled from the spec: [Patches::sort], by insertion. *)
Definition Patches_sort (patches : list Patch) : list Patch :=
  foldr insert_sorted [] patches.

Section Apply.
Context `{PEParser}.

(** The bytes [patch.data] points at when the patches are applied;
    [pdbSignature] is the array [calculateChecksum] has filled. *)
Definition patch_data (pdbSignature : vec byte 16) (d : DataPtr) : list byte :=
  match d with
  | ptr_timestamp => le_encode 4 timestamp
  | ptr_pdbSignature => vec_to_list pdbSignature
  | ptr_pdbAge => le_encode 4 pdbAge
  end.

(** The [length] bytes a patch copies into the image. *)
Definition patch_bytes (pdbSignature : vec byte 16) (patch : Patch) : list byte :=
  take (Z.to_nat (length patch)) (patch_data pdbSignature (data patch)).

(** Modelled from the spec: [Patches::apply(dryRun)] takes the patches
    in order; a patch whose range leaves the image or overlaps the patch
    applied before it is a fatal internal-consistency error; otherwise
    its value is written at its offset unless [dryRun]. *)
Fixpoint apply_loop (pdbSignature : vec byte 16) (dryRun : bool)
    (prev_end : Z) (patches : list Patch) : M unit :=
  match patches with
  | [] => mret ()
  | patch :: rest =>
      w ← get_world;
      if decide (prev_end <= offset patch ∧ 0 <= length patch ∧
                 offset patch + length patch <= Zlen (image w)) then
        modify (λ w,
          if dryRun then w
          else set_image
                 (mem_write (image w) (offset patch)
                    (patch_bytes pdbSignature patch)) w);;
        apply_loop pdbSignature dryRun (offset patch + length patch) rest
      else throw (internal_error "invalid patch")
  end.

(** Modelled from the spec: [Patches::apply(dryRun)], from the start of
    the image. *)
Definition Patches_apply (pdbSignature : vec byte 16) (patches : list Patch)
    (dryRun : bool) : M unit :=
  apply_loop pdbSignature dryRun 0 patches.
End Apply.

(** ** [patchDebugDataDirectories] (lines 95-133) *)

Section Analysis.
Context `{PEParser}.

(** The [for] loop of lines 108-124; [dir] is the current entry,
    [cvInfo] the CodeView record found so far. *)
Fixpoint debug_loop (buf : list byte) (n : nat) (dir : Z)
    (cvInfo : option Z) (patches : list Patch)
    : Result (option Z * list Patch) :=
  match n with
  | O => Ok (cvInfo, patches)
  | S n' =>
      ts ← of_option (read32 buf (dir + DebugDirectory_TimeDateStamp));
      let patches :=
        if decide (ts ≠ 0) then
          Patches_add patches (dir + DebugDirectory_TimeDateStamp) 4 ptr_timestamp
            "IMAGE_DEBUG_DIRECTORY.TimeDateStamp"
        else patches in
      ty ← of_option (read32 buf (dir + DebugDirectory_Type));
      if decide (ty = IMAGE_DEBUG_TYPE_CODEVIEW) then
        match cvInfo with
        | Some _ => Throw (InvalidImage "found multiple CodeView debug entries")
        | None =>
            ptr ← of_option (read32 buf (dir + DebugDirectory_PointerToRawData));
            if isValidRef buf ptr then
              debug_loop buf n' (dir + sizeof_IMAGE_DEBUG_DIRECTORY)
                (Some ptr) patches
            else Throw (InvalidImage "invalid CodeView debug entry location")
        end
      else
        debug_loop buf n' (dir + sizeof_IMAGE_DEBUG_DIRECTORY) cvInfo patches
  end.

Definition patchDebugDataDirectories (buf : list byte) (patches : list Patch)
    (T : OptHeader) (opt : Z) : Result (list Patch) :=
  '(dir, debugDirCount) ← getDebugDataDirs buf T opt;
  '(cvInfo, patches) ← debug_loop buf (Z.to_nat debugDirCount) dir None patches;
  match cvInfo with
  | Some cv =>
      sig ← of_option (read32 buf (cv + CvInfo_CvSignature));
      if decide (sig ≠ CV_INFO_SIGNATURE_PDB70) then
        Throw (InvalidImage "unsupported PDB format, only version 7.0 is supported")
      else
        let patches :=
          Patches_add patches (cv + CvInfo_Signature) 16 ptr_pdbSignature "PDB Signature" in
        let patches :=
          Patches_add patches (cv + CvInfo_Age) 4 ptr_pdbAge "PDB Age" in
        Ok patches
  | None => Ok patches
  end.

(** ** [patchOptionalHeader] (lines 139-161) *)

Definition patchOptionalHeader (buf : list byte) (patches : list Patch)
    (T : OptHeader) (optional : Z) : Result (list Patch) :=
  let patches :=
    Patches_add patches (optional + OptionalHeader_CheckSum) 4 ptr_timestamp
      "OptionalHeader.CheckSum" in
  dir ← getDataDir buf T optional IMAGE_DIRECTORY_ENTRY_EXPORT;
  let patches :=
    match dir with
    | Some dir =>
        Patches_add patches (dir + ExportDirectory_TimeDateStamp) 4 ptr_timestamp
          "IMAGE_EXPORT_DIRECTORY.TimeDateStamp"
    | None => patches
    end in
  dir ← getDataDir buf T optional IMAGE_DIRECTORY_ENTRY_RESOURCE;
  let patches :=
    match dir with
    | Some dir =>
        Patches_add patches (dir + ResourceDirectory_TimeDateStamp) 4 ptr_timestamp
          "IMAGE_RESOURCE_DIRECTORY.TimeDateStamp"
    | None => patches
    end in
  patchDebugDataDirectories buf patches T optional.

(** Lines 309-337 of [patchImageImpl]: everything that reads the image
    and fills the patch list.  The result is [pdbInfo] and the patches
    in the order they were added. *)
Definition collectPatches (buf : list byte) (length : Z)
    : Result (option Z * list Patch) :=
  fileHeader ← PEFile buf length;
  let patches :=
    Patches_add [] (fileHeader + FileHeader_TimeDateStamp) 4 ptr_timestamp
      "IMAGE_FILE_HEADER.TimeDateStamp" in
  let m := magic buf in
  if decide (m = IMAGE_NT_OPTIONAL_HDR32_MAGIC) then
    opt ← optionalHeader buf IMAGE_OPTIONAL_HEADER32;
    pdbInfo ← pdbInfo buf IMAGE_OPTIONAL_HEADER32 opt;
    patches ← patchOptionalHeader buf patches IMAGE_OPTIONAL_HEADER32 opt;
    Ok (pdbInfo, patches)
  else if decide (m = IMAGE_NT_OPTIONAL_HDR64_MAGIC) then
    opt ← optionalHeader buf IMAGE_OPTIONAL_HEADER64;
    pdbInfo ← pdbInfo buf IMAGE_OPTIONAL_HEADER64 opt;
    patches ← patchOptionalHeader buf patches IMAGE_OPTIONAL_HEADER64 opt;
    Ok (pdbInfo, patches)
  else Throw (InvalidImage "unsupported IMAGE_NT_HEADERS.OptionalHeader").
End Analysis.

(** ** The PDB side *)

(** Modelled from the spec: the PDB header stream of section 3, version,
    timestamp, age and 128-bit GUID ([PdbStream70] of [pdb.h]), 28 bytes in
    all. *)
Record PdbStream70 := mkPdbStream70 {
  version : Z;
  pdb_timestamp : Z;
  age : Z;
  sig70 : vec byte 16
}.

Definition sizeof_PdbStream70 : Z := 28.

Definition decode_PdbStream70 (bs : list byte) : PdbStream70 :=
  mkPdbStream70 (le_decode (slice bs 0 4)) (le_decode (slice bs 4 4))
    (le_decode (slice bs 8 4)) (slice_vec bs 12 16).

(** [memcmp(a, b, n)] on two arrays: the sign of the first difference. *)
Fixpoint memcmp (a b : list byte) (n : nat) : Z :=
  match n, a, b with
  | S n', x :: a', y :: b' =>
      if decide (x = y) then memcmp a' b' n'
      else if decide (byte_to_Z x < byte_to_Z y) then -1 else 1
  | _, _, _ => 0
  end.

(** ** [matchingSignatures] (lines 202-211) *)

Definition matchingSignatures (pdbInfo : CV_INFO_PDB70) (pdbHeader : PdbStream70)
    : bool :=
  if bool_decide (Age pdbInfo ≠ age pdbHeader) ||
     bool_decide (memcmp (vec_to_list (Signature pdbInfo))
                   (vec_to_list (sig70 pdbHeader)) 16 ≠ 0)
  then false
  else true.

(** Modelled from the spec: a stream of the container ([msf_stream.h]) as
    the code observes it: what [length()] reports and the bytes a [read]
    delivers. *)
Record MsfStream := mkMsfStream {
  stream_length : Z;
  stream_bytes : list byte
}.

(** [stream->read(n, dst)]: the bytes copied to [dst]; their number is the
    return value. *)
Definition stream_read (s : MsfStream) (n : Z) : list byte :=
  take (Z.to_nat n) (stream_bytes s).

(** Modelled from the spec: the MSF container reader and writer ([msf.h],
    [msf_stream.h], [pdb.h]) as the black box of section 4.5: load a
    container, get a stream by type, replace a stream, write the container
    out; together with the constants of [PdbStreamType] and [PdbVersion]
    the code names. *)
Class Msf := {
  MsfFile : Type;
  (** [MsfFile msf(pdb)] on the content of the opened file *)
  MsfFile_load : list byte → Result MsfFile;
  replaceStream : MsfFile → Z → option MsfStream → MsfFile;
  getStream : MsfFile → Z → option MsfStream;
  (** [msf.write(file)]: the bytes written *)
  msf_write : MsfFile → list byte;
  PdbStreamType_streamTable : Z;
  PdbStreamType_header : Z;
  PdbVersion_vc70 : Z
}.

Inductive FileMode := readExisting | writeEmpty.

Definition ENOENT : Z := 2.
Definition EACCES : Z := 13.

(** Modelled from the spec: [openFile] ([file.h]).  A file handle is the
    path it was opened on; a null handle is [None].  Opening an existing
    file for reading fails when there is none; opening a file for writing
    creates it empty, or empties it, and fails where the system refuses. *)
Definition openFile (path : string) (mode : FileMode) : M (option string) :=
  λ w,
    match mode with
    | readExisting =>
        match files w !! path with
        | Some _ => (Ok (Some path), w)
        | None => (Ok None, set_errno ENOENT w)
        end
    | writeEmpty =>
        if decide (path ∈ unwritable w) then (Ok None, set_errno EACCES w)
        else (Ok (Some path), set_files (<[path := []]> (files w)) w)
    end.

(** Modelled from the spec: [remove] of the C library: 0 when the file
    has been deleted, -1 when there is none or the system refuses. *)
Definition remove (path : string) : M Z :=
  λ w,
    match files w !! path with
    | None => (Ok (-1), set_errno ENOENT w)
    | Some _ =>
        if decide (path ∈ undeletable w) then (Ok (-1), set_errno EACCES w)
        else (Ok 0, set_files (delete path (files w)) w)
    end.

(** ** [getTempPdbPath] (lines 223-228) *)

Definition tmpSuffix : string := ".tmp".

Definition getTempPdbPath (pdbPath : string) : string :=
  pdbPath +:+ tmpSuffix.

(** ** [patchPDB] (lines 233-300)

    [WIN32] says whether the file is compiled with [_WIN32] defined: the
    two branches of the [#ifdef] at line 283. *)

Section Pipeline.
Context `{Md5} `{PEParser} `{Msf}.

Definition patchPDB (WIN32 : bool) (pdbPath : string) (pdbInfo : option Z)
    (signature : vec byte 16) (dryrun : bool) : M unit :=
  pdb ← openFile pdbPath readExisting;
  match pdb with
  | None =>
      w ← get_world;
      throw (system_error (errno w) "Failed to open PDB file")
  | Some pdb =>
  let tmpPdbPath := getTempPdbPath pdbPath in
  tmpPdb ← openFile tmpPdbPath writeEmpty;
  match tmpPdb with
  | None =>
      w ← get_world;
      throw (system_error (errno w) "Failed to open file")
  | Some tmpPdb =>
  w ← get_world;
  content ← lift (of_option (files w !! pdb));
  msf ← lift (MsfFile_load content);
  let msf := replaceStream msf PdbStreamType_streamTable None in
  match getStream msf PdbStreamType_header with
  | None => throw (InvalidPdb "missing PDB header stream")
  | Some pdbHeaderStream =>
  if decide (stream_length pdbHeaderStream < sizeof_PdbStream70) then
    throw (InvalidPdb "missing PDB 7.0 header")
  else
  let bytes := stream_read pdbHeaderStream sizeof_PdbStream70 in
  if decide (Zlen bytes ≠ sizeof_PdbStream70) then
    throw (InvalidPdb "missing PDB header")
  else
  let pdbHeader := decode_PdbStream70 bytes in
  if decide (version pdbHeader < PdbVersion_vc70) then
    throw (InvalidPdb "unsupported PDB implementation version")
  else
  matching ←
    match pdbInfo with
    | None => mret false
    | Some p =>
        w ← get_world;
        cv ← lift (of_option (load_CV_INFO_PDB70 (image w) p));
        mret (matchingSignatures cv pdbHeader)
    end;
  if negb matching then
    throw (InvalidPdb "PE and PDB signatures do not match")
  else
  modify (print "PDB Timestamp: " (pdb_timestamp pdbHeader));;
  modify (print "PDB Age: " (age pdbHeader));;
  modify (λ w, set_files (<[tmpPdb := msf_write msf]> (files w)) w);;
  if WIN32 then
    (* both branches are TODO *)
    mret ()
  else if dryrun then
    r ← remove tmpPdbPath;
    if decide (r ≠ 0) then
      w ← get_world;
      throw (system_error (errno w) "Failed to delete temporary PDB")
    else mret ()
  else
    (* TODO: rename the new PDB over the old one *)
    mret ()
  end end end.

(** ** [patchImageImpl] (lines 302-352) *)

(** Modelled from the spec: [MemMap] ([memmap.h]) maps the image file
    read-write; the mapping is the [image] of the world, so a write to
    [buf] is a write to the file. *)
Definition MemMap (imagePath : string) : M (list byte) :=
  λ w, (Ok (image w), w).

Definition patchImageImpl (WIN32 : bool) (imagePath : string)
    (pdbPath : option string) (dryrun : bool) : M unit :=
  buf ← MemMap imagePath;
  let length := Zlen buf in
  '(pdbInfo, patches) ← lift (collectPatches buf length);
  let patches := Patches_sort patches in
  pdbSignature ← lift (of_option (calculateChecksum buf length patches));
  match pdbPath with
  | Some pdbPath => patchPDB WIN32 pdbPath pdbInfo pdbSignature dryrun
  | None => mret ()
  end;;
  Patches_apply pdbSignature patches dryrun.

(** [patchImage] (lines 356-363), for [char] and [wchar_t] paths alike. *)
Definition patchImage (WIN32 : bool) (imagePath : string)
    (pdbPath : option string) (dryrun : bool) : M unit :=
  patchImageImpl WIN32 imagePath pdbPath dryrun.
End Pipeline.

(** ** The debug directory array, as the specification describes it

    Entry [i] of the array that starts at [dir]; the fields the loop
    reads; the entries of CodeView type; the patch the loop records for a
    timestamp field. *)

Definition entry (dir i : Z) : Z := dir + sizeof_IMAGE_DEBUG_DIRECTORY * i.

Definition entry_TimeDateStamp (buf : list byte) (dir i : Z) : Z :=
  default 0 (read32 buf (entry dir i + DebugDirectory_TimeDateStamp)).
Definition entry_Type (buf : list byte) (dir i : Z) : Z :=
  default 0 (read32 buf (entry dir i + DebugDirectory_Type)).
Definition entry_PointerToRawData (buf : list byte) (dir i : Z) : Z :=
  default 0 (read32 buf (entry dir i + DebugDirectory_PointerToRawData)).

(** Indices in [[k, k+n)] of the entries of CodeView type. *)
Definition codeview_entries (buf : list byte) (dir k : Z) (n : nat) : list Z :=
  filter (λ i, entry_Type buf dir i = IMAGE_DEBUG_TYPE_CODEVIEW)
    (seqZ k (Z.of_nat n)).

Definition timestamp_patch (dir i : Z) : Patch :=
  mkPatch (entry dir i + DebugDirectory_TimeDateStamp) 4 ptr_timestamp
    "IMAGE_DEBUG_DIRECTORY.TimeDateStamp".

(** One patch per entry in [[k, k+n)] whose timestamp is not zero. *)
Definition debug_timestamp_patches (buf : list byte) (dir k : Z) (n : nat)
    : list Patch :=
  timestamp_patch dir <$>
    filter (λ i, entry_TimeDateStamp buf dir i ≠ 0) (seqZ k (Z.of_nat n)).

(** What the loop returns, from the CodeView entries it meets. *)
Definition debug_outcome `{PEParser} (buf : list byte) (dir : Z)
    (cvInfo : option Z) (cvs : list Z) (patches : list Patch)
    : Result (option Z * list Patch) :=
  match cvs, cvInfo with
  | [], _ => Ok (cvInfo, patches)
  | _ :: _, Some _ =>
      Throw (InvalidImage "found multiple CodeView debug entries")
  | i :: rest, None =>
      if isValidRef buf (entry_PointerToRawData buf dir i) then
        match rest with
        | [] => Ok (Some (entry_PointerToRawData buf dir i), patches)
        | _ :: _ => Throw (InvalidImage "found multiple CodeView debug entries")
        end
      else Throw (InvalidImage "invalid CodeView debug entry location")
  end.

(** The labels of the patches registered for timestamp fields. *)
Definition timestamp_labels : list string :=
  [ "IMAGE_FILE_HEADER.TimeDateStamp";
    "IMAGE_EXPORT_DIRECTORY.TimeDateStamp";
    "IMAGE_RESOURCE_DIRECTORY.TimeDateStamp";
    "IMAGE_DEBUG_DIRECTORY.TimeDateStamp" ].

(** What the code registers: a 4-byte patch that points at
    [pe.timestamp], the 16-byte signature, or the 4-byte age. *)
Definition registered (p : Patch) : Prop :=
  (data p = ptr_timestamp ∧ length p = 4 ∧
     name p ∈ "OptionalHeader.CheckSum" :: timestamp_labels) ∨
  (data p = ptr_pdbSignature ∧ length p = 16 ∧ name p = "PDB Signature") ∨
  (data p = ptr_pdbAge ∧ length p = 4 ∧ name p = "PDB Age").

(** ** Notions used to state the properties of the PDB rewrite *)

(** The world once both files are open: the temporary file exists and is
    empty. *)
Definition opened (pdbPath : string) (w : World) : World :=
  set_files (<[getTempPdbPath pdbPath := []]> (files w)) w.

(** The checks of lines 250-269 pass on the file content [content]: the
    container loads, it has a header stream of at least
    [sizeof(PdbStream70)] bytes, the header is read in full and its version
    is supported.  [msf] is the container after [replaceStream] and
    [pdbHeader] the header read. *)
Definition header_accepted `{Msf} (content : list byte) (msf : MsfFile)
    (pdbHeader : PdbStream70) : Prop :=
  ∃ msf0 pdbHeaderStream,
    MsfFile_load content = Ok msf0 ∧
    msf = replaceStream msf0 PdbStreamType_streamTable None ∧
    getStream msf PdbStreamType_header = Some pdbHeaderStream ∧
    sizeof_PdbStream70 <= stream_length pdbHeaderStream ∧
    Zlen (stream_read pdbHeaderStream sizeof_PdbStream70) = sizeof_PdbStream70 ∧
    pdbHeader = decode_PdbStream70 (stream_read pdbHeaderStream sizeof_PdbStream70) ∧
    PdbVersion_vc70 <= version pdbHeader.

(** ** Valid images

    The notions used to state idempotence.  The fields the pipeline patches
    lie apart from everything the analysis reads to find them: the headers
    and directories the parser walks, and the [Type] and
    [PointerToRawData] fields, the zero timestamps and the [CvSignature]
    the debug directory loop reads. *)

Section Validity.
Context `{PEParser}.

(** The magic number that selects the optional header [T]. *)
Definition magic_of (T : OptHeader) : Z :=
  match T with
  | IMAGE_OPTIONAL_HEADER32 => IMAGE_NT_OPTIONAL_HDR32_MAGIC
  | IMAGE_OPTIONAL_HEADER64 => IMAGE_NT_OPTIONAL_HDR64_MAGIC
  end.

(** The parser returns on [buf'] what it returns on [buf], for the calls
    the pipeline makes. *)
Definition parser_agrees (buf buf' : list byte) : Prop :=
  PEFile buf' (Zlen buf') = PEFile buf (Zlen buf) ∧
  magic buf' = magic buf ∧
  (∀ p, isValidRef buf' p = isValidRef buf p) ∧
  ∀ T, magic buf = magic_of T →
    optionalHeader buf' T = optionalHeader buf T ∧
    ∀ opt, optionalHeader buf T = Ok opt →
      pdbInfo buf' T opt = pdbInfo buf T opt ∧
      getDataDir buf' T opt IMAGE_DIRECTORY_ENTRY_EXPORT
        = getDataDir buf T opt IMAGE_DIRECTORY_ENTRY_EXPORT ∧
      getDataDir buf' T opt IMAGE_DIRECTORY_ENTRY_RESOURCE
        = getDataDir buf T opt IMAGE_DIRECTORY_ENTRY_RESOURCE ∧
      getDebugDataDirs buf' T opt = getDebugDataDirs buf T opt.

(** What the parser returns does not depend on the bytes inside the
    patches. *)
Definition header_walk_avoids (buf : list byte) (ps : list Patch) : Prop :=
  ∀ buf', Zlen buf' = Zlen buf →
    agree_on (λ i, ¬ covered ps i) buf buf' → parser_agrees buf buf'.

(** No byte of [[lo, lo+n)] lies in a patch. *)
Definition unpatched (ps : list Patch) (lo n : Z) : Prop :=
  ∀ j, lo <= j < lo + n → ¬ covered ps j.

(** The same as a test on the patch list. *)
Definition unpatchedb (ps : list Patch) (lo n : Z) : bool :=
  forallb (λ p, (offset p + length p <=? lo) || (lo + n <=? offset p)) ps.

(** The debug directory loop reads on [buf'] what it reads on [buf], up
    to the value of a nonzero timestamp. *)
Definition debug_reads_agree (buf buf' : list byte) : Prop :=
  ∀ T opt dir count,
    magic buf = magic_of T →
    optionalHeader buf T = Ok opt →
    getDebugDataDirs buf T opt = Ok (dir, count) →
    ∀ i, 0 <= i < count →
      read32 buf' (entry dir i + DebugDirectory_Type)
        = read32 buf (entry dir i + DebugDirectory_Type) ∧
      read32 buf' (entry dir i + DebugDirectory_PointerToRawData)
        = read32 buf (entry dir i + DebugDirectory_PointerToRawData) ∧
      (λ t, bool_decide (t ≠ 0)) <$>
          read32 buf' (entry dir i + DebugDirectory_TimeDateStamp)
        = (λ t, bool_decide (t ≠ 0)) <$>
            read32 buf (entry dir i + DebugDirectory_TimeDateStamp) ∧
      (entry_Type buf dir i = IMAGE_DEBUG_TYPE_CODEVIEW →
         read32 buf' (entry_PointerToRawData buf dir i + CvInfo_CvSignature)
           = read32 buf (entry_PointerToRawData buf dir i + CvInfo_CvSignature)).

(** The fields the debug directory loop reads are not patched, except the
    nonzero timestamps it patches itself. *)
Definition debug_fields_avoid (buf : list byte) (ps : list Patch) : Prop :=
  ∀ T opt dir count,
    magic buf = magic_of T →
    optionalHeader buf T = Ok opt →
    getDebugDataDirs buf T opt = Ok (dir, count) →
    ∀ i, 0 <= i < count →
      unpatched ps (entry dir i + DebugDirectory_Type) 4 ∧
      unpatched ps (entry dir i + DebugDirectory_PointerToRawData) 4 ∧
      (entry_TimeDateStamp buf dir i = 0 →
         unpatched ps (entry dir i + DebugDirectory_TimeDateStamp) 4) ∧
      (entry_Type buf dir i = IMAGE_DEBUG_TYPE_CODEVIEW →
         unpatched ps (entry_PointerToRawData buf dir i + CvInfo_CvSignature) 4).

Definition valid_image (buf : list byte) : Prop :=
  Zlen buf < SIZE_MAX1 ∧
  ∃ pdbInfo patches,
    collectPatches buf (Zlen buf) = Ok (pdbInfo, patches) ∧
    header_walk_avoids buf patches ∧
    debug_fields_avoid buf patches.
End Validity.

(** ** Reference collaborators

    Small executable implementations of the three interfaces, on which the
    statements below are run on concrete inputs. *)

Fixpoint le_encode_vec (n : nat) (z : Z) : vec byte n :=
  match n with
  | O => [#]
  | S n' => byte_of_Z z ::: le_encode_vec n' (z / 256)
  end.

(** A 128-bit polynomial hash over the concatenated input. *)
Definition poly_hash (bs : list byte) : Z :=
  foldl (λ h b, (h * 257 + byte_to_Z b + 1) mod 2 ^ 128) 0 bs.

Definition PolyHash : Md5 := {|
  md5_context := list byte;
  md5_starts := [];
  md5_update := λ ctx bs, ctx ++ bs;
  md5_finish := λ ctx, le_encode_vec 16 (poly_hash ctx)
|}.

Definition read16 (buf : list byte) (pos : Z) : option Z :=
  le_decode <$> mem_read buf pos 2.

Definition need {A} (o : option A) (what : string) : Result A :=
  match o with Some a => Ok a | None => Throw (InvalidImage what) end.

(** A PE header walk for images whose sections are mapped at their file
    offsets, so that a relative virtual address is a file offset. *)
Module FlatPE.
Definition e_lfanew (buf : list byte) : Z := default 0 (read32 buf 0x3C).
Definition optional (buf : list byte) : Z := e_lfanew buf + 24.

Definition PEFile (buf : list byte) (length : Z) : Result Z :=
  mz ← need (read16 buf 0) "missing DOS header";
  if decide (mz ≠ 0x5A4D) then Throw (InvalidImage "invalid DOS signature")
  else
    lfanew ← need (read32 buf 0x3C) "missing DOS header";
    sig ← need (read32 buf lfanew) "missing PE signature";
    if decide (sig ≠ 0x4550) then Throw (InvalidImage "invalid PE signature")
    else
      _ ← need (mem_read buf (lfanew + 4) 20) "missing IMAGE_FILE_HEADER";
      _ ← need (read16 buf (lfanew + 24)) "missing optional header";
      Ok (lfanew + 4).

Definition magic (buf : list byte) : Z := default 0 (read16 buf (optional buf)).

Definition sizeof (T : OptHeader) : Z :=
  match T with IMAGE_OPTIONAL_HEADER32 => 224 | IMAGE_OPTIONAL_HEADER64 => 240 end.

Definition optionalHeader (buf : list byte) (T : OptHeader) : Result Z :=
  _ ← need (mem_read buf (optional buf) (sizeof T)) "missing optional header";
  Ok (optional buf).

(** [opt->DataDirectory[entry]]: address and size. *)
Definition dataDirectory (buf : list byte) (T : OptHeader) (opt entry : Z)
    : Result (Z * Z) :=
  let at_ := opt + sizeof T - 128 + 8 * entry in
  va ← need (read32 buf at_) "invalid data directory";
  size ← need (read32 buf (at_ + 4)) "invalid data directory";
  Ok (va, size).

Definition getDataDir (buf : list byte) (T : OptHeader) (opt entry : Z)
    : Result (option Z) :=
  '(va, size) ← dataDirectory buf T opt entry;
  if decide (size = 0) then Ok None
  else
    _ ← need (mem_read buf va 8) "invalid data directory location";
    Ok (Some va).

Definition getDebugDataDirs (buf : list byte) (T : OptHeader) (opt : Z)
    : Result (Z * Z) :=
  '(va, size) ← dataDirectory buf T opt 6;
  let count := size / sizeof_IMAGE_DEBUG_DIRECTORY in
  _ ← need (mem_read buf va (count * sizeof_IMAGE_DEBUG_DIRECTORY))
        "invalid debug directory location";
  Ok (va, count).

Definition isValidRef (buf : list byte) (p : Z) : bool :=
  bool_decide (0 <= p ∧ p + 24 <= Zlen buf).

Fixpoint findCodeView (buf : list byte) (n : nat) (dir : Z)
    (cvInfo : option Z) : Result (option Z) :=
  match n with
  | O => Ok cvInfo
  | S n' =>
      ty ← need (read32 buf (dir + DebugDirectory_Type)) "invalid debug entry";
      if decide (ty = IMAGE_DEBUG_TYPE_CODEVIEW) then
        match cvInfo with
        | Some _ => Throw (InvalidImage "found multiple CodeView debug entries")
        | None =>
            ptr ← need (read32 buf (dir + DebugDirectory_PointerToRawData))
                    "invalid debug entry";
            if isValidRef buf ptr then
              findCodeView buf n' (dir + sizeof_IMAGE_DEBUG_DIRECTORY) (Some ptr)
            else Throw (InvalidImage "invalid CodeView debug entry location")
        end
      else findCodeView buf n' (dir + sizeof_IMAGE_DEBUG_DIRECTORY) cvInfo
  end.

Definition pdbInfo (buf : list byte) (T : OptHeader) (opt : Z)
    : Result (option Z) :=
  '(dir, count) ← getDebugDataDirs buf T opt;
  findCodeView buf (Z.to_nat count) dir None.

Definition parser : PEParser :=
  Build_PEParser PEFile magic optionalHeader pdbInfo getDataDir
    getDebugDataDirs isValidRef 1.
End FlatPE.

(** A container that holds the PDB header stream and nothing else. *)
Definition SingleStreamMsf : Msf := {|
  MsfFile := list byte;
  MsfFile_load := λ content,
    if decide (content = []) then Throw (InvalidPdb "invalid MSF file")
    else Ok content;
  replaceStream := λ msf type s,
    if decide (type = 1) then default [] (stream_bytes <$> s) else msf;
  getStream := λ msf type,
    if decide (type = 1) then Some (mkMsfStream (Zlen msf) msf) else None;
  msf_write := λ msf, msf;
  PdbStreamType_streamTable := 0;
  PdbStreamType_header := 1;
  PdbVersion_vc70 := 20000404
|}.

(** Building test images: [poke] writes a little-endian field. *)
Definition poke (size : nat) (pos v : Z) (buf : list byte) : list byte :=
  mem_write buf pos (le_encode size v).

(** A 512-byte PE32 image: headers at 0x40, an export directory at 320, a
    resource directory at 368, two debug directory entries at 384 (a
    CodeView entry with a nonzero timestamp, then an entry of another type
    with a zero timestamp) and the CodeView record at 448. *)
Definition sample_image : list byte :=
  poke 4 468 7
  (poke 4 464 0x0badcafe (poke 4 452 0x12345678
  (poke 4 448 CV_INFO_SIGNATURE_PDB70
  (poke 4 424 4 (poke 4 416 0
  (poke 4 408 448 (poke 4 396 IMAGE_DEBUG_TYPE_CODEVIEW (poke 4 388 0x5f5e1000
  (poke 4 372 0x5f5e1001 (poke 4 324 0x5f5e1002
  (poke 4 236 56 (poke 4 232 384
  (poke 4 204 16 (poke 4 200 368
  (poke 4 188 40 (poke 4 184 320
  (poke 4 152 0x0001f2e3
  (poke 2 88 IMAGE_NT_OPTIONAL_HDR32_MAGIC
  (poke 4 72 0x5f5e1003
  (poke 4 64 0x4550 (poke 4 60 64 (poke 2 0 0x5A4D
  (replicate 512 x00))))))))))))))))))))))).

(** The PDB header stream that matches [sample_image]: version, timestamp,
    age 7 and the GUID of the CodeView record. *)
Definition sample_pdb : list byte :=
  poke 4 24 0x0badcafe (poke 4 12 0x12345678
  (poke 4 8 7 (poke 4 4 0x5f5e1000 (poke 4 0 20000404
  (replicate 28 x00))))).

(** [sample_image] with both debug directory entries of CodeView type and
    the first one pointing far outside the image. *)
Definition two_codeview_image : list byte :=
  poke 4 424 IMAGE_DEBUG_TYPE_CODEVIEW (poke 4 408 0xFFFFFFF0 sample_image).

(** A world with [sample_image] mapped and its PDB on disk. *)
Definition sample_world : World :=
  mkWorld sample_image {["app.pdb" := sample_pdb]} ∅ ∅ 0 [].

(** The same image next to a PDB of another age, and next to a PDB that is
    three bytes long. *)
Definition mismatched_world : World :=
  mkWorld sample_image {["app.pdb" := poke 4 8 9 sample_pdb]} ∅ ∅ 0 [].

Definition truncated_world : World :=
  mkWorld sample_image {["app.pdb" := [x01; x02; x03]]} ∅ ∅ 0 [].

(** What the analysis collects on [sample_image], and its checksum. *)
Definition sample_patches : list Patch :=
  Eval vm_compute in
    match collectPatches (H := FlatPE.parser) sample_image 512 with
    | Ok (_, patches) => patches
    | _ => []
    end.

Definition sample_signature : vec byte 16 :=
  Eval vm_compute in
    default (le_encode_vec 16 0)
      (calculateChecksum (H := PolyHash) sample_image 512
         (Patches_sort sample_patches)).

(** [sample_world] after a run of the pipeline without PDB. *)
Definition patched_world : World :=
  Eval vm_compute in
    (patchImageImpl (H := PolyHash) (H0 := FlatPE.parser)
       (H1 := SingleStreamMsf) false "app.exe" None false sample_world).2.

(** ** Notions used to state further properties *)

(** Number of bytes in a list of chunks, and in the ranges of a patch
    list. *)
Definition chunk_bytes (chunks : list (list byte)) : Z :=
  foldr (λ chunk n, Zlen chunk + n) 0 chunks.

Definition patched_bytes (ps : list Patch) : Z :=
  foldr (λ p n, length p + n) 0 ps.

(** The patches [patchOptionalHeader] and [patchDebugDataDirectories]
    register for a directory or record that is present. *)
Definition checksum_patch (optional : Z) : Patch :=
  mkPatch (optional + OptionalHeader_CheckSum) 4 ptr_timestamp
    "OptionalHeader.CheckSum".

Definition export_patch (dir : option Z) : list Patch :=
  match dir with
  | Some dir =>
      [mkPatch (dir + ExportDirectory_TimeDateStamp) 4 ptr_timestamp
         "IMAGE_EXPORT_DIRECTORY.TimeDateStamp"]
  | None => []
  end.

Definition resource_patch (dir : option Z) : list Patch :=
  match dir with
  | Some dir =>
      [mkPatch (dir + ResourceDirectory_TimeDateStamp) 4 ptr_timestamp
         "IMAGE_RESOURCE_DIRECTORY.TimeDateStamp"]
  | None => []
  end.

Definition pdb_patches (cvInfo : Z) : list Patch :=
  [mkPatch (cvInfo + CvInfo_Signature) 16 ptr_pdbSignature "PDB Signature";
   mkPatch (cvInfo + CvInfo_Age) 4 ptr_pdbAge "PDB Age"].

(** A container whose directory promises a header stream of 28 bytes
    whatever the file holds. *)
Definition PromisingMsf : Msf := {|
  MsfFile := list byte;
  MsfFile_load := λ content, Ok content;
  replaceStream := λ msf type s, msf;
  getStream := λ msf type,
    if decide (type = 1) then Some (mkMsfStream 28 msf) else None;
  msf_write := λ msf, msf;
  PdbStreamType_streamTable := 0;
  PdbStreamType_header := 1;
  PdbVersion_vc70 := 20000404
|}.

(** [sample_image] with a debug directory without CodeView entry, with a
    CodeView record of another format, and with an optional header magic
    of zero. *)
Definition no_codeview_image : list byte :=
  poke 4 396 4 sample_image.

Definition old_format_image : list byte :=
  poke 4 448 0x3031424e sample_image.

Definition zero_magic_image : list byte :=
  poke 2 88 0 sample_image.

(** [sample_world] with the temporary path of the PDB refused by the
    system, for creation and for deletion. *)
Definition unwritable_world : World :=
  mkWorld sample_image {["app.pdb" := sample_pdb]} {["app.pdb.tmp"]} ∅ 0 [].

Definition undeletable_world : World :=
  mkWorld sample_image {["app.pdb" := sample_pdb]} ∅ {["app.pdb.tmp"]} 0 [].

(** [sample_image] with the resource directory at the address of the
    export directory, so that two patches cover the same field. *)
Definition overlapping_image : list byte :=
  poke 4 200 320 sample_image.

(** [sample_image] with the CodeView record laid over the second debug
    directory entry: the record starts at offset 412, so that its GUID
    covers the [TimeDateStamp] field of that entry at offset 416. *)
Definition overlaid_record_image : list byte :=
  poke 4 412 CV_INFO_SIGNATURE_PDB70 (poke 4 408 412 sample_image).

(** * Proofs *)

(** ** Memory lemmas *)

Lemma Zlen_nonneg {A} (l : list A) : 0 <= Zlen l.
Proof. unfold Zlen. lia. Qed.

Lemma size_t_wrap_small z : 0 <= z < SIZE_MAX1 → size_t_wrap z = z.
Proof. intros Hz. unfold size_t_wrap. by apply Z.mod_small. Qed.

Lemma mem_read_Some buf pos n :
  0 <= pos → 0 <= n → pos + n <= Zlen buf →
  mem_read buf pos n = Some (slice buf pos n).
Proof. intros. unfold mem_read. by rewrite decide_True. Qed.

Lemma slice_lookup buf pos n (k : nat) :
  0 <= pos →
  slice buf pos n !! k =
    if decide (Z.of_nat k < n) then buf !! Z.to_nat (pos + Z.of_nat k) else None.
Proof.
  intros Hpos. unfold slice. case_decide as Hk.
  - rewrite lookup_take_lt by lia. rewrite lookup_drop. f_equal. lia.
  - apply lookup_take_ge. lia.
Qed.

Lemma slice_ext buf1 buf2 pos n :
  0 <= pos →
  (∀ i, pos <= i < pos + n → buf1 !! Z.to_nat i = buf2 !! Z.to_nat i) →
  slice buf1 pos n = slice buf2 pos n.
Proof.
  intros Hpos Hag. apply list_eq. intros k.
  rewrite !slice_lookup by done. case_decide; [|done]. apply Hag. lia.
Qed.

(** ** The checksum skips the patched regions *)

Lemma chain_ok_lower pos len ps :
  chain_ok pos len ps → Forall (λ q, pos <= offset q) ps.
Proof.
  revert pos. induction ps as [|p rest IH]; intros pos Hc; [constructor|].
  destruct Hc as (Hle & Hlen & Hrest). constructor; [done|].
  eapply Forall_impl; [by apply IH|]. simpl. intros q Hq. lia.
Qed.

Lemma chain_ok_pos_le pos len ps : chain_ok pos len ps → pos <= len.
Proof.
  revert pos. induction ps as [|p rest IH]; intros pos Hc; [done|].
  destruct Hc as (Hle & Hlen & Hrest). apply IH in Hrest. lia.
Qed.

Lemma sorted_within_chain len ps :
  sorted_disjoint ps → patches_within len ps → 0 <= len → chain_ok 0 len ps.
Proof.
  intros Hs Hw Hlen.
  assert (∀ pos, 0 <= pos <= len →
    match ps with [] => True | q :: _ => pos <= offset q end →
    chain_ok pos len ps) as Hgen.
  { clear Hlen. induction ps as [|p rest IH]; intros pos Hpos Hhd; [simpl; lia|].
    apply Forall_cons in Hw as [(Hp0 & Hp1 & Hp2) Hw].
    destruct Hs as [Hadj Hs]. simpl. split_and!; [done..|].
    apply IH; [done|done|lia|]. by destruct rest. }
  apply Hgen; [lia|]. destruct ps as [|q ?]; [done|].
  apply Forall_cons in Hw as [(? & _) _]. done.
Qed.

Lemma chain_from_lower pos ps :
  chain_from pos ps → Forall (λ q, pos <= offset q) ps.
Proof.
  revert pos. induction ps as [|p rest IH]; intros pos Hc; [constructor|].
  destruct Hc as (Hle & Hlen & Hmax & Hrest). constructor; [done|].
  eapply Forall_impl; [by apply IH|]. simpl. intros q Hq. lia.
Qed.

Lemma sorted_ranges_chain ps :
  sorted_disjoint ps → size_t_ranges ps → chain_from 0 ps.
Proof.
  intros Hs Hw.
  assert (∀ pos, match ps with [] => True | q :: _ => pos <= offset q end →
                 chain_from pos ps) as Hgen.
  { induction ps as [|p rest IH]; intros pos Hhd; [done|].
    apply Forall_cons in Hw as [(Hp0 & Hp1 & Hp2) Hw].
    destruct Hs as [Hadj Hs]. simpl. split_and!; [done..|].
    apply IH; [done|done|]. by destruct rest. }
  apply Hgen. destruct ps as [|q ?]; [done|].
  apply Forall_cons in Hw as [(? & _) _]. done.
Qed.

Lemma mem_read_agree buf1 buf2 pos n :
  Zlen buf2 = Zlen buf1 →
  (∀ i, 0 <= pos <= i → i < pos + n → i < Zlen buf1 →
        buf1 !! Z.to_nat i = buf2 !! Z.to_nat i) →
  mem_read buf2 pos n = mem_read buf1 pos n.
Proof.
  intros HZ Hag. unfold mem_read. rewrite HZ.
  case_decide as Hr; [|done]. f_equal. symmetry.
  apply slice_ext; [lia|]. intros i Hi. apply Hag; lia.
Qed.

Section ChecksumProofs.
Context `{Md5}.

(** On two buffers of the same length that agree outside the patches, the
    walk reads the same chunks or leaves both buffers at the same point. *)
Lemma checksum_tail_ext buf1 buf2 len ps : ∀ pos ctx,
  Zlen buf1 = len → Zlen buf2 = len → len < SIZE_MAX1 →
  0 <= pos < SIZE_MAX1 → chain_from pos ps →
  agree_on (λ i, pos <= i < len ∧ ¬ covered ps i) buf1 buf2 →
  checksum_tail buf2 len (checksum_loop buf2 ps pos ctx)
    = checksum_tail buf1 len (checksum_loop buf1 ps pos ctx).
Proof.
  induction ps as [|p rest IH]; intros pos ctx Hl1 Hl2 Hmax Hpos Hc Hag.
  - cbn [checksum_loop checksum_tail].
    rewrite (mem_read_agree buf1 buf2); [done|congruence|].
    intros i Hi _ Hlt. apply Hag; [lia|]. split; [lia|].
    unfold covered. rewrite Exists_nil. tauto.
  - destruct Hc as (Hle & Hlen & Hend & Hrest).
    pose proof (chain_from_lower _ _ Hrest) as Hlow.
    cbn [checksum_loop].
    rewrite (size_t_wrap_small (offset p - pos)) by lia.
    rewrite (size_t_wrap_small (offset p + length p)) by lia.
    rewrite (mem_read_agree buf1 buf2 pos); [|congruence|].
    + destruct (mem_read buf1 pos (offset p - pos)) as [chunk|]; [|done].
      apply IH; [done..|lia|done|].
      intros i Hi0 [Hi Hnc]. apply Hag; [done|]. split; [lia|].
      unfold covered. rewrite Exists_cons.
      intros [Hin|Hin]; [unfold in_patch in Hin; lia|done].
    + intros i Hi Hlt Hlen1. apply Hag; [lia|]. split; [lia|].
      unfold covered. rewrite Exists_cons.
      intros [Hin|Hin]; [unfold in_patch in Hin; lia|].
      apply Exists_exists in Hin as (q & Hq & Hin).
      rewrite Forall_forall in Hlow. specialize (Hlow q Hq).
      unfold in_patch in Hin. simpl in Hlow. lia.
Qed.

Lemma checksum_loop_chunks buf len ps pos ctx :
  Zlen buf = len → len < SIZE_MAX1 → 0 <= pos → chain_ok pos len ps →
  ∃ pos' ctx', checksum_loop buf ps pos ctx = Some (pos', ctx') ∧
    0 <= pos' <= len ∧
    md5_update ctx' (slice buf pos' (len - pos'))
      = foldl md5_update ctx (unpatched_chunks buf len pos ps).
Proof.
  intros Hbuf Hmax. revert pos ctx.
  induction ps as [|p rest IH]; intros pos ctx Hpos Hc.
  - exists pos, ctx. simpl in *. split_and!; [done|lia..|done].
  - destruct Hc as (Hle & Hlen & Hrest). simpl.
    pose proof (chain_ok_pos_le _ _ _ Hrest) as Hend.
    rewrite (size_t_wrap_small (offset p - pos)) by lia.
    rewrite mem_read_Some by lia.
    rewrite (size_t_wrap_small (offset p + length p)) by lia.
    apply IH; [lia|done].
Qed.

Lemma calculateChecksum_chunks buf len ps :
  Zlen buf = len → len < SIZE_MAX1 → chain_ok 0 len ps →
  calculateChecksum buf len ps
    = Some (digest_of_chunks (unpatched_chunks buf len 0 ps)).
Proof.
  intros Hbuf Hmax Hc. unfold calculateChecksum, digest_of_chunks.
  destruct (checksum_loop_chunks buf len ps 0 md5_starts)
    as (pos' & ctx' & -> & Hpos' & Heq); [done..|].
  rewrite size_t_wrap_small by lia. rewrite mem_read_Some by lia.
  by rewrite Heq.
Qed.

Lemma unpatched_chunks_ext buf1 buf2 len ps pos :
  0 <= pos → chain_ok pos len ps →
  agree_on (λ i, pos <= i < len ∧ ¬ covered ps i) buf1 buf2 →
  unpatched_chunks buf1 len pos ps = unpatched_chunks buf2 len pos ps.
Proof.
  revert pos. induction ps as [|p rest IH]; intros pos Hpos Hc Hag; simpl.
  - f_equal. apply slice_ext; [done|]. intros i Hi. apply Hag; [lia|].
    split; [lia|]. unfold covered. rewrite Exists_nil. tauto.
  - destruct Hc as (Hle & Hlen & Hrest).
    pose proof (chain_ok_pos_le _ _ _ Hrest) as Hend.
    pose proof (chain_ok_lower _ _ _ Hrest) as Hlow.
    f_equal.
    + apply slice_ext; [done|]. intros i Hi. apply Hag; [lia|].
      split; [lia|]. unfold covered. rewrite Exists_cons.
      intros [Hin|Hin]; [unfold in_patch in Hin; lia|].
      apply Exists_exists in Hin as (q & Hq & Hin).
      rewrite Forall_forall in Hlow. specialize (Hlow q Hq).
      unfold in_patch in Hin. simpl in Hlow. lia.
    + apply IH; [lia|done|]. intros i Hi0 [Hi Hnc]. apply Hag; [done|].
      split; [lia|]. unfold covered. rewrite Exists_cons.
      intros [Hin|Hin]; [unfold in_patch in Hin; lia|done].
Qed.
End ChecksumProofs.

(** ** Signature matching *)

Lemma memcmp_0_iff (a b : list byte) (n : nat) :
  Datatypes.length a = n → Datatypes.length b = n → memcmp a b n = 0 ↔ a = b.
Proof.
  revert a b. induction n as [|n IH]; intros a b Ha Hb.
  - destruct a, b; try done.
  - destruct a as [|x a], b as [|y b]; try done. simpl.
    injection Ha as Ha. injection Hb as Hb. case_decide as Hxy.
    + subst y. rewrite IH by done. split; [by intros ->|by intros [= ->]].
    + split; [case_decide; done|by intros [= -> _]].
Qed.

Lemma matchingSignatures_true_iff pdbInfo pdbHeader :
  matchingSignatures pdbInfo pdbHeader = true ↔
    Age pdbInfo = age pdbHeader ∧ Signature pdbInfo = sig70 pdbHeader.
Proof.
  unfold matchingSignatures.
  pose proof (memcmp_0_iff (vec_to_list (Signature pdbInfo))
                (vec_to_list (sig70 pdbHeader)) 16
                (length_vec_to_list _) (length_vec_to_list _)) as Hcmp.
  destruct (bool_decide_reflect (Age pdbInfo ≠ age pdbHeader)) as [Hage|Hage];
    simpl.
  - split; [done|]. intros [? _]. done.
  - apply dec_stable in Hage.
    destruct (bool_decide_reflect
      (memcmp (vec_to_list (Signature pdbInfo))
         (vec_to_list (sig70 pdbHeader)) 16 ≠ 0)) as [Hm|Hm].
    + split; [done|]. intros [_ Hs]. exfalso. apply Hm, Hcmp. by rewrite Hs.
    + apply dec_stable in Hm. split; [|done]. intros _. split; [done|].
      apply vec_to_list_inj2. by apply Hcmp.
Qed.

Lemma vinsert_changed {A n} (i : fin n) (x : A) (v : vec A n) :
  x ≠ v !!! i → vinsert i x v ≠ v.
Proof. intros Hx Heq. apply Hx. by rewrite <- Heq, vlookup_insert. Qed.

(** C4: [matchingSignatures] returns [true] exactly when the age of the
    PE match record equals the age of the PDB header and the two 16-byte
    GUIDs are equal byte for byte; starting from a matching pair, changing
    any one byte of either GUID makes it return [false]. *)
Theorem C4_matchingSignatures_exact :
  (∀ pdbInfo pdbHeader,
     matchingSignatures pdbInfo pdbHeader = true ↔
       Age pdbInfo = age pdbHeader ∧
       ∀ i : fin 16, Signature pdbInfo !!! i = sig70 pdbHeader !!! i) ∧
  (∀ pdbInfo pdbHeader (i : fin 16) (b : byte),
     matchingSignatures pdbInfo pdbHeader = true →
     b ≠ Signature pdbInfo !!! i →
     matchingSignatures
       (mkCvInfo (CvSignature pdbInfo) (vinsert i b (Signature pdbInfo))
          (Age pdbInfo)) pdbHeader = false) ∧
  (∀ pdbInfo pdbHeader (i : fin 16) (b : byte),
     matchingSignatures pdbInfo pdbHeader = true →
     b ≠ sig70 pdbHeader !!! i →
     matchingSignatures pdbInfo
       (mkPdbStream70 (version pdbHeader) (pdb_timestamp pdbHeader)
          (age pdbHeader) (vinsert i b (sig70 pdbHeader))) = false).
Proof.
  split_and!.
  - intros pdbInfo pdbHeader. rewrite matchingSignatures_true_iff.
    split; intros [Hage Hsig]; (split; [done|]).
    + intros i. by rewrite Hsig.
    + by apply vec_eq.
  - intros pdbInfo pdbHeader i b Hm Hb.
    apply matchingSignatures_true_iff in Hm as [Hage Hsig].
    apply not_true_is_false. rewrite matchingSignatures_true_iff. simpl.
    intros [_ Hfl]. rewrite <- Hsig in Hfl. by eapply vinsert_changed.
  - intros pdbInfo pdbHeader i b Hm Hb.
    apply matchingSignatures_true_iff in Hm as [Hage Hsig].
    apply not_true_is_false. rewrite matchingSignatures_true_iff. simpl.
    intros [_ Hfl]. rewrite Hsig in Hfl. symmetry in Hfl.
    by eapply vinsert_changed.
Qed.

(** ** Inversion of the result monad *)

Lemma Result_bind_Ok {A B} (m : Result A) (f : A → Result B) (b : B) :
  m ≫= f = Ok b → ∃ a, m = Ok a ∧ f a = Ok b.
Proof. destruct m as [a| |]; [|done..]. intros Hf. by exists a. Qed.

Lemma of_option_Ok {A} (o : option A) (a : A) : of_option o = Ok a → o = Some a.
Proof. destruct o; [|done]. by intros [= ->]. Qed.

(** ** The debug directory loop *)

Lemma read32_Some buf pos :
  0 <= pos → pos + 4 <= Zlen buf → read32 buf pos = Some (le_decode (slice buf pos 4)).
Proof. intros. unfold read32. by rewrite mem_read_Some by lia. Qed.

Lemma entry_succ dir k : entry dir k + sizeof_IMAGE_DEBUG_DIRECTORY = entry dir (k + 1).
Proof. unfold entry, sizeof_IMAGE_DEBUG_DIRECTORY. lia. Qed.

Section DebugLoop.
Context `{PEParser}.

Lemma debug_loop_spec buf dir n : ∀ k cvInfo patches,
  0 <= dir → 0 <= k → entry dir (k + Z.of_nat n) <= Zlen buf →
  debug_loop buf n (entry dir k) cvInfo patches =
    debug_outcome buf dir cvInfo (codeview_entries buf dir k n)
      (patches ++ debug_timestamp_patches buf dir k n).
Proof.
  induction n as [|n IH]; intros k cvInfo patches Hdir Hk Hend.
  - simpl. unfold debug_timestamp_patches, codeview_entries. simpl.
    by rewrite app_nil_r.
  - assert (0 <= entry dir k ∧ entry dir k + 28 <= Zlen buf) as [Hlo Hhi].
    { unfold entry, sizeof_IMAGE_DEBUG_DIRECTORY in *. nia. }
    unfold codeview_entries, debug_timestamp_patches.
    rewrite Nat2Z.inj_succ, seqZ_cons by lia.
    rewrite Z.pred_succ, !filter_cons.
    fold (codeview_entries buf dir (Z.succ k) n).
    fold (debug_timestamp_patches buf dir (Z.succ k) n).
    cbn [debug_loop].
    set (ts := entry_TimeDateStamp buf dir k).
    set (ty := entry_Type buf dir k).
    set (ptr := entry_PointerToRawData buf dir k).
    assert (read32 buf (entry dir k + DebugDirectory_TimeDateStamp) = Some ts)
      as ->.
    { unfold ts, entry_TimeDateStamp, DebugDirectory_TimeDateStamp.
      by rewrite read32_Some by lia. }
    assert (read32 buf (entry dir k + DebugDirectory_Type) = Some ty) as ->.
    { unfold ty, entry_Type, DebugDirectory_Type.
      by rewrite read32_Some by lia. }
    assert (read32 buf (entry dir k + DebugDirectory_PointerToRawData)
            = Some ptr) as ->.
    { unfold ptr, entry_PointerToRawData, DebugDirectory_PointerToRawData.
      by rewrite read32_Some by lia. }
    cbn [of_option mbind Result_bind].
    rewrite entry_succ. replace (k + 1) with (Z.succ k) by lia.
    assert (∀ cv ps, debug_loop buf n (entry dir (Z.succ k)) cv ps =
      debug_outcome buf dir cv (codeview_entries buf dir (Z.succ k) n)
        (ps ++ debug_timestamp_patches buf dir (Z.succ k) n)) as IH'.
    { intros cv ps. apply IH; [done|lia|].
      replace (Z.succ k + Z.of_nat n) with (k + Z.of_nat (S n)) by lia. done. }
    rewrite !IH'.
    assert (∀ b : bool,
      (if b then Patches_add patches
                   (entry dir k + DebugDirectory_TimeDateStamp) 4
                   ptr_timestamp "IMAGE_DEBUG_DIRECTORY.TimeDateStamp"
       else patches) ++ debug_timestamp_patches buf dir (Z.succ k) n
      = patches ++
          (timestamp_patch dir <$>
            (if b
             then k :: filter (λ i, entry_TimeDateStamp buf dir i ≠ 0)
                         (seqZ (Z.succ k) (Z.of_nat n))
             else filter (λ i, entry_TimeDateStamp buf dir i ≠ 0)
                         (seqZ (Z.succ k) (Z.of_nat n))))) as Hps.
    { intros [|]; [|done]. unfold Patches_add. by rewrite <- app_assoc. }
    destruct (decide (ts ≠ 0)) as [Hts|Hts];
      [specialize (Hps true)|specialize (Hps false)]; cbn iota in Hps;
      rewrite Hps; clear Hps;
      (destruct (decide (ty = IMAGE_DEBUG_TYPE_CODEVIEW)) as [Hty|Hty];
       [|done]);
      (destruct cvInfo as [cv|]; cbn [debug_outcome mbind Result_bind];
       [done|]);
      fold ptr;
      (destruct (isValidRef buf ptr); [|done]);
      by destruct (codeview_entries buf dir (Z.succ k) n).
Qed.
End DebugLoop.

(** ** Writing to the image *)

Lemma mem_write_length buf pos src :
  0 <= pos → pos + Zlen src <= Zlen buf →
  Datatypes.length (mem_write buf pos src) = Datatypes.length buf.
Proof.
  unfold Zlen, mem_write. intros Hpos Hfit.
  rewrite !length_app, length_take, length_drop. lia.
Qed.

Lemma mem_write_Zlen buf pos src :
  0 <= pos → pos + Zlen src <= Zlen buf → Zlen (mem_write buf pos src) = Zlen buf.
Proof. intros. unfold Zlen. by rewrite mem_write_length. Qed.

Lemma mem_write_lookup buf pos src (j : nat) :
  0 <= pos → pos + Zlen src <= Zlen buf →
  mem_write buf pos src !! j =
    if decide (pos <= Z.of_nat j < pos + Zlen src)
    then src !! (j - Z.to_nat pos)%nat else buf !! j.
Proof.
  unfold Zlen, mem_write. intros Hpos Hfit.
  destruct (decide (j < Z.to_nat pos)%nat) as [Hlt|Hge].
  - rewrite lookup_app_l by (rewrite length_take; lia).
    rewrite lookup_take_lt by done. rewrite decide_False by lia. done.
  - rewrite lookup_app_r by (rewrite length_take; lia).
    rewrite length_take, Nat.min_l by lia.
    destruct (decide (j - Z.to_nat pos < Datatypes.length src)%nat) as [Hin|Hout].
    + rewrite lookup_app_l by done. rewrite decide_True by lia. done.
    + rewrite lookup_app_r by lia. rewrite lookup_drop.
      rewrite decide_False by lia. f_equal. lia.
Qed.

Lemma mem_write_same buf pos src :
  0 <= pos → pos + Zlen src <= Zlen buf →
  slice buf pos (Zlen src) = src → mem_write buf pos src = buf.
Proof.
  intros Hpos Hfit Hsl. apply list_eq. intros j.
  rewrite mem_write_lookup by done. case_decide as Hj; [|done].
  rewrite <- Hsl at 1. rewrite slice_lookup by done.
  rewrite decide_True by lia. f_equal. lia.
Qed.

Lemma slice_mem_write buf pos src :
  0 <= pos → pos + Zlen src <= Zlen buf →
  slice (mem_write buf pos src) pos (Zlen src) = src.
Proof.
  intros Hpos Hfit. apply list_eq. intros k.
  rewrite slice_lookup by done. case_decide as Hk.
  - rewrite mem_write_lookup by done. rewrite decide_True by lia.
    f_equal. lia.
  - symmetry. apply lookup_ge_None. unfold Zlen in Hk. lia.
Qed.

(** ** Applying the patches *)

Section ApplyProofs.
Context `{PEParser}.

Lemma patch_bytes_Zlen sig p : 0 <= length p → Zlen (patch_bytes sig p) <= length p.
Proof.
  intros Hl. unfold Zlen, patch_bytes. rewrite length_take. lia.
Qed.

Lemma apply_loop_cons sig dry prev p rest w :
  apply_loop sig dry prev (p :: rest) w =
    if decide (prev <= offset p ∧ 0 <= length p ∧
               offset p + length p <= Zlen (image w))
    then apply_loop sig dry (offset p + length p) rest
           (if dry then w
            else set_image (mem_write (image w) (offset p) (patch_bytes sig p)) w)
    else (Throw (internal_error "invalid patch"), w).
Proof.
  cbn [apply_loop]. unfold mbind, M_bind, get_world, modify, throw.
  by case_decide.
Qed.

Lemma apply_loop_dryrun sig ps : ∀ prev w r w',
  apply_loop sig true prev ps w = (r, w') → w' = w.
Proof.
  induction ps as [|p rest IH]; intros prev w r w' Hrun.
  - by injection Hrun as _ <-.
  - rewrite apply_loop_cons in Hrun. case_decide; [|by injection Hrun as _ <-].
    by apply IH in Hrun.
Qed.

Lemma apply_loop_frame sig dry ps : ∀ prev w r w',
  0 <= prev →
  apply_loop sig dry prev ps w = (r, w') →
  Zlen (image w') = Zlen (image w) ∧
  ∀ j, 0 <= j → ¬ covered ps j →
    image w' !! Z.to_nat j = image w !! Z.to_nat j.
Proof.
  induction ps as [|p rest IH]; intros prev w r w' H0 Hrun.
  - by injection Hrun as _ <-.
  - rewrite apply_loop_cons in Hrun.
    case_decide as Hok; [|by injection Hrun as _ <-].
    destruct Hok as (Hprev & Hlen & Hfit).
    apply IH in Hrun as [HZ Hfr]; [|lia].
    pose proof (patch_bytes_Zlen sig p Hlen) as Hb.
    destruct dry; cbn [image set_image] in *.
    + split; [done|]. intros j Hj Hnc. apply Hfr; [done|].
      intros Hc. apply Hnc. by apply Exists_cons_tl.
    + rewrite mem_write_Zlen in HZ by lia. split; [done|].
      intros j Hj Hnc. rewrite Hfr; [|done|].
      * rewrite mem_write_lookup by lia. rewrite decide_False; [done|].
        intros Hin. apply Hnc, Exists_cons_hd. unfold in_patch. lia.
      * intros Hc. apply Hnc. by apply Exists_cons_tl.
Qed.

(** [apply] returns normally exactly on a sorted, non-overlapping list
    inside the image. *)
Lemma apply_loop_Ok_chain sig dry ps : ∀ prev w w',
  apply_loop sig dry prev ps w = (Ok (), w') →
  0 <= prev <= Zlen (image w) → chain_ok prev (Zlen (image w)) ps.
Proof.
  induction ps as [|p rest IH]; intros prev w w' Hrun Hprev; [simpl; lia|].
  rewrite apply_loop_cons in Hrun. case_decide as Hok; [|done].
  destruct Hok as (Hp & Hlen & Hfit). simpl. split_and!; [done..|].
  pose proof (patch_bytes_Zlen sig p Hlen) as Hb.
  apply IH in Hrun.
  - destruct dry; cbn [image set_image] in Hrun; [done|].
    by rewrite mem_write_Zlen in Hrun by lia.
  - destruct dry; cbn [image set_image]; [lia|].
    rewrite mem_write_Zlen by lia. lia.
Qed.

(** Applying patches whose bytes the image already holds changes
    nothing. *)
Lemma apply_loop_fixpoint sig dry ps : ∀ prev w,
  chain_ok prev (Zlen (image w)) ps →
  Forall (λ p, Zlen (patch_bytes sig p) = length p ∧
               slice (image w) (offset p) (length p) = patch_bytes sig p) ps →
  0 <= prev →
  apply_loop sig dry prev ps w = (Ok (), w).
Proof.
  induction ps as [|p rest IH]; intros prev w Hc Hall Hprev; [done|].
  destruct Hc as (Hp & Hlen & Hrest).
  apply Forall_cons in Hall as [[Hbl Hsl] Hall].
  pose proof (chain_ok_pos_le _ _ _ Hrest) as Hend.
  rewrite apply_loop_cons, decide_True by lia.
  assert (mem_write (image w) (offset p) (patch_bytes sig p) = image w) as Hsame.
  { apply mem_write_same; [lia|lia|]. by rewrite Hbl. }
  assert ((if dry then w
           else set_image (mem_write (image w) (offset p) (patch_bytes sig p)) w)
          = w) as ->.
  { destruct dry; [done|]. rewrite Hsame. by destruct w. }
  apply IH; [done|done|lia].
Qed.
End ApplyProofs.

(** ** Sorting the patches *)

Lemma insert_sorted_perm p ps : insert_sorted p ps ≡ₚ p :: ps.
Proof.
  induction ps as [|q rest IH]; [done|]. simpl. case_decide; [done|].
  rewrite IH. apply Permutation_swap.
Qed.

Lemma Patches_sort_perm ps : Patches_sort ps ≡ₚ ps.
Proof.
  induction ps as [|p rest IH]; [done|]. unfold Patches_sort in *. simpl.
  by rewrite insert_sorted_perm, IH.
Qed.

Lemma insert_sorted_sorted p ps :
  StronglySorted (λ a b, offset a <= offset b) ps →
  StronglySorted (λ a b, offset a <= offset b) (insert_sorted p ps).
Proof.
  induction 1 as [|q rest Hrest IH Hq]; simpl.
  - repeat constructor.
  - case_decide as Hle.
    + constructor; [by constructor|]. constructor; [done|].
      eapply Forall_impl; [exact Hq|]. simpl. intros r Hr. lia.
    + constructor; [done|]. rewrite insert_sorted_perm.
      constructor; [lia|done].
Qed.

Lemma Patches_sort_sorted ps :
  StronglySorted (λ a b, offset a <= offset b) (Patches_sort ps).
Proof.
  induction ps as [|p rest IH]; [constructor|].
  unfold Patches_sort in *. simpl. by apply insert_sorted_sorted.
Qed.

Lemma covered_perm ps ps' j : ps ≡ₚ ps' → covered ps j ↔ covered ps' j.
Proof.
  intros Hp. unfold covered. rewrite !Exists_exists.
  by setoid_rewrite Hp.
Qed.

(** ** Patches registered by the debug directory loop *)

Lemma timestamp_patch_inj dir i j : timestamp_patch dir i = timestamp_patch dir j → i = j.
Proof.
  unfold timestamp_patch, entry, sizeof_IMAGE_DEBUG_DIRECTORY.
  intros [= Heq]. lia.
Qed.

Lemma elem_of_debug_timestamp_patches buf dir k n p :
  p ∈ debug_timestamp_patches buf dir k n ↔
    ∃ i, p = timestamp_patch dir i ∧ k <= i < k + Z.of_nat n ∧
         entry_TimeDateStamp buf dir i ≠ 0.
Proof.
  unfold debug_timestamp_patches. rewrite list_elem_of_fmap.
  split.
  - intros (i & -> & Hi). apply list_elem_of_filter in Hi as [Hnz Hi].
    apply elem_of_seqZ in Hi. by exists i.
  - intros (i & -> & Hi & Hnz). exists i. split; [done|].
    apply list_elem_of_filter. split; [done|]. by apply elem_of_seqZ.
Qed.

Section DebugPatches.
Context `{PEParser}.

Lemma debug_loop_Ok buf dir n : ∀ k cvInfo patches cvInfo' patches',
  debug_loop buf n (entry dir k) cvInfo patches = Ok (cvInfo', patches') →
  patches' = patches ++ debug_timestamp_patches buf dir k n ∧
  ∀ i, k <= i < k + Z.of_nat n →
    read32 buf (entry dir i + DebugDirectory_TimeDateStamp)
      = Some (entry_TimeDateStamp buf dir i).
Proof.
  induction n as [|n IH]; intros k cvInfo patches cvInfo' patches' Hrun.
  - injection Hrun as <- <-. unfold debug_timestamp_patches. simpl.
    rewrite app_nil_r. split; [done|]. intros i Hi. lia.
  - cbn [debug_loop] in Hrun.
    apply Result_bind_Ok in Hrun as (ts & Hts & Hrun).
    apply of_option_Ok in Hts.
    apply Result_bind_Ok in Hrun as (ty & Hty & Hrun).
    assert (entry_TimeDateStamp buf dir k = ts) as Hek.
    { unfold entry_TimeDateStamp. by rewrite Hts. }
    assert (∃ cv, debug_loop buf n (entry dir (Z.succ k)) cv
              (if decide (ts ≠ 0)
               then Patches_add patches
                      (entry dir k + DebugDirectory_TimeDateStamp) 4
                      ptr_timestamp "IMAGE_DEBUG_DIRECTORY.TimeDateStamp"
               else patches) = Ok (cvInfo', patches')) as [cv Hrec].
    { rewrite entry_succ in Hrun. replace (k + 1) with (Z.succ k) in Hrun by lia.
      case_decide.
      - destruct cvInfo; [done|].
        apply Result_bind_Ok in Hrun as (ptr & _ & Hrun).
        destruct (isValidRef buf ptr); [|done]. by eexists.
      - by eexists. }
    apply IH in Hrec as [-> Hreads].
    unfold debug_timestamp_patches at 2.
    rewrite Nat2Z.inj_succ, seqZ_cons, Z.pred_succ, filter_cons by lia.
    rewrite Hek. split.
    + clear Hrun. destruct (decide (ts ≠ 0)); [|done].
      unfold Patches_add. by rewrite <- app_assoc.
    + intros i Hi. destruct (decide (i = k)) as [->|Hne].
      * by rewrite Hek.
      * apply Hreads. lia.
Qed.

Lemma patchDebugDataDirectories_Ok buf patches T opt dir count patches' :
  getDebugDataDirs buf T opt = Ok (dir, count) →
  patchDebugDataDirectories buf patches T opt = Ok patches' →
  ∃ cvInfo,
    debug_loop buf (Z.to_nat count) dir None patches
      = Ok (cvInfo, patches ++ debug_timestamp_patches buf dir 0 (Z.to_nat count)) ∧
    patches' = patches ++ debug_timestamp_patches buf dir 0 (Z.to_nat count) ++
      match cvInfo with
      | Some cv =>
          [mkPatch (cv + CvInfo_Signature) 16 ptr_pdbSignature "PDB Signature";
           mkPatch (cv + CvInfo_Age) 4 ptr_pdbAge "PDB Age"]
      | None => []
      end ∧
    match cvInfo with
    | Some cv => read32 buf (cv + CvInfo_CvSignature) = Some CV_INFO_SIGNATURE_PDB70
    | None => True
    end.
Proof.
  intros Hdirs Hrun. unfold patchDebugDataDirectories in Hrun.
  rewrite Hdirs in Hrun. cbn [mbind Result_bind] in Hrun.
  apply Result_bind_Ok in Hrun as ([cvInfo ps] & Hloop & Hrun).
  assert (dir = entry dir 0) as Hd by (unfold entry; lia).
  rewrite Hd in Hloop at 1.
  pose proof Hloop as Hloop'.
  apply debug_loop_Ok in Hloop' as [-> _].
  exists cvInfo. rewrite <- Hd in Hloop. split; [done|].
  destruct cvInfo as [cv|].
  - apply Result_bind_Ok in Hrun as (sig & Hsig & Hrun).
    apply of_option_Ok in Hsig. case_decide as Hne; [done|].
    subst sig. injection Hrun as <-.
    unfold Patches_add. rewrite <- !app_assoc. done.
  - injection Hrun as <-. by rewrite app_nil_r.
Qed.
End DebugPatches.

(** C10, as the code has it: when [patchDebugDataDirectories] returns,
    the patches it added contain the timestamp patch of debug directory
    entry [i] exactly when the [TimeDateStamp] field of that entry is not
    zero.  For an entry whose field holds zero, [apply] leaves the four
    bytes of the field as they are provided that no patch registered for
    something else, such as the PDB signature of a CodeView record laid
    over the debug directory, covers them. *)
Theorem C10_debug_timestamp_patch_iff_nonzero `{PEParser}
    (buf : list byte) (patches : list Patch) (T : OptHeader)
    (opt dir count : Z) (patches' : list Patch) :
  getDebugDataDirs buf T opt = Ok (dir, count) →
  patchDebugDataDirectories buf patches T opt = Ok patches' →
  ∃ added, patches' = patches ++ added ∧
    ∀ i, 0 <= i < count →
      let field := entry dir i + DebugDirectory_TimeDateStamp in
      ∃ ts, read32 buf field = Some ts ∧
        (timestamp_patch dir i ∈ added ↔ ts ≠ 0) ∧
        (ts = 0 →
           ∀ sig dryRun w r w',
             image w = buf →
             (∀ p j, p ∈ patches' →
                p ∈ patches ∨ name p ≠ "IMAGE_DEBUG_DIRECTORY.TimeDateStamp" →
                field <= j < field + 4 → ¬ in_patch j p) →
             Patches_apply sig (Patches_sort patches') dryRun w = (r, w') →
             slice (image w') field 4 = slice buf field 4).
Proof.
  intros Hdirs Hrun.
  destruct (patchDebugDataDirectories_Ok _ _ _ _ _ _ _ Hdirs Hrun)
    as (cvInfo & Hloop & Hps & _).
  assert (dir = entry dir 0) as Hd by (unfold entry; lia).
  rewrite Hd in Hloop at 1. apply debug_loop_Ok in Hloop as [_ Hreads].
  set (cvps := match cvInfo with
               | Some cv =>
                   [mkPatch (cv + CvInfo_Signature) 16 ptr_pdbSignature "PDB Signature";
                    mkPatch (cv + CvInfo_Age) 4 ptr_pdbAge "PDB Age"]
               | None => []
               end) in *.
  assert (∀ p, p ∈ cvps → name p ≠ "IMAGE_DEBUG_DIRECTORY.TimeDateStamp") as Hcv.
  { intros p Hp. unfold cvps in Hp. destruct cvInfo; [|by apply elem_of_nil in Hp].
    apply elem_of_cons in Hp as [->|Hp]; [done|].
    apply list_elem_of_singleton in Hp as ->. done. }
  exists (debug_timestamp_patches buf dir 0 (Z.to_nat count) ++ cvps).
  split; [done|]. intros i Hi field.
  exists (entry_TimeDateStamp buf dir i).
  split; [apply Hreads; lia|]. split.
  - rewrite elem_of_app, elem_of_debug_timestamp_patches. split.
    + intros [(i' & Heq & _ & Hnz)|Hin].
      * apply timestamp_patch_inj in Heq. by subst i'.
      * by apply Hcv in Hin.
    + intros Hnz. left. exists i. split; [done|]. split; [lia|done].
  - intros Hz sig dryRun w r w' Hw Hother Happly.
    unfold Patches_apply in Happly.
    apply apply_loop_frame in Happly as [_ Hfr]; [|done].
    assert (0 <= field) as Hf0.
    { pose proof (Hreads i ltac:(lia)) as Hr. unfold read32, mem_read in Hr.
      case_decide; [unfold field; lia|done]. }
    rewrite <- Hw. apply slice_ext; [done|]. intros j Hj.
    apply Hfr; [lia|]. rewrite (covered_perm _ _ _ (Patches_sort_perm _)).
    unfold covered. rewrite Exists_exists. intros (p & Hp & Hin).
    destruct (decide (name p = "IMAGE_DEBUG_DIRECTORY.TimeDateStamp")) as [Hn|Hn].
    + pose proof Hp as Hp'. rewrite Hps in Hp'.
      apply elem_of_app in Hp' as [Hp'|Hp'].
      { eapply Hother; [done|by left|done|done]. }
      apply elem_of_app in Hp' as [Hp'|Hp']; [|by apply Hcv in Hp'].
      apply elem_of_debug_timestamp_patches in Hp' as (i' & -> & Hi' & Hnz).
      assert (i' ≠ i) as Hne by (intros ->; done).
      unfold in_patch, timestamp_patch, entry, sizeof_IMAGE_DEBUG_DIRECTORY in Hin.
      simpl in Hin. unfold field, entry, sizeof_IMAGE_DEBUG_DIRECTORY in Hj. lia.
    + eapply Hother; [done|by right|done|done].
Qed.

(** ** More than one CodeView entry *)

(** C6, as the code has it: on a debug directory array that lies inside
    the image and has more than one entry of CodeView type,
    [patchDebugDataDirectories] throws [InvalidImage]; the message is
    "found multiple CodeView debug entries" when the record of the first
    CodeView entry is a valid reference and "invalid CodeView debug entry
    location" when it is not.  With at most one CodeView entry the
    multiple-entries exception is not thrown. *)
Theorem C6_multiple_codeview_rejected `{PEParser}
    (buf : list byte) (patches : list Patch) (T : OptHeader) (opt dir count : Z) :
  getDebugDataDirs buf T opt = Ok (dir, count) →
  0 <= dir → 0 <= count → entry dir count <= Zlen buf →
  let cvs := codeview_entries buf dir 0 (Z.to_nat count) in
  (1 < Datatypes.length cvs →
     ∃ first, head cvs = Some first ∧
       patchDebugDataDirectories buf patches T opt =
         Throw (InvalidImage
                  (if isValidRef buf (entry_PointerToRawData buf dir first)
                   then "found multiple CodeView debug entries"
                   else "invalid CodeView debug entry location")))%nat ∧
  (Datatypes.length cvs <= 1 →
     patchDebugDataDirectories buf patches T opt
       ≠ Throw (InvalidImage "found multiple CodeView debug entries"))%nat.
Proof.
  intros Hdirs Hdir Hcount Hend cvs.
  assert (debug_loop buf (Z.to_nat count) dir None patches =
          debug_outcome buf dir None cvs
            (patches ++ debug_timestamp_patches buf dir 0 (Z.to_nat count))) as Hloop.
  { assert (dir = entry dir 0) as Hd by (unfold entry; lia).
    rewrite Hd at 1. apply debug_loop_spec; [done|lia|].
    rewrite Z2Nat.id by lia. done. }
  unfold patchDebugDataDirectories. rewrite Hdirs.
  cbn [mbind Result_bind]. rewrite Hloop. clear Hloop.
  split.
  - intros Hlen. destruct cvs as [|first [|second rest]]; simpl in Hlen; [lia..|].
    exists first. split; [done|]. cbn [debug_outcome].
    by destruct (isValidRef buf _).
  - intros Hlen. destruct cvs as [|first [|second rest]]; simpl in Hlen; [| |lia].
    + done.
    + cbn [debug_outcome]. destruct (isValidRef buf _); [|done].
      cbn [mbind Result_bind].
      destruct (read32 buf _) as [sig|]; [|done].
      cbn [of_option mbind Result_bind]. by case_decide.
Qed.

(** C6, as the specification states it, fails: [two_codeview_image] has two
    CodeView entries and is rejected for the location of the first one,
    not for their number. *)
Lemma C6_counterexample :
  codeview_entries two_codeview_image 384 0 2 = [0; 1] ∧
  getDebugDataDirs (PEParser := FlatPE.parser) two_codeview_image
    IMAGE_OPTIONAL_HEADER32 88 = Ok (384, 2) ∧
  patchDebugDataDirectories (H := FlatPE.parser) two_codeview_image []
    IMAGE_OPTIONAL_HEADER32 88
    = Throw (InvalidImage "invalid CodeView debug entry location") ∧
  patchDebugDataDirectories (H := FlatPE.parser) two_codeview_image []
    IMAGE_OPTIONAL_HEADER32 88
    ≠ Throw (InvalidImage "multiple CodeView debug entries").
Proof. vm_compute. split_and!; done. Qed.

(** ** What the analysis registers *)

Lemma registered_timestamp addr label :
  label ∈ "OptionalHeader.CheckSum" :: timestamp_labels →
  registered (mkPatch addr 4 ptr_timestamp label).
Proof. intros Hl. left. done. Qed.

Lemma Forall_registered_add ps addr size d label :
  Forall registered ps → registered (mkPatch addr size d label) →
  Forall registered (Patches_add ps addr size d label).
Proof. intros Hps Hp. apply Forall_app. split; [done|]. by constructor. Qed.

Section Registered.
Context `{PEParser}.

Lemma patchDebugDataDirectories_dirs buf patches T opt patches' :
  patchDebugDataDirectories buf patches T opt = Ok patches' →
  ∃ dir count, getDebugDataDirs buf T opt = Ok (dir, count).
Proof.
  unfold patchDebugDataDirectories. intros Hrun.
  apply Result_bind_Ok in Hrun as ([dir count] & Hdirs & _). eauto.
Qed.

Lemma patchDebugDataDirectories_registered buf patches T opt patches' :
  Forall registered patches →
  patchDebugDataDirectories buf patches T opt = Ok patches' →
  Forall registered patches'.
Proof.
  intros Hps Hrun.
  destruct (patchDebugDataDirectories_dirs _ _ _ _ _ Hrun) as (dir & count & Hdirs).
  destruct (patchDebugDataDirectories_Ok _ _ _ _ _ _ _ Hdirs Hrun)
    as (cvInfo & _ & -> & _).
  rewrite !Forall_app. split_and!; [done| |].
  - apply Forall_forall. intros p Hp.
    apply elem_of_debug_timestamp_patches in Hp as (i & -> & _).
    apply registered_timestamp. unfold timestamp_labels. set_solver.
  - destruct cvInfo; [|constructor].
    apply Forall_cons. split; [by right; left|].
    apply Forall_cons. split; [by right; right|constructor].
Qed.

Lemma patchOptionalHeader_registered buf patches T opt patches' :
  Forall registered patches →
  patchOptionalHeader buf patches T opt = Ok patches' →
  Forall registered patches'.
Proof.
  intros Hps Hrun. unfold patchOptionalHeader in Hrun.
  apply Result_bind_Ok in Hrun as (ex & _ & Hrun).
  apply Result_bind_Ok in Hrun as (rs & _ & Hrun).
  eapply patchDebugDataDirectories_registered; [|done].
  assert (Forall registered
            (Patches_add patches (opt + OptionalHeader_CheckSum) 4
               ptr_timestamp "OptionalHeader.CheckSum")) as H1.
  { apply Forall_registered_add; [done|].
    apply registered_timestamp. set_solver. }
  assert (∀ ps, Forall registered ps → Forall registered
            match ex with
            | Some dir =>
                Patches_add ps (dir + ExportDirectory_TimeDateStamp) 4
                  ptr_timestamp "IMAGE_EXPORT_DIRECTORY.TimeDateStamp"
            | None => ps
            end) as H2.
  { intros ps Hf. destruct ex; [|done].
    apply Forall_registered_add; [done|].
    apply registered_timestamp. unfold timestamp_labels. set_solver. }
  destruct rs; [|by apply H2].
  apply Forall_registered_add; [by apply H2|].
  apply registered_timestamp. unfold timestamp_labels. set_solver.
Qed.

Lemma collectPatches_registered buf len pdbInfo patches :
  collectPatches buf len = Ok (pdbInfo, patches) → Forall registered patches.
Proof.
  intros Hrun. unfold collectPatches in Hrun.
  apply Result_bind_Ok in Hrun as (fh & _ & Hrun).
  assert (Forall registered
            (Patches_add [] (fh + FileHeader_TimeDateStamp) 4 ptr_timestamp
               "IMAGE_FILE_HEADER.TimeDateStamp")) as H0.
  { apply Forall_registered_add; [constructor|].
    apply registered_timestamp. unfold timestamp_labels. set_solver. }
  repeat case_decide; [| |done].
  - apply Result_bind_Ok in Hrun as (opt & _ & Hrun).
    apply Result_bind_Ok in Hrun as (pi & _ & Hrun).
    apply Result_bind_Ok in Hrun as (ps & Hps & Hrun).
    injection Hrun as _ <-. by eapply patchOptionalHeader_registered.
  - apply Result_bind_Ok in Hrun as (opt & _ & Hrun).
    apply Result_bind_Ok in Hrun as (pi & _ & Hrun).
    apply Result_bind_Ok in Hrun as (ps & Hps & Hrun).
    injection Hrun as _ <-. by eapply patchOptionalHeader_registered.
Qed.
End Registered.

Lemma le_encode_length n z : Datatypes.length (le_encode n z) = n.
Proof. revert z. induction n as [|n IH]; intros z; [done|]. simpl. by rewrite IH. Qed.

(** C8: every patch the pipeline registers under a timestamp label points
    at the one member [pe.timestamp]; the four bytes it writes are the
    little-endian encoding of 1262304000, which is Jan 1, 2010, 0:00:00 GMT
    in seconds since the Unix epoch and is not zero.  So no timestamp patch
    writes zero and no two of them write different values. *)
Theorem C8_timestamp_patches_write_fixed_epoch `{PEParser}
    (buf : list byte) (length' : Z) (pdbInfo : option Z) (patches : list Patch) :
  collectPatches buf length' = Ok (pdbInfo, patches) →
  ∀ p, p ∈ patches → name p ∈ timestamp_labels →
    data p = ptr_timestamp ∧
    (∀ pdbSignature,
       patch_bytes pdbSignature p = le_encode 4 timestamp ∧
       le_decode (patch_bytes pdbSignature p) = timestamp) ∧
    timestamp = 86400 * days_from_civil 2010 1 1 ∧
    timestamp ≠ 0.
Proof.
  intros Hrun p Hp Hname.
  apply collectPatches_registered in Hrun.
  rewrite Forall_forall in Hrun. specialize (Hrun p Hp).
  destruct Hrun as [(Hd & Hl & _)|[(_ & _ & Hn)|(_ & _ & Hn)]].
  - split; [done|]. split; [|done]. intros sig.
    unfold patch_bytes. rewrite Hd, Hl. done.
  - rewrite Hn in Hname. exfalso. revert Hname.
    apply (bool_decide_unpack (¬ _ ∈ _)). by vm_compute.
  - rewrite Hn in Hname. exfalso. revert Hname.
    apply (bool_decide_unpack (¬ _ ∈ _)). by vm_compute.
Qed.

(** ** The PDB rewrite *)

Lemma append_length s1 s2 :
  String.length (s1 +:+ s2) = (String.length s1 + String.length s2)%nat.
Proof. induction s1 as [|a s1 IH]; [done|]. simpl. by rewrite IH. Qed.

Lemma getTempPdbPath_ne pdbPath : getTempPdbPath pdbPath ≠ pdbPath.
Proof.
  intros Heq. apply (f_equal String.length) in Heq.
  unfold getTempPdbPath in Heq. rewrite append_length in Heq. simpl in Heq. lia.
Qed.

Lemma opened_lookup_pdb pdbPath w : files (opened pdbPath w) !! pdbPath = files w !! pdbPath.
Proof. unfold opened. simpl. apply lookup_insert_ne, getTempPdbPath_ne. Qed.

Lemma opened_lookup_tmp pdbPath w :
  files (opened pdbPath w) !! getTempPdbPath pdbPath = Some [].
Proof. unfold opened. simpl. apply lookup_insert_eq. Qed.

(** Runs [patchPDB] up to the point where the content of the PDB has been
    read through the open handle. *)
Ltac patchPDB_open Hfile Htmp :=
  unfold patchPDB;
  unfold mbind, M_bind, openFile, get_world, lift, throw, modify, mret, M_ret;
  rewrite Hfile; rewrite (decide_False _ _ Htmp);
  match goal with
  | |- context [set_files (<[getTempPdbPath ?p := []]> (files ?w)) ?w] =>
      fold (opened p w); rewrite (opened_lookup_pdb p w), Hfile
  end;
  cbn [of_option].

Section PatchPDBFrame.
Context `{Md5} `{PEParser} `{Msf}.

(** Whatever happens, [patchPDB] touches no file but the temporary one,
    and never the image. *)
Lemma patchPDB_frame WIN32 pdbPath pdbInfo signature dryrun w r w' :
  patchPDB WIN32 pdbPath pdbInfo signature dryrun w = (r, w') →
  image w' = image w ∧
  unwritable w' = unwritable w ∧ undeletable w' = undeletable w ∧
  ∀ q, q ≠ getTempPdbPath pdbPath → files w' !! q = files w !! q.
Proof.
  unfold patchPDB, mbind, M_bind, openFile, remove, get_world, lift, throw,
    modify, mret, M_ret.
  intros Hrun.
  repeat (case_match; simplify_eq); cbn [image files unwritable undeletable set_files set_errno print];
    (split_and!; [done..|]); intros q Hq;
    rewrite ?lookup_delete_ne, ?lookup_insert_ne by done; done.
Qed.
End PatchPDBFrame.

Section PatchPDB.
Context `{Md5} `{PEParser} `{Msf}.

(** C7: once the PDB and its temporary file are open and the container
    has loaded, a container without header stream, a header stream
    shorter than [sizeof(PdbStream70)] and a header whose version is below
    [PdbVersion::vc70] each make [patchPDB] throw [InvalidPdb]; the
    temporary file is still empty and the PDB is as it was, so nothing
    has been written out. *)
Theorem C7_invalid_pdb_header_rejected
    (WIN32 : bool) (pdbPath : string) (pdbInfo : option Z)
    (signature : vec byte 16) (dryrun : bool) (w : World)
    (content : list byte) (msf0 : MsfFile) :
  files w !! pdbPath = Some content →
  getTempPdbPath pdbPath ∉ unwritable w →
  MsfFile_load content = Ok msf0 →
  let msf := replaceStream msf0 PdbStreamType_streamTable None in
  let run := patchPDB WIN32 pdbPath pdbInfo signature dryrun w in
  (getStream msf PdbStreamType_header = None →
     run = (Throw (InvalidPdb "missing PDB header stream"), opened pdbPath w)) ∧
  (∀ s, getStream msf PdbStreamType_header = Some s →
     stream_length s < sizeof_PdbStream70 →
     run = (Throw (InvalidPdb "missing PDB 7.0 header"), opened pdbPath w)) ∧
  (∀ s, getStream msf PdbStreamType_header = Some s →
     sizeof_PdbStream70 <= stream_length s →
     Zlen (stream_read s sizeof_PdbStream70) = sizeof_PdbStream70 →
     version (decode_PdbStream70 (stream_read s sizeof_PdbStream70))
       < PdbVersion_vc70 →
     run = (Throw (InvalidPdb "unsupported PDB implementation version"),
            opened pdbPath w)) ∧
  files (opened pdbPath w) !! pdbPath = Some content ∧
  files (opened pdbPath w) !! getTempPdbPath pdbPath = Some [] ∧
  image (opened pdbPath w) = image w.
Proof.
  intros Hfile Htmp Hload msf run. split_and!.
  - intros Hs. unfold run. patchPDB_open Hfile Htmp.
    rewrite Hload. fold msf. by rewrite Hs.
  - intros s Hs Hlen. unfold run. patchPDB_open Hfile Htmp.
    rewrite Hload. fold msf. rewrite Hs. by rewrite decide_True.
  - intros s Hs Hlen Hread Hver. unfold run. patchPDB_open Hfile Htmp.
    rewrite Hload. fold msf. rewrite Hs.
    rewrite decide_False by lia. rewrite decide_False by (intros Hne; by apply Hne).
    by rewrite decide_True.
  - by rewrite opened_lookup_pdb.
  - apply opened_lookup_tmp.
  - done.
Qed.

(** C3: once the header of the PDB has been read and accepted, a null
    [pdbInfo], or a match record for which [matchingSignatures] is false,
    makes [patchPDB] throw [InvalidPdb] with the message "PE and PDB
    signatures do not match"; the temporary file is still empty and the
    PDB is as it was, so no rewrite has been committed.  Whatever the
    files, with a null [pdbInfo] the function never returns normally and
    never writes a container. *)
Theorem C3_signature_mismatch_rejected
    (WIN32 : bool) (pdbPath : string) (signature : vec byte 16)
    (dryrun : bool) (w : World) :
  (∀ pdbInfo content msf pdbHeader,
     files w !! pdbPath = Some content →
     getTempPdbPath pdbPath ∉ unwritable w →
     header_accepted content msf pdbHeader →
     (pdbInfo = None ∨
      ∃ p cv, pdbInfo = Some p ∧ load_CV_INFO_PDB70 (image w) p = Some cv ∧
              matchingSignatures cv pdbHeader = false) →
     patchPDB WIN32 pdbPath pdbInfo signature dryrun w
       = (Throw (InvalidPdb "PE and PDB signatures do not match"),
          opened pdbPath w) ∧
     files (opened pdbPath w) !! pdbPath = Some content ∧
     files (opened pdbPath w) !! getTempPdbPath pdbPath = Some [] ∧
     image (opened pdbPath w) = image w) ∧
  (∀ r w',
     patchPDB WIN32 pdbPath None signature dryrun w = (r, w') →
     r ≠ Ok () ∧ image w' = image w ∧
     files w' !! pdbPath = files w !! pdbPath ∧
     (files w' !! getTempPdbPath pdbPath = files w !! getTempPdbPath pdbPath ∨
      files w' !! getTempPdbPath pdbPath = Some [])).
Proof.
  split.
  - intros pdbInfo content msf pdbHeader Hfile Htmp
      (msf0 & s & Hload & -> & Hs & Hlen & Hread & -> & Hver) Hmis.
    split_and!; [|by rewrite opened_lookup_pdb|apply opened_lookup_tmp|done].
    patchPDB_open Hfile Htmp. rewrite Hload, Hs.
    rewrite decide_False by lia.
    rewrite decide_False by (intros Hne; by apply Hne).
    rewrite decide_False by lia.
    destruct Hmis as [->|(p & cv & -> & Hcv & Hm)]; [done|].
    cbn [image opened set_files]. rewrite Hcv. cbn [of_option]. by rewrite Hm.
  - intros r w' Hrun.
    pose proof (patchPDB_frame _ _ _ _ _ _ _ _ Hrun) as (Himg & _ & _ & Hf).
    split_and!; [|done|apply Hf; by intros Heq; apply (getTempPdbPath_ne pdbPath)|].
    + revert Hrun.
      unfold patchPDB, mbind, M_bind, openFile, remove, get_world, lift,
        throw, modify, mret, M_ret.
      intros Hrun. by repeat (case_match; simplify_eq).
    + revert Hrun.
      unfold patchPDB, mbind, M_bind, openFile, remove, get_world, lift,
        throw, modify, mret, M_ret.
      intros Hrun.
      repeat (case_match; simplify_eq);
        cbn [image files unwritable undeletable set_files set_errno print];
        first [by left | right; apply lookup_insert_eq].
Qed.
End PatchPDB.

(** ** The pipeline *)

Section PipelineProofs.
Context `{Md5} `{PEParser} `{Msf}.

(** [patchImageImpl], stage by stage. *)
Lemma patchImageImpl_stages WIN32 imagePath pdbPath dryrun w :
  patchImageImpl WIN32 imagePath pdbPath dryrun w =
    match collectPatches (image w) (Zlen (image w)) with
    | Ok (pdbInfo, patches) =>
        match calculateChecksum (image w) (Zlen (image w))
                (Patches_sort patches) with
        | Some pdbSignature =>
            match pdbPath with
            | Some p =>
                match patchPDB WIN32 p pdbInfo pdbSignature dryrun w with
                | (Ok _, w1) =>
                    Patches_apply pdbSignature (Patches_sort patches) dryrun w1
                | (Throw e, w1) => (Throw e, w1)
                | (Undefined, w1) => (Undefined, w1)
                end
            | None => Patches_apply pdbSignature (Patches_sort patches) dryrun w
            end
        | None => (Undefined, w)
        end
    | Throw e => (Throw e, w)
    | Undefined => (Undefined, w)
    end.
Proof.
  unfold patchImageImpl, MemMap.
  unfold mbind at 1. unfold M_bind at 1.
  unfold mbind at 1. unfold M_bind at 1. unfold lift at 1.
  destruct (collectPatches (image w) (Zlen (image w))) as [[pdbInfo patches]| |];
    [|done..].
  unfold mbind at 1. unfold M_bind at 1. unfold lift at 1.
  destruct (calculateChecksum _ _ _) as [sig|]; [|done]. cbn [of_option].
  unfold mbind at 1. unfold M_bind at 1.
  destruct pdbPath as [p|]; [|done].
  by destruct (patchPDB WIN32 p pdbInfo sig dryrun w) as [[[]| |] w1].
Qed.

(** C2: a run of [patchImageImpl] either leaves the image as it was and
    does not return normally, or every stage before [patches.apply] has
    returned normally without touching the image and the outcome of the
    run is the outcome of [patches.apply].  In particular, when a PDB
    path is given and [patchPDB] throws, the run throws the same
    exception and the image is as it was. *)
Theorem C2_image_mutated_only_by_apply
    (WIN32 : bool) (imagePath : string) (pdbPath : option string)
    (dryrun : bool) (w : World) (r : Result ()) (w' : World) :
  patchImageImpl WIN32 imagePath pdbPath dryrun w = (r, w') →
  ((image w' = image w ∧ r ≠ Ok ()) ∨
   ∃ pdbInfo patches pdbSignature w1,
     collectPatches (image w) (Zlen (image w)) = Ok (pdbInfo, patches) ∧
     calculateChecksum (image w) (Zlen (image w)) (Patches_sort patches)
       = Some pdbSignature ∧
     match pdbPath with
     | Some p => patchPDB WIN32 p pdbInfo pdbSignature dryrun w = (Ok (), w1)
     | None => w1 = w
     end ∧
     image w1 = image w ∧
     Patches_apply pdbSignature (Patches_sort patches) dryrun w1 = (r, w')) ∧
  (∀ p pdbInfo patches pdbSignature e w1,
     pdbPath = Some p →
     collectPatches (image w) (Zlen (image w)) = Ok (pdbInfo, patches) →
     calculateChecksum (image w) (Zlen (image w)) (Patches_sort patches)
       = Some pdbSignature →
     patchPDB WIN32 p pdbInfo pdbSignature dryrun w = (Throw e, w1) →
     r = Throw e ∧ w' = w1 ∧ image w' = image w).
Proof.
  rewrite patchImageImpl_stages. intros Hrun. split.
  - destruct (collectPatches _ _) as [[pdbInfo patches]|e|] eqn:Hcol;
      [|left; by simplify_eq..].
    destruct (calculateChecksum _ _ _) as [sig|] eqn:Hsum;
      [|left; by simplify_eq].
    destruct pdbPath as [p|].
    + destruct (patchPDB WIN32 p pdbInfo sig dryrun w) as [[[]|e|] w1] eqn:Hpdb.
      * right. exists pdbInfo, patches, sig, w1.
        pose proof (patchPDB_frame _ _ _ _ _ _ _ _ Hpdb) as (Himg & _). done.
      * left. apply patchPDB_frame in Hpdb as (Himg & _). by simplify_eq.
      * left. apply patchPDB_frame in Hpdb as (Himg & _). by simplify_eq.
    + right. by exists pdbInfo, patches, sig, w.
  - intros p pdbInfo patches sig e w1 -> Hcol Hsum Hpdb.
    rewrite Hcol, Hsum, Hpdb in Hrun. simplify_eq.
    apply patchPDB_frame in Hpdb as (Himg & _). done.
Qed.
End PipelineProofs.

(** ** The checksum exclusion law *)

(** C1: for every buffer, length and sorted, non-overlapping list of
    patches (ranges of [size_t] offsets), [calculateChecksum] has the same
    outcome on two buffers of that length that agree on every byte outside
    the patch ranges; when the patches lie inside the buffer the outcome
    is a digest, that of the gaps before the patches followed by the tail
    after the last patch. *)
Theorem C1_checksum_ignores_patched_bytes `{Md5}
    (buf1 buf2 : list byte) (length' : Z) (patches : list Patch) :
  Zlen buf1 = length' → Zlen buf2 = length' → length' < SIZE_MAX1 →
  sorted_disjoint patches → size_t_ranges patches →
  agree_on (λ i, i < length' ∧ ¬ covered patches i) buf1 buf2 →
  calculateChecksum buf2 length' patches
    = calculateChecksum buf1 length' patches ∧
  (patches_within length' patches →
   calculateChecksum buf1 length' patches
     = Some (digest_of_chunks (unpatched_chunks buf1 length' 0 patches))).
Proof.
  intros Hl1 Hl2 Hmax Hsorted Hranges Hagree.
  assert (0 <= length') as Hl0 by (rewrite <- Hl1; apply Zlen_nonneg).
  split.
  - apply (checksum_tail_ext buf1 buf2 length' patches 0 md5_starts);
      [done..|unfold SIZE_MAX1; lia|by apply sorted_ranges_chain|].
    intros i Hi [[_ Hlt] Hnc]. by apply Hagree.
  - intros Hwithin. apply calculateChecksum_chunks; [done..|].
    by apply sorted_within_chain.
Qed.

(** C1 on an 8-byte buffer with one patch over bytes 2 to 4. *)
Lemma C1_checksum_ignores_patched_bytes_witness :
  let ps := [mkPatch 2 3 ptr_timestamp "field"] in
  let buf1 := [x01; x02; x03; x04; x05; x06; x07; x08] in
  let buf2 := [x01; x02; xff; xfe; xfd; x06; x07; x08] in
  calculateChecksum (H := PolyHash) buf2 8 ps
    = calculateChecksum (H := PolyHash) buf1 8 ps ∧
  calculateChecksum (H := PolyHash) buf1 8 ps
    = Some (digest_of_chunks (H := PolyHash) [[x01; x02]; [x06; x07; x08]]).
Proof.
  intros ps buf1 buf2.
  destruct (C1_checksum_ignores_patched_bytes (H := PolyHash) buf1 buf2 8 ps)
    as [Hsame Hdigest]; [..|split; [exact Hsame|apply Hdigest]].
  - reflexivity.
  - reflexivity.
  - reflexivity.
  - simpl. tauto.
  - repeat constructor; simpl; unfold SIZE_MAX1; lia.
  - intros i Hi [Hlt Hnc].
    destruct (decide (2 <= i < 5)) as [Hin|Hout].
    + exfalso. apply Hnc. constructor. unfold in_patch. simpl. lia.
    + assert (i = 0 ∨ i = 1 ∨ i = 5 ∨ i = 6 ∨ i = 7) as Hcases by lia.
      destruct Hcases as [->|[->|[->|[->| ->]]]]; reflexivity.
  - repeat constructor; simpl; lia.
Defined.

(** ** The statements on the sample image *)

(** C2 on [sample_world] with a PDB path that does not exist: the run
    throws the I/O error of [patchPDB] and the image is untouched. *)
Lemma C2_image_mutated_only_by_apply_witness :
  let run := patchImageImpl (H := PolyHash) (H0 := FlatPE.parser)
               (H1 := SingleStreamMsf) false "app.exe" (Some "missing.pdb")
               false sample_world in
  run.1 = Throw (system_error ENOENT "Failed to open PDB file") ∧
  image run.2 = image sample_world.
Proof.
  intros run.
  destruct (C2_image_mutated_only_by_apply (H := PolyHash)
              (H0 := FlatPE.parser) (H1 := SingleStreamMsf)
              false "app.exe" (Some "missing.pdb") false sample_world
              run.1 run.2) as [_ Hpdb].
  - apply surjective_pairing.
  - destruct (Hpdb "missing.pdb" (Some 448) sample_patches sample_signature
                (system_error ENOENT "Failed to open PDB file")
                (set_errno ENOENT sample_world)) as (Hr & _ & Himg).
    + reflexivity.
    + vm_compute. reflexivity.
    + vm_compute. reflexivity.
    + vm_compute. reflexivity.
    + split; [exact Hr|exact Himg].
Defined.

(** C3 on [mismatched_world]: the ages differ. *)
Lemma C3_signature_mismatch_rejected_witness :
  patchPDB (H1 := SingleStreamMsf)
    false "app.pdb" (Some 448) sample_signature false mismatched_world
  = (Throw (InvalidPdb "PE and PDB signatures do not match"),
     opened "app.pdb" mismatched_world).
Proof.
  refine (proj1 (proj1 (C3_signature_mismatch_rejected (H1 := SingleStreamMsf)
            false "app.pdb" sample_signature false mismatched_world)
            (Some 448) (poke 4 8 9 sample_pdb) (poke 4 8 9 sample_pdb)
            (decode_PdbStream70 (poke 4 8 9 sample_pdb)) _ _ _ _)).
  - reflexivity.
  - vm_compute. intros Hin. discriminate Hin.
  - exists (poke 4 8 9 sample_pdb),
      (mkMsfStream (Zlen (poke 4 8 9 sample_pdb)) (poke 4 8 9 sample_pdb)).
    split_and!; vm_compute; try reflexivity; discriminate.
  - right. exists 448, (mkCvInfo CV_INFO_SIGNATURE_PDB70 (slice_vec sample_image 452 16) 7).
    split_and!; vm_compute; reflexivity.
Defined.

(** C7 on [truncated_world]: the header stream is three bytes long. *)
Lemma C7_invalid_pdb_header_rejected_witness :
  patchPDB (H1 := SingleStreamMsf)
    false "app.pdb" (Some 448) sample_signature false truncated_world
  = (Throw (InvalidPdb "missing PDB 7.0 header"), opened "app.pdb" truncated_world).
Proof.
  refine (proj1 (proj2 (C7_invalid_pdb_header_rejected (H1 := SingleStreamMsf)
            false "app.pdb" (Some 448) sample_signature false truncated_world
            [x01; x02; x03] [x01; x02; x03] _ _ _))
            (mkMsfStream 3 [x01; x02; x03]) _ _).
  - reflexivity.
  - vm_compute. intros Hin. discriminate Hin.
  - reflexivity.
  - reflexivity.
  - reflexivity.
Defined.

(** C4 on the match record of [sample_image] and the header of
    [sample_pdb]: they match, and no longer do once the first byte of the
    GUID in the image is changed. *)
Lemma C4_matchingSignatures_exact_witness :
  let cv := mkCvInfo CV_INFO_SIGNATURE_PDB70 (slice_vec sample_image 452 16) 7 in
  let hdr := decode_PdbStream70 sample_pdb in
  matchingSignatures cv hdr = true ∧
  matchingSignatures
    (mkCvInfo (CvSignature cv) (vinsert 0%fin xff (Signature cv)) (Age cv)) hdr
    = false.
Proof.
  intros cv hdr.
  assert (matchingSignatures cv hdr = true) as Hm by (vm_compute; reflexivity).
  split; [exact Hm|].
  refine (proj1 (proj2 C4_matchingSignatures_exact) cv hdr 0%fin xff Hm _).
  vm_compute. discriminate.
Defined.

(** C6 on [two_codeview_image]. *)
Lemma C6_multiple_codeview_rejected_witness :
  patchDebugDataDirectories (H := FlatPE.parser) two_codeview_image []
    IMAGE_OPTIONAL_HEADER32 88
  = Throw (InvalidImage
             (if isValidRef (PEParser := FlatPE.parser) two_codeview_image
                   (entry_PointerToRawData two_codeview_image 384 0)
              then "found multiple CodeView debug entries"
              else "invalid CodeView debug entry location")).
Proof.
  destruct (C6_multiple_codeview_rejected (H := FlatPE.parser)
              two_codeview_image [] IMAGE_OPTIONAL_HEADER32 88 384 2)
    as [Hmany _].
  - vm_compute. reflexivity.
  - lia.
  - lia.
  - vm_compute. discriminate.
  - destruct Hmany as (first & Hfirst & Hrun).
    + vm_compute. lia.
    + assert (first = 0) as ->.
      { vm_compute in Hfirst. by injection Hfirst as <-. }
      exact Hrun.
Defined.

(** C8 on [sample_image]: the patch of the debug directory timestamp. *)
Lemma C8_timestamp_patches_write_fixed_epoch_witness :
  let p := mkPatch 388 4 ptr_timestamp "IMAGE_DEBUG_DIRECTORY.TimeDateStamp" in
  data p = ptr_timestamp ∧
  (∀ pdbSignature,
     patch_bytes (H := FlatPE.parser) pdbSignature p = le_encode 4 timestamp ∧
     le_decode (patch_bytes (H := FlatPE.parser) pdbSignature p) = timestamp) ∧
  timestamp = 86400 * days_from_civil 2010 1 1 ∧
  timestamp ≠ 0.
Proof.
  intros p.
  apply (C8_timestamp_patches_write_fixed_epoch (H := FlatPE.parser)
           sample_image 512 (Some 448) sample_patches).
  - vm_compute. reflexivity.
  - apply (bool_decide_unpack (_ ∈ _)). vm_compute. exact I.
  - apply (bool_decide_unpack (_ ∈ _)). vm_compute. exact I.
Defined.

(** C10 on [sample_image]: entry 0 has a nonzero timestamp and gets a
    patch, entry 1 has a zero timestamp and gets none. *)
Lemma C10_debug_timestamp_patch_iff_nonzero_witness :
  ∃ added,
    [mkPatch 388 4 ptr_timestamp "IMAGE_DEBUG_DIRECTORY.TimeDateStamp";
     mkPatch 452 16 ptr_pdbSignature "PDB Signature";
     mkPatch 468 4 ptr_pdbAge "PDB Age"] = [] ++ added ∧
    timestamp_patch 384 0 ∈ added ∧
    ¬ timestamp_patch 384 1 ∈ added.
Proof.
  destruct (C10_debug_timestamp_patch_iff_nonzero (H := FlatPE.parser)
              sample_image [] IMAGE_OPTIONAL_HEADER32 88 384 2
              [mkPatch 388 4 ptr_timestamp "IMAGE_DEBUG_DIRECTORY.TimeDateStamp";
               mkPatch 452 16 ptr_pdbSignature "PDB Signature";
               mkPatch 468 4 ptr_pdbAge "PDB Age"])
    as (added & Heq & Hall).
  - vm_compute. reflexivity.
  - vm_compute. reflexivity.
  - exists added. split; [exact Heq|]. split.
    + destruct (Hall 0) as (ts & Hread & Hiff & _); [lia|].
      apply Hiff. vm_compute in Hread. injection Hread as <-. discriminate.
    + destruct (Hall 1) as (ts & Hread & Hiff & _); [lia|].
      intros Hin. apply Hiff in Hin. apply Hin.
      vm_compute in Hread. injection Hread as <-. reflexivity.
Defined.

(** C10, as stated, fails: on [overlaid_record_image] the second debug
    directory entry has a zero timestamp and no timestamp patch is added
    for it, yet the run returns and the four bytes of the field have
    changed, since the PDB signature patch covers them. *)
Lemma C10_counterexample :
  let w := set_image overlaid_record_image sample_world in
  let run := patchImageImpl (H := PolyHash) (H0 := FlatPE.parser)
               (H1 := SingleStreamMsf) false "app.exe" None false w in
  let field := entry 384 1 + DebugDirectory_TimeDateStamp in
  getDebugDataDirs (PEParser := FlatPE.parser) overlaid_record_image
    IMAGE_OPTIONAL_HEADER32 88 = Ok (384, 2) ∧
  read32 overlaid_record_image field = Some 0 ∧
  patchDebugDataDirectories (H := FlatPE.parser) overlaid_record_image []
    IMAGE_OPTIONAL_HEADER32 88
  = Ok [mkPatch 388 4 ptr_timestamp "IMAGE_DEBUG_DIRECTORY.TimeDateStamp";
        mkPatch 416 16 ptr_pdbSignature "PDB Signature";
        mkPatch 432 4 ptr_pdbAge "PDB Age"] ∧
  run.1 = Ok () ∧
  slice (image run.2) field 4 ≠ slice overlaid_record_image field 4.
Proof. vm_compute. split_and!; done. Qed.

(** ** Dry run *)

Section DryRun.
Context `{Md5} `{PEParser} `{Msf}.

(** Without [_WIN32], a dry run of [patchPDB] that returns has deleted the
    temporary file. *)
Lemma patchPDB_dryrun_posix pdbPath pdbInfo signature w w' :
  patchPDB false pdbPath pdbInfo signature true w = (Ok (), w') →
  files w' !! getTempPdbPath pdbPath = None.
Proof.
  unfold patchPDB, mbind, M_bind, openFile, remove, get_world, lift, throw,
    modify, mret, M_ret.
  intros Hrun.
  repeat (case_match; simplify_eq);
    cbn [image files unwritable undeletable set_files set_errno print].
  apply lookup_delete_eq.
Qed.

(** Without [_WIN32], a dry run whose temporary file cannot be deleted
    ends in the I/O error "Failed to delete temporary PDB". *)
Lemma patchPDB_dryrun_posix_delete_failure
    pdbPath pdbInfo signature w content msf pdbHeader p cv :
  files w !! pdbPath = Some content →
  getTempPdbPath pdbPath ∉ unwritable w →
  header_accepted content msf pdbHeader →
  pdbInfo = Some p → load_CV_INFO_PDB70 (image w) p = Some cv →
  matchingSignatures cv pdbHeader = true →
  getTempPdbPath pdbPath ∈ undeletable w →
  ∃ w', patchPDB false pdbPath pdbInfo signature true w
          = (Throw (system_error EACCES "Failed to delete temporary PDB"), w') ∧
        files w' !! getTempPdbPath pdbPath = Some (msf_write msf).
Proof.
  intros Hfile Htmp (msf0 & s & Hload & -> & Hs & Hlen & Hread & -> & Hver)
    -> Hcv Hm Hdel.
  eexists. patchPDB_open Hfile Htmp. rewrite Hload, Hs.
  rewrite decide_False by lia.
  rewrite decide_False by (intros Hne; by apply Hne).
  rewrite decide_False by lia.
  cbn [image opened set_files]. rewrite Hcv. cbn [of_option]. rewrite Hm.
  cbn [negb]. unfold remove.
  cbn [image files unwritable undeletable errno set_files set_errno print].
  rewrite lookup_insert_eq. rewrite decide_True by done.
  rewrite decide_True by done.
  cbn [image files unwritable undeletable errno set_files set_errno print].
  split; [reflexivity|]. apply lookup_insert_eq.
Qed.

(** With [_WIN32], the temporary file is still there when a dry run
    returns: the branch at lines 284-288 is empty. *)
Lemma patchPDB_dryrun_win32 pdbPath pdbInfo signature w w' :
  patchPDB true pdbPath pdbInfo signature true w = (Ok (), w') →
  is_Some (files w' !! getTempPdbPath pdbPath).
Proof.
  unfold patchPDB, mbind, M_bind, openFile, remove, get_world, lift, throw,
    modify, mret, M_ret.
  intros Hrun.
  repeat (case_match; simplify_eq);
    cbn [image files unwritable undeletable set_files set_errno print].
  rewrite lookup_insert_eq. by eexists.
Qed.

(** The dry run of the whole pipeline, without [_WIN32]: the image and
    every file but the temporary one are as they were, whatever the
    outcome, and the temporary file is gone when the run returns. *)
Lemma patchImageImpl_dryrun_posix imagePath pdbPath w r w' :
  patchImageImpl false imagePath pdbPath true w = (r, w') →
  image w' = image w ∧
  (∀ q, (∀ p, pdbPath = Some p → q ≠ getTempPdbPath p) →
        files w' !! q = files w !! q) ∧
  (∀ p, pdbPath = Some p → files w' !! p = files w !! p) ∧
  (r = Ok () → ∀ p, pdbPath = Some p → files w' !! getTempPdbPath p = None).
Proof.
  rewrite patchImageImpl_stages. intros Hrun.
  assert (image w' = image w ∧
    (∀ q, (∀ p, pdbPath = Some p → q ≠ getTempPdbPath p) →
          files w' !! q = files w !! q) ∧
    (r = Ok () → ∀ p, pdbPath = Some p → files w' !! getTempPdbPath p = None))
    as (Himg & Hfiles & Htmp).
  { destruct (collectPatches _ _) as [[pdbInfo patches]|e|];
      [|by simplify_eq..].
    destruct (calculateChecksum _ _ _) as [sig|]; [|by simplify_eq].
    destruct pdbPath as [p|].
    - destruct (patchPDB false p pdbInfo sig true w) as [[[]|e|] w1] eqn:Hpdb.
      + apply apply_loop_dryrun in Hrun as ->.
        pose proof (patchPDB_frame _ _ _ _ _ _ _ _ Hpdb) as (Himg & _ & _ & Hf).
        split_and!; [done| |].
        * intros q Hq. apply Hf. by apply Hq.
        * intros _ p' [= <-]. by eapply patchPDB_dryrun_posix.
      + simplify_eq.
        pose proof (patchPDB_frame _ _ _ _ _ _ _ _ Hpdb) as (Himg & _ & _ & Hf).
        split_and!; [done| |done]. intros q Hq. apply Hf. by apply Hq.
      + simplify_eq.
        pose proof (patchPDB_frame _ _ _ _ _ _ _ _ Hpdb) as (Himg & _ & _ & Hf).
        split_and!; [done| |done]. intros q Hq. apply Hf. by apply Hq.
    - apply apply_loop_dryrun in Hrun as ->. done. }
  split_and!; [done..| |done].
  intros p ->. apply Hfiles. intros p' [= <-]. intros Heq.
  by apply (getTempPdbPath_ne p).
Qed.
End DryRun.

(** C9 fails in a build with [_WIN32] defined: the dry run on
    [sample_world] returns normally, the image and the PDB are as they
    were, and the temporary file is still on disk with the rewritten
    container in it. *)
Theorem C9_dryrun_win32_keeps_temporary_file :
  let run := patchImageImpl (H := PolyHash) (H0 := FlatPE.parser)
               (H1 := SingleStreamMsf) true "app.exe" (Some "app.pdb") true
               sample_world in
  run.1 = Ok () ∧
  image run.2 = image sample_world ∧
  files run.2 !! "app.pdb" = files sample_world !! "app.pdb" ∧
  files run.2 !! getTempPdbPath "app.pdb" = Some sample_pdb.
Proof. vm_compute. split_and!; reflexivity. Qed.

(** ** Idempotence *)

Lemma byte_to_of_Z z : byte_to_Z (byte_of_Z z) = z mod 256.
Proof.
  unfold byte_to_Z, byte_of_Z.
  assert (0 <= z mod 256 < 256) as Hr by (apply Z.mod_pos_bound; lia).
  destruct (Byte.of_N (Z.to_N (z mod 256))) as [b|] eqn:Hb.
  - apply Byte.to_of_N in Hb. rewrite Hb. lia.
  - exfalso. pose proof (Byte.to_of_N_option_map (Z.to_N (z mod 256))) as Hm.
    rewrite Hb in Hm. simpl in Hm.
    destruct (N.leb_spec (Z.to_N (z mod 256)) 255); [done|lia].
Qed.

Lemma le_decode_encode n z :
  le_decode (le_encode n z) = z mod 256 ^ Z.of_nat n.
Proof.
  revert z. induction n as [|n IH]; intros z.
  - simpl. by rewrite Z.mod_1_r.
  - cbn [le_encode le_decode]. rewrite IH, byte_to_of_Z.
    rewrite Nat2Z.inj_succ, Z.pow_succ_r by lia.
    rewrite (Z.mul_comm 256), Z.rem_mul_r by lia. lia.
Qed.

Lemma patch_bytes_registered `{PEParser} sig p :
  registered p → Zlen (patch_bytes sig p) = length p.
Proof.
  unfold patch_bytes, Zlen.
  intros [(Hd & Hl & _)|[(Hd & Hl & _)|(Hd & Hl & _)]];
    rewrite Hd, Hl, length_take; cbn [patch_data];
    rewrite ?le_encode_length, ?length_vec_to_list; lia.
Qed.

Lemma chain_ok_uncovered pos len ps j :
  chain_ok pos len ps → j < pos → ¬ covered ps j.
Proof.
  intros Hc Hj Hcov. apply chain_ok_lower in Hc.
  unfold covered in Hcov. apply Exists_exists in Hcov as (q & Hq & Hin).
  rewrite Forall_forall in Hc. specialize (Hc q Hq).
  unfold in_patch in Hin. simpl in Hc. lia.
Qed.

Section Written.
Context `{PEParser}.

(** After [apply] has returned, every patch range holds the bytes of its
    patch. *)
Lemma apply_loop_written sig ps : ∀ prev w w',
  0 <= prev →
  apply_loop sig false prev ps w = (Ok (), w') →
  Forall (λ p, Zlen (patch_bytes sig p) = length p) ps →
  Forall (λ p, slice (image w') (offset p) (length p) = patch_bytes sig p) ps.
Proof.
  induction ps as [|p rest IH]; intros prev w w' Hprev Hrun Hlen; [constructor|].
  apply Forall_cons in Hlen as [Hp Hlen].
  pose proof Hrun as Hrun'.
  rewrite apply_loop_cons in Hrun. case_decide as Hok; [|done].
  destruct Hok as (Hle & Hl0 & Hfit).
  set (w1 := set_image (mem_write (image w) (offset p) (patch_bytes sig p)) w) in *.
  assert (Zlen (image w1) = Zlen (image w)) as HZ.
  { unfold w1. cbn [image set_image]. apply mem_write_Zlen; lia. }
  constructor; [|by eapply IH; [|done|done]; lia].
  pose proof (apply_loop_Ok_chain _ _ _ _ _ _ Hrun ltac:(lia)) as Hchain.
  apply apply_loop_frame in Hrun as [_ Hfr]; [|lia].
  transitivity (slice (image w1) (offset p) (length p)).
  - apply slice_ext; [lia|]. intros j Hj. apply Hfr; [lia|].
    eapply chain_ok_uncovered; [done|lia].
  - unfold w1. cbn [image set_image]. rewrite <- Hp.
    apply slice_mem_write; lia.
Qed.
End Written.

Lemma mem_read_ext buf buf' ps lo n :
  Zlen buf' = Zlen buf → agree_on (λ i, ¬ covered ps i) buf buf' →
  (∀ j, lo <= j < lo + n → ¬ covered ps j) →
  mem_read buf' lo n = mem_read buf lo n.
Proof.
  intros HZ Hag Hun. unfold mem_read. rewrite HZ.
  case_decide as Hr; [|done]. f_equal. symmetry.
  apply slice_ext; [lia|]. intros j Hj. apply Hag; [lia|]. by apply Hun.
Qed.

Lemma read32_ext buf buf' ps lo :
  Zlen buf' = Zlen buf → agree_on (λ i, ¬ covered ps i) buf buf' →
  (∀ j, lo <= j < lo + 4 → ¬ covered ps j) →
  read32 buf' lo = read32 buf lo.
Proof. intros. unfold read32. by erewrite mem_read_ext. Qed.

Section Extensionality.
Context `{PEParser}.

Lemma debug_loop_ext buf buf' dir n : ∀ k cvInfo patches,
  (∀ p, isValidRef buf' p = isValidRef buf p) →
  (∀ i, k <= i < k + Z.of_nat n →
     read32 buf' (entry dir i + DebugDirectory_Type)
       = read32 buf (entry dir i + DebugDirectory_Type) ∧
     read32 buf' (entry dir i + DebugDirectory_PointerToRawData)
       = read32 buf (entry dir i + DebugDirectory_PointerToRawData) ∧
     (λ t, bool_decide (t ≠ 0)) <$>
         read32 buf' (entry dir i + DebugDirectory_TimeDateStamp)
       = (λ t, bool_decide (t ≠ 0)) <$>
           read32 buf (entry dir i + DebugDirectory_TimeDateStamp)) →
  debug_loop buf' n (entry dir k) cvInfo patches
    = debug_loop buf n (entry dir k) cvInfo patches.
Proof.
  induction n as [|n IH]; intros k cvInfo patches Hvalid Hreads; [done|].
  destruct (Hreads k ltac:(lia)) as (Hty & Hptr & Hts).
  assert (∀ cv ps, debug_loop buf' n (entry dir k + sizeof_IMAGE_DEBUG_DIRECTORY) cv ps
                 = debug_loop buf n (entry dir k + sizeof_IMAGE_DEBUG_DIRECTORY) cv ps)
    as Hrec.
  { intros cv ps. rewrite entry_succ. apply IH; [done|].
    intros i Hi. apply Hreads. lia. }
  cbn [debug_loop]. rewrite Hty, Hptr.
  destruct (read32 buf' (entry dir k + DebugDirectory_TimeDateStamp)) as [t'|],
    (read32 buf (entry dir k + DebugDirectory_TimeDateStamp)) as [t|];
    [|discriminate Hts..|reflexivity].
  injection Hts as Hts. cbn [of_option mbind Result_bind].
  assert ((if decide (t' ≠ 0)
           then Patches_add patches (entry dir k + DebugDirectory_TimeDateStamp)
                  4 ptr_timestamp "IMAGE_DEBUG_DIRECTORY.TimeDateStamp"
           else patches)
          = (if decide (t ≠ 0)
             then Patches_add patches (entry dir k + DebugDirectory_TimeDateStamp)
                    4 ptr_timestamp "IMAGE_DEBUG_DIRECTORY.TimeDateStamp"
             else patches)) as ->.
  { destruct (decide (t' ≠ 0)), (decide (t ≠ 0)); try done.
    - rewrite bool_decide_eq_true_2, bool_decide_eq_false_2 in Hts by done. done.
    - rewrite bool_decide_eq_false_2, bool_decide_eq_true_2 in Hts by done. done. }
  destruct (read32 buf (entry dir k + DebugDirectory_Type)) as [ty|];
    [|reflexivity].
  cbn [of_option mbind Result_bind].
  destruct (decide (ty = IMAGE_DEBUG_TYPE_CODEVIEW)); [|apply Hrec].
  destruct cvInfo; [reflexivity|].
  destruct (read32 buf (entry dir k + DebugDirectory_PointerToRawData)) as [ptr|];
    [|reflexivity].
  cbn [of_option mbind Result_bind]. rewrite Hvalid.
  destruct (isValidRef buf ptr); [apply Hrec|reflexivity].
Qed.

(** The CodeView record the loop returns is the one some CodeView entry
    points at. *)
Lemma debug_loop_cvInfo buf dir n : ∀ k cvInfo patches cv patches',
  debug_loop buf n (entry dir k) cvInfo patches = Ok (Some cv, patches') →
  cvInfo = Some cv ∨
  ∃ i, k <= i < k + Z.of_nat n ∧
       entry_Type buf dir i = IMAGE_DEBUG_TYPE_CODEVIEW ∧
       entry_PointerToRawData buf dir i = cv.
Proof.
  induction n as [|n IH]; intros k cvInfo patches cv patches' Hrun.
  - injection Hrun as -> _. by left.
  - cbn [debug_loop] in Hrun.
    apply Result_bind_Ok in Hrun as (ts & _ & Hrun).
    apply Result_bind_Ok in Hrun as (ty & Hty & Hrun).
    apply of_option_Ok in Hty. rewrite entry_succ in Hrun.
    case_decide as Hcv.
    + destruct cvInfo; [done|].
      apply Result_bind_Ok in Hrun as (ptr & Hptr & Hrun).
      apply of_option_Ok in Hptr.
      destruct (isValidRef buf ptr); [|done].
      apply IH in Hrun as [Heq|(i & Hi & Hrest)].
      * injection Heq as ->. right. exists k. split; [lia|].
        unfold entry_Type, entry_PointerToRawData. by rewrite Hty, Hptr.
      * right. exists i. split; [lia|done].
    + apply IH in Hrun as [Heq|(i & Hi & Hrest)]; [by left|].
      right. exists i. split; [lia|done].
Qed.

Lemma patchDebugDataDirectories_ext buf buf' patches T opt patches' :
  magic buf = magic_of T →
  optionalHeader buf T = Ok opt →
  (∀ p, isValidRef buf' p = isValidRef buf p) →
  getDebugDataDirs buf' T opt = getDebugDataDirs buf T opt →
  debug_reads_agree buf buf' →
  patchDebugDataDirectories buf patches T opt = Ok patches' →
  patchDebugDataDirectories buf' patches T opt = Ok patches'.
Proof.
  intros Hmagic Hopt Hvalid Hdirs Hagree Hrun.
  unfold patchDebugDataDirectories in *. rewrite Hdirs.
  apply Result_bind_Ok in Hrun as ([dir count] & Hd & Hrun). rewrite Hd.
  cbn [mbind Result_bind] in *.
  apply Result_bind_Ok in Hrun as ([cvInfo ps] & Hloop & Hrun).
  assert (dir = entry dir 0) as Hd0 by (unfold entry; lia).
  rewrite Hd0 in Hloop |- *.
  rewrite (debug_loop_ext buf buf'); [|done|].
  - rewrite Hloop. cbn [mbind Result_bind]. destruct cvInfo as [cv|]; [|done].
    apply debug_loop_cvInfo in Hloop as [?|(i & Hi & Hty & Hptr)]; [done|].
    destruct (Hagree T opt dir count Hmagic Hopt Hd i ltac:(lia))
      as (_ & _ & _ & Hsig).
    rewrite <- Hptr. rewrite Hsig by done. by rewrite Hptr.
  - intros i Hi.
    destruct (Hagree T opt dir count Hmagic Hopt Hd i ltac:(lia))
      as (? & ? & ? & _). done.
Qed.

Lemma collectPatches_ext buf buf' pinfo patches :
  Zlen buf' = Zlen buf →
  parser_agrees buf buf' → debug_reads_agree buf buf' →
  collectPatches buf (Zlen buf) = Ok (pinfo, patches) →
  collectPatches buf' (Zlen buf') = Ok (pinfo, patches).
Proof.
  intros HZ (HPE & Hmagic & Hvalid & Hopt) Hreads Hrun.
  unfold collectPatches in *. rewrite HPE.
  apply Result_bind_Ok in Hrun as (fh & Hfh & Hrun). rewrite Hfh.
  cbn [mbind Result_bind]. rewrite Hmagic.
  assert (∀ T, magic buf = magic_of T →
    (optionalHeader buf T ≫= λ opt,
       pdbInfo buf T opt ≫= λ pi,
         patchOptionalHeader buf
           (Patches_add [] (fh + FileHeader_TimeDateStamp) 4 ptr_timestamp
              "IMAGE_FILE_HEADER.TimeDateStamp") T opt ≫= λ ps, Ok (pi, ps))
      = Ok (pinfo, patches) →
    (optionalHeader buf' T ≫= λ opt,
       pdbInfo buf' T opt ≫= λ pi,
         patchOptionalHeader buf'
           (Patches_add [] (fh + FileHeader_TimeDateStamp) 4 ptr_timestamp
              "IMAGE_FILE_HEADER.TimeDateStamp") T opt ≫= λ ps, Ok (pi, ps))
      = Ok (pinfo, patches)) as Hbranch.
  { intros T HT Hr. destruct (Hopt T HT) as [HoT Hrest]. rewrite HoT.
    apply Result_bind_Ok in Hr as (opt & Ho & Hr). rewrite Ho.
    cbn [mbind Result_bind].
    destruct (Hrest opt Ho) as (Hpi & Hex & Hrs & Hdd). rewrite Hpi.
    apply Result_bind_Ok in Hr as (pi & Hp & Hr). rewrite Hp.
    cbn [mbind Result_bind].
    apply Result_bind_Ok in Hr as (ps & Hps & Hr). injection Hr as <- <-.
    unfold patchOptionalHeader in *. rewrite Hex, Hrs.
    apply Result_bind_Ok in Hps as (ex & Hex' & Hps). rewrite Hex'.
    cbn [mbind Result_bind].
    apply Result_bind_Ok in Hps as (rs & Hrs' & Hps). rewrite Hrs'.
    cbn [mbind Result_bind].
    erewrite patchDebugDataDirectories_ext; [done|done..]. }
  case_decide as H32; [by apply (Hbranch IMAGE_OPTIONAL_HEADER32)|].
  case_decide as H64; [by apply (Hbranch IMAGE_OPTIONAL_HEADER64)|done].
Qed.
End Extensionality.

Section Idempotence.
Context `{Md5} `{PEParser} `{Msf}.

Lemma magic_of_inj T1 T2 : magic_of T1 = magic_of T2 → T1 = T2.
Proof. by destruct T1, T2. Qed.

(** What a successful analysis says about the debug directory it walked. *)
Lemma collectPatches_debug buf len pinfo patches T opt dir count :
  collectPatches buf len = Ok (pinfo, patches) →
  magic buf = magic_of T → optionalHeader buf T = Ok opt →
  getDebugDataDirs buf T opt = Ok (dir, count) →
  ∀ i, 0 <= i < count →
    read32 buf (entry dir i + DebugDirectory_TimeDateStamp)
      = Some (entry_TimeDateStamp buf dir i) ∧
    (entry_TimeDateStamp buf dir i ≠ 0 → timestamp_patch dir i ∈ patches).
Proof.
  intros Hrun Hmagic Hopt Hdirs i Hi. unfold collectPatches in Hrun.
  apply Result_bind_Ok in Hrun as (fh & _ & Hrun).
  assert (∃ ps0, patchDebugDataDirectories buf ps0 T opt = Ok patches)
    as [ps0 Hdbg].
  { assert (∀ T', magic buf = magic_of T' →
      (optionalHeader buf T' ≫= λ opt,
         pdbInfo buf T' opt ≫= λ pi,
           patchOptionalHeader buf
             (Patches_add [] (fh + FileHeader_TimeDateStamp) 4 ptr_timestamp
                "IMAGE_FILE_HEADER.TimeDateStamp") T' opt ≫= λ ps, Ok (pi, ps))
        = Ok (pinfo, patches) →
      ∃ ps0, patchDebugDataDirectories buf ps0 T opt = Ok patches) as Hbranch.
    { intros T' HT' Hr.
      assert (T' = T) as -> by (apply magic_of_inj; congruence).
      rewrite Hopt in Hr. cbn [mbind Result_bind] in Hr.
      apply Result_bind_Ok in Hr as (pi & _ & Hr).
      apply Result_bind_Ok in Hr as (ps & Hps & Hr). injection Hr as _ <-.
      unfold patchOptionalHeader in Hps.
      apply Result_bind_Ok in Hps as (ex & _ & Hps).
      apply Result_bind_Ok in Hps as (rs & _ & Hps). eauto. }
    case_decide as H32; [by apply (Hbranch IMAGE_OPTIONAL_HEADER32)|].
    case_decide as H64; [by apply (Hbranch IMAGE_OPTIONAL_HEADER64)|done]. }
  destruct (patchDebugDataDirectories_Ok _ _ _ _ _ _ _ Hdirs Hdbg)
    as (cvInfo & Hloop & -> & _).
  assert (dir = entry dir 0) as Hd by (unfold entry; lia).
  rewrite Hd in Hloop at 1. apply debug_loop_Ok in Hloop as [_ Hreads].
  split; [apply Hreads; lia|].
  intros Hnz. rewrite !elem_of_app. right. left.
  apply elem_of_debug_timestamp_patches. exists i. split; [done|]. split; [lia|done].
Qed.

Lemma read32_Some_inv buf pos v :
  read32 buf pos = Some v → 0 <= pos ∧ pos + 4 <= Zlen buf.
Proof. unfold read32, mem_read. case_decide; [lia|done]. Qed.

(** After the patches have been applied, the debug directory loop reads
    what it read before. *)
Lemma debug_reads_agree_patched buf buf' sig pinfo patches :
  collectPatches buf (Zlen buf) = Ok (pinfo, patches) →
  debug_fields_avoid buf patches →
  Zlen buf' = Zlen buf →
  agree_on (λ i, ¬ covered patches i) buf buf' →
  (∀ p, p ∈ patches → slice buf' (offset p) (length p) = patch_bytes sig p) →
  debug_reads_agree buf buf'.
Proof.
  intros Hrun Havoid HZ Hagree Hwritten T opt dir count Hmagic Hopt Hdirs i Hi.
  destruct (Havoid T opt dir count Hmagic Hopt Hdirs i Hi)
    as (Hty & Hptr & Hts & Hcv).
  destruct (collectPatches_debug _ _ _ _ _ _ _ _ Hrun Hmagic Hopt Hdirs i Hi)
    as (Hread & Hin).
  split_and!.
  - by eapply read32_ext.
  - by eapply read32_ext.
  - destruct (decide (entry_TimeDateStamp buf dir i = 0)) as [Hz|Hnz].
    + f_equal. eapply read32_ext; [done..|]. by apply Hts.
    + rewrite Hread. specialize (Hwritten _ (Hin Hnz)).
      apply read32_Some_inv in Hread as [Hlo Hhi].
      rewrite read32_Some by lia.
      cbn [offset length timestamp_patch] in Hwritten. rewrite Hwritten.
      cbn [fmap option_fmap option_map]. f_equal.
      rewrite bool_decide_eq_true_2 by done.
      by rewrite bool_decide_eq_true_2.
  - intros Hcvty. eapply read32_ext; [done..|]. by apply Hcv.
Qed.

(** C5: on a valid image, one whose patched fields lie apart from what the
    analysis reads to find them, a run that patches the image makes every
    later run collect the same patches and compute the same checksum, and
    every patch range already holds the value the later run writes; so the
    later run leaves the image byte for byte as the first run left it, and
    it returns normally when no PDB is given. *)
Theorem C5_patching_is_idempotent
    (WIN32 : bool) (imagePath : string) (pdbPath : option string)
    (w w1 : World) :
  valid_image (image w) →
  patchImageImpl WIN32 imagePath pdbPath false w = (Ok (), w1) →
  ∃ pinfo patches pdbSignature,
    collectPatches (image w) (Zlen (image w)) = Ok (pinfo, patches) ∧
    collectPatches (image w1) (Zlen (image w1)) = Ok (pinfo, patches) ∧
    calculateChecksum (image w) (Zlen (image w)) (Patches_sort patches)
      = Some pdbSignature ∧
    calculateChecksum (image w1) (Zlen (image w1)) (Patches_sort patches)
      = Some pdbSignature ∧
    (∀ p, p ∈ patches →
       slice (image w1) (offset p) (length p) = patch_bytes pdbSignature p) ∧
    ∀ WIN32' imagePath' pdbPath' dryrun' w1' r w2,
      image w1' = image w1 →
      patchImageImpl WIN32' imagePath' pdbPath' dryrun' w1' = (r, w2) →
      image w2 = image w1 ∧ (pdbPath' = None → r = Ok ()).
Proof.
  intros (Hmax & pinfo & patches & Hcol & Hwalk & Havoid) Hrun.
  rewrite patchImageImpl_stages, Hcol in Hrun.
  destruct (calculateChecksum _ _ _) as [sig|] eqn:Hsum; [|done].
  set (S := Patches_sort patches) in *.
  assert (∃ wm, image wm = image w ∧
                Patches_apply sig S false wm = (Ok (), w1)) as (wm & Hwm & Happly).
  { destruct pdbPath as [p|]; [|by exists w].
    destruct (patchPDB WIN32 p pinfo sig false w) as [[[]|e|] wm] eqn:Hpdb;
      [|done..].
    exists wm. split; [|done]. by apply patchPDB_frame in Hpdb as (? & _). }
  unfold Patches_apply in Happly.
  pose proof (Zlen_nonneg (image wm)) as Hlen0.
  pose proof (apply_loop_Ok_chain _ _ _ _ _ _ Happly ltac:(lia)) as Hchain.
  pose proof (apply_loop_frame _ _ _ 0 _ _ _ ltac:(lia) Happly) as [HZ Hframe].
  rewrite Hwm in Hchain, HZ, Hframe.
  assert (Forall registered S) as Hreg.
  { unfold S. rewrite Patches_sort_perm. by eapply collectPatches_registered. }
  assert (Forall (λ p, Zlen (patch_bytes sig p) = length p) S) as Hlens.
  { eapply Forall_impl; [exact Hreg|]. intros p. apply patch_bytes_registered. }
  pose proof (apply_loop_written _ _ 0 _ _ ltac:(lia) Happly Hlens) as Hwritten.
  assert (∀ p, p ∈ patches →
            slice (image w1) (offset p) (length p) = patch_bytes sig p) as Hwr.
  { intros p Hp. rewrite Forall_forall in Hwritten. apply Hwritten.
    unfold S. by rewrite Patches_sort_perm. }
  assert (agree_on (λ i, ¬ covered patches i) (image w) (image w1)) as Hagree.
  { intros i Hi Hnc. symmetry. apply Hframe; [done|].
    unfold S. by rewrite (covered_perm _ _ _ (Patches_sort_perm _)). }
  assert (collectPatches (image w1) (Zlen (image w1)) = Ok (pinfo, patches))
    as Hcol1.
  { apply (collectPatches_ext (image w)); [done| |by eapply debug_reads_agree_patched|done].
    by apply Hwalk. }
  assert (calculateChecksum (image w1) (Zlen (image w1)) S = Some sig) as Hsum1.
  { rewrite <- Hsum. rewrite HZ.
    rewrite !calculateChecksum_chunks by done. do 2 f_equal.
    symmetry. apply unpatched_chunks_ext; [done|done|].
    intros i Hi [_ Hnc]. apply Hagree; [done|].
    unfold S in Hnc. by rewrite (covered_perm _ _ _ (Patches_sort_perm _)) in Hnc. }
  exists pinfo, patches, sig. split_and!; [done..|].
  intros WIN32' imagePath' pdbPath' dryrun' w1' r w2 Himg Hrun2.
  rewrite patchImageImpl_stages, Himg, Hcol1 in Hrun2. fold S in Hrun2.
  rewrite Hsum1 in Hrun2.
  assert (∀ wx, image wx = image w1 →
            Patches_apply sig S dryrun' wx = (Ok (), wx)) as Hfix.
  { intros wx Hwx. apply apply_loop_fixpoint; [by rewrite Hwx, HZ| |done].
    apply Forall_forall. intros p Hp. rewrite Hwx.
    rewrite Forall_forall in Hlens, Hwritten. split; [by apply Hlens|by apply Hwritten]. }
  destruct pdbPath' as [p|].
  - destruct (patchPDB WIN32' p pinfo sig dryrun' w1') as [[[]|e|] wx] eqn:Hpdb;
      apply patchPDB_frame in Hpdb as (Hx & _).
    + rewrite Hfix in Hrun2 by congruence. injection Hrun2 as <- <-.
      split; [congruence|done].
    + injection Hrun2 as <- <-. split; [congruence|done].
    + injection Hrun2 as <- <-. split; [congruence|done].
  - rewrite Hfix in Hrun2 by done. injection Hrun2 as <- <-. done.
Qed.
End Idempotence.

(** ** Idempotence on the sample image *)

Lemma unpatchedb_spec ps lo n :
  unpatchedb ps lo n = true → unpatched ps lo n.
Proof.
  unfold unpatchedb, unpatched, covered. intros Hb j Hj Hcov.
  apply Exists_exists in Hcov as (p & Hp & Hin).
  rewrite forallb_forall in Hb. apply list_elem_of_In in Hp.
  specialize (Hb p Hp). unfold in_patch in Hin. lia.
Qed.

Section SampleWalk.
Variable buf' : list byte.
Hypothesis HZ : Zlen buf' = Zlen sample_image.
Hypothesis Hagree : agree_on (λ i, ¬ covered sample_patches i) sample_image buf'.

Lemma sample_read lo n :
  unpatchedb sample_patches lo n = true →
  mem_read buf' lo n = mem_read sample_image lo n.
Proof.
  intros Hb. eapply mem_read_ext; [exact HZ|exact Hagree|].
  by apply unpatchedb_spec.
Qed.

Lemma sample_read32 lo v :
  unpatchedb sample_patches lo 4 = true →
  read32 sample_image lo = Some v → read32 buf' lo = Some v.
Proof. intros Hb <-. unfold read32. by rewrite sample_read. Qed.

Lemma sample_read16 lo v :
  unpatchedb sample_patches lo 2 = true →
  read16 sample_image lo = Some v → read16 buf' lo = Some v.
Proof. intros Hb <-. unfold read16. by rewrite sample_read. Qed.

End SampleWalk.

Ltac sample_fact buf' HZ Hag :=
  first [ apply (sample_read32 buf' HZ Hag) | apply (sample_read16 buf' HZ Hag) ];
  vm_compute; reflexivity.

Lemma FlatPE_walk_sample :
  header_walk_avoids (H := FlatPE.parser) sample_image sample_patches.
Proof.
  intros buf' HZ Hag.
  assert (Zlen buf' = 512) as Hlen by (rewrite HZ; reflexivity).
  assert (read16 buf' 0 = Some 0x5A4D) as Hmz by sample_fact buf' HZ Hag.
  assert (read32 buf' 60 = Some 64) as Hlfanew by sample_fact buf' HZ Hag.
  assert (read32 buf' 64 = Some 0x4550) as Hpe by sample_fact buf' HZ Hag.
  assert (read16 buf' 88 = Some IMAGE_NT_OPTIONAL_HDR32_MAGIC) as Hmagic
    by sample_fact buf' HZ Hag.
  assert (read32 buf' 184 = Some 320) as Hex by sample_fact buf' HZ Hag.
  assert (read32 buf' 188 = Some 40) as Hexs by sample_fact buf' HZ Hag.
  assert (read32 buf' 200 = Some 368) as Hrs by sample_fact buf' HZ Hag.
  assert (read32 buf' 204 = Some 16) as Hrss by sample_fact buf' HZ Hag.
  assert (read32 buf' 232 = Some 384) as Hdb by sample_fact buf' HZ Hag.
  assert (read32 buf' 236 = Some 56) as Hdbs by sample_fact buf' HZ Hag.
  assert (read32 buf' 396 = Some IMAGE_DEBUG_TYPE_CODEVIEW) as Hty0
    by sample_fact buf' HZ Hag.
  assert (read32 buf' 408 = Some 448) as Hptr0 by sample_fact buf' HZ Hag.
  assert (read32 buf' 424 = Some 4) as Hty1 by sample_fact buf' HZ Hag.
  assert (FlatPE.e_lfanew buf' = 64) as He.
  { unfold FlatPE.e_lfanew. by rewrite Hlfanew. }
  assert (FlatPE.optional buf' = 88) as Ho.
  { unfold FlatPE.optional. by rewrite He. }
  split_and!.
  - transitivity (Ok (A := Z) 68); [|vm_compute; reflexivity].
    cbn [PEFile FlatPE.parser]. unfold FlatPE.PEFile.
    rewrite Hmz. cbn [need mbind Result_bind].
    rewrite decide_False by (intros Hne; by apply Hne).
    rewrite Hlfanew. cbn [need mbind Result_bind].
    rewrite Hpe. cbn [need mbind Result_bind].
    rewrite decide_False by (intros Hne; by apply Hne).
    rewrite (mem_read_Some buf' (64 + 4) 20) by lia.
    cbn [need mbind Result_bind]. change (64 + 24) with 88. rewrite Hmagic.
    reflexivity.
  - transitivity IMAGE_NT_OPTIONAL_HDR32_MAGIC; [|vm_compute; reflexivity].
    cbn [magic FlatPE.parser]. unfold FlatPE.magic. by rewrite Ho, Hmagic.
  - intros p. cbn [isValidRef FlatPE.parser]. unfold FlatPE.isValidRef.
    by rewrite HZ.
  - intros T HT.
    assert (T = IMAGE_OPTIONAL_HEADER32) as ->.
    { destruct T; [done|]. vm_compute in HT. discriminate HT. }
    assert (optionalHeader (PEParser := FlatPE.parser) buf' IMAGE_OPTIONAL_HEADER32
            = Ok 88) as Hopt'.
    { cbn [optionalHeader FlatPE.parser]. unfold FlatPE.optionalHeader.
      rewrite Ho. rewrite mem_read_Some by (cbn [FlatPE.sizeof]; lia). done. }
    split; [rewrite Hopt'; vm_compute; reflexivity|].
    intros opt Hopt.
    assert (opt = 88) as ->.
    { vm_compute in Hopt. by injection Hopt as <-. }
    assert (∀ entry va size,
      read32 buf' (88 + 224 - 128 + 8 * entry) = Some va →
      read32 buf' (88 + 224 - 128 + 8 * entry + 4) = Some size →
      FlatPE.dataDirectory buf' IMAGE_OPTIONAL_HEADER32 88 entry = Ok (va, size))
      as Hdd.
    { intros e va size Hva Hsize. unfold FlatPE.dataDirectory.
      cbn [FlatPE.sizeof]. by rewrite Hva, Hsize. }
    assert (getDebugDataDirs (PEParser := FlatPE.parser) buf'
              IMAGE_OPTIONAL_HEADER32 88 = Ok (384, 2)) as Hdirs'.
    { cbn [getDebugDataDirs FlatPE.parser]. unfold FlatPE.getDebugDataDirs.
      rewrite (Hdd 6 384 56) by done. cbn [mbind Result_bind].
      change (56 / sizeof_IMAGE_DEBUG_DIRECTORY) with 2.
      rewrite mem_read_Some by (unfold sizeof_IMAGE_DEBUG_DIRECTORY; lia). done. }
    split_and!.
    + transitivity (Ok (A := option Z) (Some 448)); [|vm_compute; reflexivity].
      cbn [pdbInfo FlatPE.parser]. unfold FlatPE.pdbInfo.
      cbn [getDebugDataDirs FlatPE.parser] in Hdirs'. rewrite Hdirs'.
      cbn [mbind Result_bind]. change (Z.to_nat 2) with 2%nat.
      cbn [FlatPE.findCodeView].
      unfold DebugDirectory_Type, DebugDirectory_PointerToRawData,
        sizeof_IMAGE_DEBUG_DIRECTORY.
      change (384 + 12) with 396. change (384 + 24) with 408.
      change (384 + 28 + 12) with 424.
      rewrite Hty0, Hptr0, Hty1. cbn [need mbind Result_bind].
      rewrite decide_True by done.
      assert (FlatPE.isValidRef buf' 448 = true) as ->.
      { unfold FlatPE.isValidRef. rewrite Hlen. done. }
      rewrite decide_False by done. reflexivity.
    + transitivity (Ok (A := option Z) (Some 320)); [|vm_compute; reflexivity].
      cbn [getDataDir FlatPE.parser]. unfold FlatPE.getDataDir.
      rewrite (Hdd IMAGE_DIRECTORY_ENTRY_EXPORT 320 40) by done.
      cbn [mbind Result_bind]. rewrite decide_False by done.
      rewrite mem_read_Some by lia. done.
    + transitivity (Ok (A := option Z) (Some 368)); [|vm_compute; reflexivity].
      cbn [getDataDir FlatPE.parser]. unfold FlatPE.getDataDir.
      rewrite (Hdd IMAGE_DIRECTORY_ENTRY_RESOURCE 368 16) by done.
      cbn [mbind Result_bind]. rewrite decide_False by done.
      rewrite mem_read_Some by lia. done.
    + rewrite Hdirs'. vm_compute. reflexivity.
Qed.

Lemma sample_debug_fields :
  debug_fields_avoid (H := FlatPE.parser) sample_image sample_patches.
Proof.
  intros T opt dir count HT Hopt Hdirs i Hi.
  assert (T = IMAGE_OPTIONAL_HEADER32) as ->.
  { destruct T; [reflexivity|]. vm_compute in HT. discriminate HT. }
  clear HT.
  assert (opt = 88) as ->.
  { vm_compute in Hopt. injection Hopt as Ho. symmetry. exact Ho. }
  clear Hopt.
  assert (dir = 384 ∧ count = 2) as [-> ->].
  { vm_compute in Hdirs. injection Hdirs as Hd Hc.
    split; symmetry; assumption. }
  clear Hdirs.
  assert (i = 0 ∨ i = 1) as [-> | ->] by lia.
  - split_and!.
    + apply unpatchedb_spec. vm_compute. reflexivity.
    + apply unpatchedb_spec. vm_compute. reflexivity.
    + intros Hz. vm_compute in Hz. discriminate Hz.
    + intros _. apply unpatchedb_spec. vm_compute. reflexivity.
  - split_and!.
    + apply unpatchedb_spec. vm_compute. reflexivity.
    + apply unpatchedb_spec. vm_compute. reflexivity.
    + intros _. apply unpatchedb_spec. vm_compute. reflexivity.
    + intros Hty. vm_compute in Hty. discriminate Hty.
Qed.

Lemma sample_image_valid :
  valid_image (H := FlatPE.parser) (image sample_world).
Proof.
  unfold sample_world. cbn [image].
  split; [vm_compute; reflexivity|].
  exists (Some 448), sample_patches. split_and!.
  - vm_compute. reflexivity.
  - apply FlatPE_walk_sample.
  - apply sample_debug_fields.
Qed.

(** C5 on [sample_world]: patching the patched image again returns
    normally and changes no byte. *)
Lemma C5_patching_is_idempotent_witness :
  let run2 := patchImageImpl (H := PolyHash) (H0 := FlatPE.parser)
                (H1 := SingleStreamMsf) false "app.exe" None false
                patched_world in
  image run2.2 = image patched_world ∧ run2.1 = Ok ().
Proof.
  intros run2.
  destruct (C5_patching_is_idempotent (H := PolyHash) (H0 := FlatPE.parser)
              (H1 := SingleStreamMsf) false "app.exe" None
              sample_world patched_world)
    as (pinfo & patches & sig & _ & _ & _ & _ & _ & Hagain).
  - exact sample_image_valid.
  - vm_compute; reflexivity.
  - destruct (Hagain false "app.exe" None false patched_world run2.1 run2.2)
      as [Himg Hr].
    + reflexivity.
    + apply surjective_pairing.
    + split; [exact Himg|exact (Hr eq_refl)].
Defined.

(** * Further properties of [patch_image.cpp] *)

(** ** [getTempPdbPath] *)

Lemma append_inj_l (s1 s2 suffix : string) :
  s1 +:+ suffix = s2 +:+ suffix → s1 = s2.
Proof.
  revert s2. induction s1 as [|a s1 IH]; intros [|b s2] Heq; simpl in *.
  - reflexivity.
  - apply (f_equal String.length) in Heq.
    rewrite !append_length in Heq. simpl in Heq. lia.
  - apply (f_equal String.length) in Heq.
    rewrite !append_length in Heq. simpl in Heq. lia.
  - injection Heq as -> Heq. f_equal. by apply IH.
Qed.

(** X1.  The temporary path is the PDB path followed by [".tmp"]: it is
    four characters longer, it is never the PDB path itself, and two
    different PDB paths never share a temporary path. *)
Theorem X1_getTempPdbPath_fresh_and_injective :
  (∀ pdbPath,
     String.length (getTempPdbPath pdbPath) = (String.length pdbPath + 4)%nat ∧
     getTempPdbPath pdbPath ≠ pdbPath) ∧
  (∀ pdbPath1 pdbPath2,
     getTempPdbPath pdbPath1 = getTempPdbPath pdbPath2 → pdbPath1 = pdbPath2).
Proof.
  split.
  - intros pdbPath. split.
    + unfold getTempPdbPath. by rewrite append_length.
    + apply getTempPdbPath_ne.
  - intros p1 p2. unfold getTempPdbPath. apply append_inj_l.
Qed.

(** ** [calculateChecksum] *)

Lemma size_t_wrap_neg (z : Z) :
  - SIZE_MAX1 <= z < 0 → size_t_wrap z = z + SIZE_MAX1.
Proof.
  intros Hz. unfold size_t_wrap.
  rewrite <- (Z.mod_small (z + SIZE_MAX1) SIZE_MAX1) by lia.
  replace (z + SIZE_MAX1) with (z + 1 * SIZE_MAX1) by lia.
  by rewrite Z.mod_add by (unfold SIZE_MAX1; lia).
Qed.

Lemma mem_read_gap (buf : list byte) (pos target : Z) chunk :
  Zlen buf < SIZE_MAX1 → 0 <= pos < SIZE_MAX1 → 0 <= target < SIZE_MAX1 →
  mem_read buf pos (size_t_wrap (target - pos)) = Some chunk →
  pos <= target <= Zlen buf.
Proof.
  intros Hlen Hpos Htarget Hread. unfold mem_read in Hread.
  case_decide as Hin; [|done].
  destruct (decide (pos <= target)) as [Hle|Hgt].
  - rewrite size_t_wrap_small in Hin by lia. lia.
  - rewrite size_t_wrap_neg in Hin by lia. lia.
Qed.

Section ChecksumDefined.
Context `{Md5}.

Lemma checksum_tail_defined (buf : list byte) (len : Z) (ps : list Patch)
    (pos : Z) (ctx : md5_context) :
  Zlen buf = len → len < SIZE_MAX1 → 0 <= pos < SIZE_MAX1 →
  size_t_ranges ps →
  is_Some (checksum_tail buf len (checksum_loop buf ps pos ctx)) →
  chain_ok pos len ps.
Proof.
  intros Hbuf Hlen. revert pos ctx.
  induction ps as [|p rest IH]; intros pos ctx Hpos Hranges [d Hd]; simpl in *.
  - destruct (mem_read buf pos (size_t_wrap (len - pos))) as [chunk|] eqn:Hread;
      [|done].
    pose proof (Zlen_nonneg buf).
    apply mem_read_gap in Hread; lia.
  - apply Forall_cons in Hranges as [(Ho & Hl & Hend) Hranges].
    destruct (mem_read buf pos (size_t_wrap (offset p - pos)))
      as [chunk|] eqn:Hread; [|done].
    apply mem_read_gap in Hread; [|lia..].
    rewrite size_t_wrap_small in Hd by lia.
    split_and!; [lia|lia|].
    eapply IH; [lia|done|by eexists].
Qed.

Lemma chain_ok_sorted_within (pos len : Z) (ps : list Patch) :
  0 <= pos → chain_ok pos len ps →
  sorted_disjoint ps ∧ patches_within len ps.
Proof.
  revert pos. induction ps as [|p rest IH]; intros pos Hpos Hchain; simpl in *.
  - split; [done|constructor].
  - destruct Hchain as (Hle & Hl & Hchain).
    destruct (IH (offset p + length p) ltac:(lia) Hchain) as [Hs Hw].
    pose proof (chain_ok_pos_le _ _ _ Hchain).
    split_and!.
    + destruct rest as [|q rest']; [done|]. simpl in Hchain. lia.
    + done.
    + constructor; [lia|done].
Qed.

(** X2.  On a buffer shorter than 2^64 bytes and patches whose ranges
    are [size_t] ranges, [calculateChecksum] stays inside the buffer, and
    so returns a digest, exactly when the patches are sorted by offset
    without overlap and lie inside the buffer; on any other list the
    unsigned subtraction wraps and [md5_update] is handed bytes outside
    the buffer. *)
Theorem X2_calculateChecksum_defined_iff_sorted_within (buf : list byte)
    (len : Z) (ps : list Patch) :
  Zlen buf = len → len < SIZE_MAX1 → size_t_ranges ps →
  is_Some (calculateChecksum buf len ps) ↔
    sorted_disjoint ps ∧ patches_within len ps.
Proof.
  intros Hbuf Hlen Hranges. split.
  - intros Hsome. apply (chain_ok_sorted_within 0); [lia|].
    apply (checksum_tail_defined buf len ps 0 md5_starts Hbuf Hlen);
      [unfold SIZE_MAX1; lia|done|done].
  - intros [Hs Hw]. pose proof (Zlen_nonneg buf).
    assert (Hchain : chain_ok 0 len ps)
      by (apply sorted_within_chain; [done|done|lia]).
    rewrite (calculateChecksum_chunks buf len ps Hbuf Hlen Hchain).
    by eexists.
Qed.

Lemma chunk_bytes_unpatched (buf : list byte) (len : Z) (ps : list Patch)
    (pos : Z) :
  Zlen buf = len → 0 <= pos → chain_ok pos len ps →
  chunk_bytes (unpatched_chunks buf len pos ps) = len - pos - patched_bytes ps.
Proof.
  intros Hbuf. revert pos.
  assert (Hslice : ∀ pos n, 0 <= pos → 0 <= n → pos + n <= len →
            Zlen (slice buf pos n) = n).
  { intros pos n Hpos Hn Hend. unfold slice, Zlen in *.
    rewrite length_take, length_drop. lia. }
  induction ps as [|p rest IH]; intros pos Hpos Hchain; simpl in *.
  - rewrite Hslice by lia. lia.
  - destruct Hchain as (Hle & Hl & Hchain).
    pose proof (chain_ok_pos_le _ _ _ Hchain).
    rewrite Hslice by lia. rewrite IH by (done || lia). lia.
Qed.

(** X3.  For sorted, non-overlapping patches inside the buffer the digest
    is taken over one chunk per patch plus the tail, and the chunks hold
    as many bytes as the buffer has outside the patches: the length of the
    buffer minus the lengths of the patches. *)
Theorem X3_calculateChecksum_hashes_all_unpatched_bytes (buf : list byte)
    (len : Z) (ps : list Patch) :
  Zlen buf = len → len < SIZE_MAX1 →
  sorted_disjoint ps → patches_within len ps →
  ∃ chunks,
    calculateChecksum buf len ps = Some (digest_of_chunks chunks) ∧
    Datatypes.length chunks = S (Datatypes.length ps) ∧
    chunk_bytes chunks = len - patched_bytes ps.
Proof.
  intros Hbuf Hlen Hs Hw. pose proof (Zlen_nonneg buf).
  assert (Hchain : chain_ok 0 len ps) by (apply sorted_within_chain; [done|done|lia]).
  exists (unpatched_chunks buf len 0 ps). split_and!.
  - by apply calculateChecksum_chunks.
  - clear. generalize 0. induction ps as [|p rest IH]; intros pos; simpl; [done|].
    by rewrite IH.
  - rewrite chunk_bytes_unpatched by (done || lia). lia.
Qed.
End ChecksumDefined.

(** X2 on an eight-byte buffer: a patch list in order, and the same
    patches in the opposite order, for which the first gap wraps. *)
Lemma X2_calculateChecksum_defined_iff_sorted_within_witness :
  let buf := [x01; x02; x03; x04; x05; x06; x07; x08] in
  let p := mkPatch 2 3 ptr_timestamp "first" in
  let q := mkPatch 6 1 ptr_pdbAge "second" in
  is_Some (calculateChecksum (H := PolyHash) buf 8 [p; q]) ∧
  calculateChecksum (H := PolyHash) buf 8 [q; p] = None.
Proof.
  intros buf p q. split.
  - apply (X2_calculateChecksum_defined_iff_sorted_within (H := PolyHash)
             buf 8 [p; q]).
    + reflexivity.
    + reflexivity.
    + repeat constructor; simpl; unfold SIZE_MAX1; lia.
    + split; [simpl; lia|repeat constructor; simpl; lia].
  - apply eq_None_not_Some.
    intros Hsome.
    apply (X2_calculateChecksum_defined_iff_sorted_within (H := PolyHash)
             buf 8 [q; p]) in Hsome.
    + destruct Hsome as [[Hle _] _]. simpl in Hle. lia.
    + reflexivity.
    + reflexivity.
    + repeat constructor; simpl; unfold SIZE_MAX1; lia.
Defined.

(** X3 on the same buffer: four bytes are patched, four are hashed. *)
Lemma X3_calculateChecksum_hashes_all_unpatched_bytes_witness :
  let buf := [x01; x02; x03; x04; x05; x06; x07; x08] in
  let ps := [mkPatch 2 3 ptr_timestamp "first"; mkPatch 6 1 ptr_pdbAge "second"] in
  ∃ chunks,
    calculateChecksum (H := PolyHash) buf 8 ps
      = Some (digest_of_chunks (H := PolyHash) chunks) ∧
    Datatypes.length chunks = 3%nat ∧
    chunk_bytes chunks = 4.
Proof.
  intros buf ps.
  apply (X3_calculateChecksum_hashes_all_unpatched_bytes (H := PolyHash)
           buf 8 ps).
  - reflexivity.
  - reflexivity.
  - simpl. lia.
  - repeat constructor; simpl; lia.
Defined.

(** ** [patchDebugDataDirectories]: the outcome by CodeView entries *)

Section DebugOutcome.
Context `{PEParser}.

Lemma patchDebugDataDirectories_loop (buf : list byte) (patches : list Patch)
    (T : OptHeader) (opt dir count : Z) :
  getDebugDataDirs buf T opt = Ok (dir, count) →
  0 <= dir → 0 <= count → entry dir count <= Zlen buf →
  patchDebugDataDirectories buf patches T opt =
    '(cvInfo, patches) ←
      debug_outcome buf dir None (codeview_entries buf dir 0 (Z.to_nat count))
        (patches ++ debug_timestamp_patches buf dir 0 (Z.to_nat count));
    match cvInfo with
    | Some cv =>
        sig ← of_option (read32 buf (cv + CvInfo_CvSignature));
        if decide (sig ≠ CV_INFO_SIGNATURE_PDB70) then
          Throw (InvalidImage "unsupported PDB format, only version 7.0 is supported")
        else Ok (patches ++ pdb_patches cv)
    | None => Ok patches
    end.
Proof.
  intros Hdirs Hdir Hcount Hend.
  unfold patchDebugDataDirectories. rewrite Hdirs. simpl.
  assert (dir = entry dir 0) as Hd by (unfold entry; lia).
  rewrite Hd at 1. rewrite debug_loop_spec; [|done|lia|].
  - destruct (debug_outcome _ _ _ _ _) as [[[cv|] ps]|e|]; simpl; try done.
    destruct (of_option _) as [sig|e|]; simpl; try done.
    case_decide; [done|].
    unfold Patches_add, pdb_patches. by rewrite <- app_assoc.
  - rewrite Z2Nat.id by lia. done.
Qed.

(** X4.  On a debug directory array that lies inside the image and has
    no entry of CodeView type, [patchDebugDataDirectories] returns and
    adds one patch per entry with a nonzero timestamp and nothing else: no
    PDB signature and no PDB age patch. *)
Theorem X4_no_codeview_entry_only_timestamps (buf : list byte)
    (patches : list Patch) (T : OptHeader) (opt dir count : Z) :
  getDebugDataDirs buf T opt = Ok (dir, count) →
  0 <= dir → 0 <= count → entry dir count <= Zlen buf →
  codeview_entries buf dir 0 (Z.to_nat count) = [] →
  patchDebugDataDirectories buf patches T opt =
    Ok (patches ++ debug_timestamp_patches buf dir 0 (Z.to_nat count)).
Proof.
  intros Hdirs Hdir Hcount Hend Hcv.
  rewrite (patchDebugDataDirectories_loop _ _ _ _ _ _ Hdirs Hdir Hcount Hend).
  by rewrite Hcv.
Qed.

(** X5.  On a debug directory array that lies inside the image and has
    exactly one entry of CodeView type, the outcome is decided by the
    record the entry points at.  If the record is not a valid reference,
    [InvalidImage] "invalid CodeView debug entry location" is thrown.  If
    it is and its [CvSignature] is not ['RSDS'], [InvalidImage]
    "unsupported PDB format, only version 7.0 is supported" is thrown.
    Otherwise the function returns, and after the timestamp patches it
    has added the 16-byte PDB signature patch at offset 4 of the record
    and the 4-byte PDB age patch at offset 20, in this order. *)
Theorem X5_single_codeview_entry_outcome (buf : list byte)
    (patches : list Patch) (T : OptHeader) (opt dir count i : Z) :
  getDebugDataDirs buf T opt = Ok (dir, count) →
  0 <= dir → 0 <= count → entry dir count <= Zlen buf →
  codeview_entries buf dir 0 (Z.to_nat count) = [i] →
  let cvInfo := entry_PointerToRawData buf dir i in
  patchDebugDataDirectories buf patches T opt =
    if isValidRef buf cvInfo then
      match read32 buf (cvInfo + CvInfo_CvSignature) with
      | Some sig =>
          if decide (sig = CV_INFO_SIGNATURE_PDB70) then
            Ok (patches ++ debug_timestamp_patches buf dir 0 (Z.to_nat count)
                  ++ [mkPatch (cvInfo + 4) 16 ptr_pdbSignature "PDB Signature";
                      mkPatch (cvInfo + 20) 4 ptr_pdbAge "PDB Age"])
          else
            Throw (InvalidImage
                     "unsupported PDB format, only version 7.0 is supported")
      | None => Undefined
      end
    else Throw (InvalidImage "invalid CodeView debug entry location").
Proof.
  intros Hdirs Hdir Hcount Hend Hcv cvInfo.
  rewrite (patchDebugDataDirectories_loop _ _ _ _ _ _ Hdirs Hdir Hcount Hend).
  rewrite Hcv. simpl. fold cvInfo.
  destruct (isValidRef buf cvInfo); [|done]. simpl.
  destruct (read32 buf (cvInfo + CvInfo_CvSignature)) as [sig|]; [|done]. simpl.
  destruct (decide (sig = CV_INFO_SIGNATURE_PDB70)) as [->|Hne].
  - rewrite decide_False by (intros Hne; by apply Hne).
    by rewrite <- app_assoc.
  - by rewrite decide_True.
Qed.
End DebugOutcome.

(** X4 on [no_codeview_image]: the one nonzero timestamp is patched. *)
Lemma X4_no_codeview_entry_only_timestamps_witness :
  patchDebugDataDirectories (H := FlatPE.parser) no_codeview_image []
    IMAGE_OPTIONAL_HEADER32 88
  = Ok [mkPatch 388 4 ptr_timestamp "IMAGE_DEBUG_DIRECTORY.TimeDateStamp"].
Proof.
  rewrite (X4_no_codeview_entry_only_timestamps (H := FlatPE.parser)
             no_codeview_image [] IMAGE_OPTIONAL_HEADER32 88 384 2).
  - vm_compute. reflexivity.
  - vm_compute. reflexivity.
  - lia.
  - lia.
  - vm_compute. discriminate.
  - vm_compute. reflexivity.
Defined.

(** X5 on [sample_image], whose record is ['RSDS'], and on
    [old_format_image], whose record is ['NB10']. *)
Lemma X5_single_codeview_entry_outcome_witness :
  patchDebugDataDirectories (H := FlatPE.parser) sample_image []
    IMAGE_OPTIONAL_HEADER32 88
  = Ok [mkPatch 388 4 ptr_timestamp "IMAGE_DEBUG_DIRECTORY.TimeDateStamp";
        mkPatch 452 16 ptr_pdbSignature "PDB Signature";
        mkPatch 468 4 ptr_pdbAge "PDB Age"] ∧
  patchDebugDataDirectories (H := FlatPE.parser) old_format_image []
    IMAGE_OPTIONAL_HEADER32 88
  = Throw (InvalidImage "unsupported PDB format, only version 7.0 is supported").
Proof.
  split.
  - rewrite (X5_single_codeview_entry_outcome (H := FlatPE.parser)
               sample_image [] IMAGE_OPTIONAL_HEADER32 88 384 2 0).
    + vm_compute. reflexivity.
    + vm_compute. reflexivity.
    + lia.
    + lia.
    + vm_compute. discriminate.
    + vm_compute. reflexivity.
  - rewrite (X5_single_codeview_entry_outcome (H := FlatPE.parser)
               old_format_image [] IMAGE_OPTIONAL_HEADER32 88 384 2 0).
    + vm_compute. reflexivity.
    + vm_compute. reflexivity.
    + lia.
    + lia.
    + vm_compute. discriminate.
    + vm_compute. reflexivity.
Defined.

(** ** [patchOptionalHeader]: the patches of a successful call *)

Section OptionalHeaderPatches.
Context `{PEParser}.

(** When the loop returns, the record it has found is the one the only
    CodeView entry points at, and there is none without such an entry. *)
Lemma debug_loop_Ok_codeview buf dir n : ∀ k cvInfo patches cvInfo' patches',
  debug_loop buf n (entry dir k) cvInfo patches = Ok (cvInfo', patches') →
  match codeview_entries buf dir k n with
  | [] => cvInfo' = cvInfo
  | i :: rest =>
      cvInfo = None ∧ rest = [] ∧
      cvInfo' = Some (entry_PointerToRawData buf dir i) ∧
      isValidRef buf (entry_PointerToRawData buf dir i) = true
  end.
Proof.
  induction n as [|n IH]; intros k cvInfo patches cvInfo' patches' Hrun.
  - injection Hrun as <- _. done.
  - cbn [debug_loop] in Hrun.
    apply Result_bind_Ok in Hrun as (ts & _ & Hrun).
    apply Result_bind_Ok in Hrun as (ty & Hty & Hrun).
    apply of_option_Ok in Hty. rewrite entry_succ in Hrun.
    unfold codeview_entries.
    rewrite Nat2Z.inj_succ, seqZ_cons, Z.pred_succ, filter_cons by lia.
    replace (Z.succ k) with (k + 1) by lia.
    fold (codeview_entries buf dir (k + 1) n).
    assert (entry_Type buf dir k = ty) as Hek.
    { unfold entry_Type. by rewrite Hty. }
    rewrite Hek.
    destruct (decide (ty = IMAGE_DEBUG_TYPE_CODEVIEW)) as [Hcv|Hcv].
    + destruct cvInfo; [done|].
      apply Result_bind_Ok in Hrun as (ptr & Hptr & Hrun).
      apply of_option_Ok in Hptr.
      assert (entry_PointerToRawData buf dir k = ptr) as Hep.
      { unfold entry_PointerToRawData. by rewrite Hptr. }
      destruct (isValidRef buf ptr) eqn:Hvalid; [|done].
      apply IH in Hrun.
      destruct (codeview_entries buf dir (k + 1) n) as [|j rest].
      * rewrite Hep. done.
      * by destruct Hrun as [? _].
    + by apply IH in Hrun.
Qed.

(** X6.  When [patchOptionalHeader] returns, it has added, in this
    order: the patch of the [CheckSum] field at offset 64 of the optional
    header, whose replacement is [pe.timestamp] and not a checksum of the
    image; the export directory timestamp exactly when the export
    directory is present; the resource directory timestamp exactly when
    the resource directory is present; the timestamp patches of the debug
    directory entries; and the PDB signature and age patches of the record
    the CodeView entry points at, exactly when the debug directory has a
    CodeView entry.  There is then at most one CodeView entry, and its
    record is a valid reference whose [CvSignature] is ['RSDS']. *)
Theorem X6_patchOptionalHeader_patch_list (buf : list byte)
    (patches : list Patch) (T : OptHeader) (optional : Z)
    (patches' : list Patch) :
  patchOptionalHeader buf patches T optional = Ok patches' →
  ∃ exportDir resourceDir dir debugDirCount,
    getDataDir buf T optional IMAGE_DIRECTORY_ENTRY_EXPORT = Ok exportDir ∧
    getDataDir buf T optional IMAGE_DIRECTORY_ENTRY_RESOURCE = Ok resourceDir ∧
    getDebugDataDirs buf T optional = Ok (dir, debugDirCount) ∧
    let cvs := codeview_entries buf dir 0 (Z.to_nat debugDirCount) in
    let cvInfo := entry_PointerToRawData buf dir <$> head cvs in
    (Datatypes.length cvs <= 1)%nat ∧
    patches' =
      patches ++ [checksum_patch optional] ++ export_patch exportDir
        ++ resource_patch resourceDir
        ++ debug_timestamp_patches buf dir 0 (Z.to_nat debugDirCount)
        ++ from_option pdb_patches [] cvInfo ∧
    (∀ cv, cvInfo = Some cv →
       isValidRef buf cv = true ∧
       read32 buf (cv + CvInfo_CvSignature) = Some CV_INFO_SIGNATURE_PDB70) ∧
    ∀ pdbSignature,
      patch_bytes pdbSignature (checksum_patch optional) = le_encode 4 timestamp.
Proof.
  unfold patchOptionalHeader. intros Hrun.
  apply Result_bind_Ok in Hrun as (exportDir & Hexport & Hrun).
  apply Result_bind_Ok in Hrun as (resourceDir & Hresource & Hrun).
  destruct (patchDebugDataDirectories_dirs _ _ _ _ _ Hrun)
    as (dir & debugDirCount & Hdirs).
  destruct (patchDebugDataDirectories_Ok _ _ _ _ _ _ _ Hdirs Hrun)
    as (found & Hloop & -> & Hsig).
  assert (dir = entry dir 0) as Hd by (unfold entry; lia).
  rewrite Hd in Hloop at 1. apply debug_loop_Ok_codeview in Hloop.
  exists exportDir, resourceDir, dir, debugDirCount.
  do 3 (split; [done|]).
  set (cvs := codeview_entries buf dir 0 (Z.to_nat debugDirCount)) in *.
  set (cvInfo := entry_PointerToRawData buf dir <$> head cvs).
  assert ((Datatypes.length cvs <= 1)%nat ∧ found = cvInfo ∧
          ∀ cv, cvInfo = Some cv → isValidRef buf cv = true)
    as (Hone & -> & Hvalid).
  { unfold cvInfo. destruct cvs as [|i rest].
    - subst found. split_and!; [simpl; lia|done|done].
    - destruct Hloop as (_ & -> & -> & Hvalid).
      split_and!; [simpl; lia|done|]. by intros cv [= <-]. }
  split; [done|]. split; [|split; [|done]].
  - unfold Patches_add, checksum_patch, pdb_patches.
    destruct exportDir, resourceDir, cvInfo; simpl;
      rewrite <- ?app_assoc; simpl; done.
  - intros cv Hcv. split; [by apply Hvalid|]. by rewrite Hcv in Hsig.
Qed.
End OptionalHeaderPatches.

(** X6 on [sample_image], where both directories and a CodeView record
    are present, and on [no_codeview_image], where no signature or age
    patch is added. *)
Lemma X6_patchOptionalHeader_patch_list_witness :
  (∃ exportDir resourceDir dir debugDirCount,
    getDataDir (PEParser := FlatPE.parser) sample_image IMAGE_OPTIONAL_HEADER32
      88 IMAGE_DIRECTORY_ENTRY_EXPORT = Ok exportDir ∧
    getDataDir (PEParser := FlatPE.parser) sample_image IMAGE_OPTIONAL_HEADER32
      88 IMAGE_DIRECTORY_ENTRY_RESOURCE = Ok resourceDir ∧
    getDebugDataDirs (PEParser := FlatPE.parser) sample_image
      IMAGE_OPTIONAL_HEADER32 88 = Ok (dir, debugDirCount) ∧
    let cvs := codeview_entries sample_image dir 0 (Z.to_nat debugDirCount) in
    let cvInfo := entry_PointerToRawData sample_image dir <$> head cvs in
    (Datatypes.length cvs <= 1)%nat ∧
    [mkPatch 152 4 ptr_timestamp "OptionalHeader.CheckSum";
     mkPatch 324 4 ptr_timestamp "IMAGE_EXPORT_DIRECTORY.TimeDateStamp";
     mkPatch 372 4 ptr_timestamp "IMAGE_RESOURCE_DIRECTORY.TimeDateStamp";
     mkPatch 388 4 ptr_timestamp "IMAGE_DEBUG_DIRECTORY.TimeDateStamp";
     mkPatch 452 16 ptr_pdbSignature "PDB Signature";
     mkPatch 468 4 ptr_pdbAge "PDB Age"] =
      [] ++ [checksum_patch 88] ++ export_patch exportDir
        ++ resource_patch resourceDir
        ++ debug_timestamp_patches sample_image dir 0 (Z.to_nat debugDirCount)
        ++ from_option pdb_patches [] cvInfo ∧
    (∀ cv, cvInfo = Some cv →
       isValidRef (PEParser := FlatPE.parser) sample_image cv = true ∧
       read32 sample_image (cv + CvInfo_CvSignature)
         = Some CV_INFO_SIGNATURE_PDB70) ∧
    ∀ pdbSignature,
      patch_bytes (H := FlatPE.parser) pdbSignature (checksum_patch 88)
        = le_encode 4 timestamp) ∧
  (∃ exportDir resourceDir dir debugDirCount,
    getDataDir (PEParser := FlatPE.parser) no_codeview_image
      IMAGE_OPTIONAL_HEADER32 88 IMAGE_DIRECTORY_ENTRY_EXPORT = Ok exportDir ∧
    getDataDir (PEParser := FlatPE.parser) no_codeview_image
      IMAGE_OPTIONAL_HEADER32 88 IMAGE_DIRECTORY_ENTRY_RESOURCE
      = Ok resourceDir ∧
    getDebugDataDirs (PEParser := FlatPE.parser) no_codeview_image
      IMAGE_OPTIONAL_HEADER32 88 = Ok (dir, debugDirCount) ∧
    let cvs :=
      codeview_entries no_codeview_image dir 0 (Z.to_nat debugDirCount) in
    let cvInfo := entry_PointerToRawData no_codeview_image dir <$> head cvs in
    (Datatypes.length cvs <= 1)%nat ∧
    [mkPatch 152 4 ptr_timestamp "OptionalHeader.CheckSum";
     mkPatch 324 4 ptr_timestamp "IMAGE_EXPORT_DIRECTORY.TimeDateStamp";
     mkPatch 372 4 ptr_timestamp "IMAGE_RESOURCE_DIRECTORY.TimeDateStamp";
     mkPatch 388 4 ptr_timestamp "IMAGE_DEBUG_DIRECTORY.TimeDateStamp"] =
      [] ++ [checksum_patch 88] ++ export_patch exportDir
        ++ resource_patch resourceDir
        ++ debug_timestamp_patches no_codeview_image dir 0
             (Z.to_nat debugDirCount)
        ++ from_option pdb_patches [] cvInfo ∧
    (∀ cv, cvInfo = Some cv →
       isValidRef (PEParser := FlatPE.parser) no_codeview_image cv = true ∧
       read32 no_codeview_image (cv + CvInfo_CvSignature)
         = Some CV_INFO_SIGNATURE_PDB70) ∧
    ∀ pdbSignature,
      patch_bytes (H := FlatPE.parser) pdbSignature (checksum_patch 88)
        = le_encode 4 timestamp).
Proof.
  split.
  - apply (X6_patchOptionalHeader_patch_list (H := FlatPE.parser) sample_image
             [] IMAGE_OPTIONAL_HEADER32 88).
    vm_compute. reflexivity.
  - apply (X6_patchOptionalHeader_patch_list (H := FlatPE.parser)
             no_codeview_image [] IMAGE_OPTIONAL_HEADER32 88).
    vm_compute. reflexivity.
Defined.

(** ** [patchImageImpl]: an optional header of neither kind *)

Section UnsupportedMagic.
Context `{Md5} `{PEParser} `{Msf}.

(** X7.  When the [PEFile] constructor accepts the image and
    [pe.magic()] is neither the PE32 nor the PE32+ magic number, the run
    throws [InvalidImage] "unsupported IMAGE_NT_HEADERS.OptionalHeader"
    and changes nothing: the image is as it was, the PDB has not been
    opened and no temporary file has been created, with or without dry
    run. *)
Theorem X7_unsupported_magic_rejected_untouched (WIN32 : bool)
    (imagePath : string) (pdbPath : option string) (dryrun : bool)
    (w : World) (fileHeader : Z) :
  PEFile (image w) (Zlen (image w)) = Ok fileHeader →
  magic (image w) ≠ IMAGE_NT_OPTIONAL_HDR32_MAGIC →
  magic (image w) ≠ IMAGE_NT_OPTIONAL_HDR64_MAGIC →
  patchImageImpl WIN32 imagePath pdbPath dryrun w =
    (Throw (InvalidImage "unsupported IMAGE_NT_HEADERS.OptionalHeader"), w).
Proof.
  intros Hpe H32 H64. rewrite patchImageImpl_stages.
  unfold collectPatches. rewrite Hpe. simpl.
  by rewrite !decide_False.
Qed.
End UnsupportedMagic.

(** X7 on [zero_magic_image] next to the PDB of [sample_world]. *)
Lemma X7_unsupported_magic_rejected_untouched_witness :
  let w := set_image zero_magic_image sample_world in
  patchImageImpl (H := PolyHash) (H0 := FlatPE.parser) (H1 := SingleStreamMsf)
    false "app.exe" (Some "app.pdb") false w =
    (Throw (InvalidImage "unsupported IMAGE_NT_HEADERS.OptionalHeader"), w).
Proof.
  intros w.
  apply (X7_unsupported_magic_rejected_untouched (H := PolyHash)
           (H0 := FlatPE.parser) (H1 := SingleStreamMsf) false "app.exe"
           (Some "app.pdb") false w 68).
  - vm_compute. reflexivity.
  - vm_compute. discriminate.
  - vm_compute. discriminate.
Defined.

(** ** [patchPDB]: opening the files, reading the header, the result *)

Section PatchPDBOutcomes.
Context `{Md5} `{PEParser} `{Msf}.

Ltac patchPDB_cases :=
  unfold patchPDB, mbind, M_bind, openFile, remove, get_world, lift, throw,
    modify, mret, M_ret.

(** X8.  When there is no file at [pdbPath], [patchPDB] throws the system
    error "Failed to open PDB file" with the [errno] of the failed open,
    before the temporary file is created.  When the PDB is there and the
    temporary file cannot be created, it throws the system error "Failed
    to open file".  In both cases no file and no byte of the image has
    changed and nothing has been printed. *)
Theorem X8_patchPDB_open_failures (WIN32 : bool) (pdbPath : string)
    (pdbInfo : option Z) (signature : vec byte 16) (dryrun : bool)
    (w : World) :
  (files w !! pdbPath = None →
   patchPDB WIN32 pdbPath pdbInfo signature dryrun w =
     (Throw (system_error ENOENT "Failed to open PDB file"),
      set_errno ENOENT w)) ∧
  (is_Some (files w !! pdbPath) →
   getTempPdbPath pdbPath ∈ unwritable w →
   patchPDB WIN32 pdbPath pdbInfo signature dryrun w =
     (Throw (system_error EACCES "Failed to open file"),
      set_errno EACCES w)) ∧
  (∀ e, image (set_errno e w) = image w ∧ files (set_errno e w) = files w ∧
        stdout (set_errno e w) = stdout w).
Proof.
  split_and!.
  - intros Hnone. patchPDB_cases. by rewrite Hnone.
  - intros [content Hfile] Htmp. patchPDB_cases. rewrite Hfile.
    by rewrite decide_True.
  - done.
Qed.

(** X9.  When both files are open, the container has loaded and its
    header stream reports at least [sizeof(PdbStream70)] bytes but the
    read delivers another number of bytes, [patchPDB] throws [InvalidPdb]
    "missing PDB header"; the temporary file is empty and the PDB is as it
    was. *)
Theorem X9_patchPDB_short_read_rejected (WIN32 : bool) (pdbPath : string)
    (pdbInfo : option Z) (signature : vec byte 16) (dryrun : bool)
    (w : World) (content : list byte) (msf0 : MsfFile)
    (pdbHeaderStream : MsfStream) :
  files w !! pdbPath = Some content →
  getTempPdbPath pdbPath ∉ unwritable w →
  MsfFile_load content = Ok msf0 →
  getStream (replaceStream msf0 PdbStreamType_streamTable None)
    PdbStreamType_header = Some pdbHeaderStream →
  sizeof_PdbStream70 <= stream_length pdbHeaderStream →
  Zlen (stream_read pdbHeaderStream sizeof_PdbStream70) ≠ sizeof_PdbStream70 →
  patchPDB WIN32 pdbPath pdbInfo signature dryrun w =
    (Throw (InvalidPdb "missing PDB header"), opened pdbPath w) ∧
  files (opened pdbPath w) !! pdbPath = Some content ∧
  files (opened pdbPath w) !! getTempPdbPath pdbPath = Some [].
Proof.
  intros Hfile Htmp Hload Hs Hlen Hread.
  split_and!; [|by rewrite opened_lookup_pdb|apply opened_lookup_tmp].
  patchPDB_open Hfile Htmp. rewrite Hload, Hs.
  rewrite decide_False by lia. by rewrite decide_True.
Qed.

(** X10.  Whenever [patchPDB] throws [InvalidPdb], it has opened both
    files and done nothing else: the temporary file has been created and
    is empty, and it is not removed; every other file, the image and the
    output are as they were. *)
Theorem X10_patchPDB_InvalidPdb_leaves_empty_temporary (WIN32 : bool)
    (pdbPath : string) (pdbInfo : option Z) (signature : vec byte 16)
    (dryrun : bool) (w : World) (what : string) (w' : World) :
  patchPDB WIN32 pdbPath pdbInfo signature dryrun w
    = (Throw (InvalidPdb what), w') →
  w' = opened pdbPath w ∧
  files w' !! getTempPdbPath pdbPath = Some [] ∧
  (∀ q, q ≠ getTempPdbPath pdbPath → files w' !! q = files w !! q) ∧
  image w' = image w ∧ stdout w' = stdout w.
Proof.
  intros Hrun.
  assert (w' = opened pdbPath w) as ->.
  { revert Hrun. patchPDB_cases. intros Hrun.
    by repeat (case_match; simplify_eq). }
  split_and!; [done|apply opened_lookup_tmp| |done|done].
  intros q Hq. unfold opened. simpl. by rewrite lookup_insert_ne.
Qed.

(** X11.  When the header of the PDB has been accepted and the
    signatures match, [patchPDB] prints the timestamp and the age of the
    PDB header and writes the container to the temporary file.  It then
    returns, except in a dry run without [_WIN32] in which the temporary
    file cannot be deleted.  The PDB itself keeps its content in every
    mode; outside a dry run the rewritten container stays in the
    temporary file, since nothing renames it over the PDB. *)
Theorem X11_patchPDB_success_keeps_original_PDB (WIN32 : bool)
    (pdbPath : string) (pdbInfo : option Z) (signature : vec byte 16)
    (dryrun : bool) (w : World) (content : list byte) (msf : MsfFile)
    (pdbHeader : PdbStream70) (p : Z) (cv : CV_INFO_PDB70) :
  files w !! pdbPath = Some content →
  getTempPdbPath pdbPath ∉ unwritable w →
  header_accepted content msf pdbHeader →
  pdbInfo = Some p → load_CV_INFO_PDB70 (image w) p = Some cv →
  matchingSignatures cv pdbHeader = true →
  (WIN32 = false → dryrun = true → getTempPdbPath pdbPath ∉ undeletable w) →
  ∃ w', patchPDB WIN32 pdbPath pdbInfo signature dryrun w = (Ok (), w') ∧
    stdout w' = stdout w ++ [("PDB Timestamp: ", pdb_timestamp pdbHeader);
                             ("PDB Age: ", age pdbHeader)] ∧
    files w' !! pdbPath = Some content ∧
    files w' !! getTempPdbPath pdbPath =
      (if negb WIN32 && dryrun then None else Some (msf_write msf)) ∧
    image w' = image w.
Proof.
  intros Hfile Htmp (msf0 & s & Hload & -> & Hs & Hlen & Hread & -> & Hver)
    -> Hcv Hm Hdel.
  pose proof (getTempPdbPath_ne pdbPath) as Hne.
  destruct WIN32, dryrun; eexists; (split; [
    patchPDB_open Hfile Htmp; rewrite Hload, Hs;
    rewrite decide_False by lia;
    rewrite decide_False by (intros Hne'; by apply Hne');
    rewrite decide_False by lia;
    cbn [image opened set_files]; rewrite Hcv; cbn [of_option]; rewrite Hm;
    cbn [negb]; unfold remove;
    cbn [image files unwritable undeletable errno set_files set_errno print];
    rewrite ?lookup_insert_eq;
    rewrite ?(decide_False _ _ (Hdel eq_refl eq_refl));
    rewrite ?decide_False by (intros Hne'; by apply Hne');
    reflexivity
  | cbn [image files stdout unwritable undeletable errno set_files set_errno
         print negb andb];
    rewrite <- ?app_assoc;
    rewrite ?lookup_delete_eq, ?lookup_delete_ne, ?lookup_insert_eq,
      ?lookup_insert_ne by done;
    rewrite ?opened_lookup_pdb;
    (split_and!; done) ]).
Qed.

(** X12.  In a dry run without [_WIN32], when the header has been
    accepted and the signatures match but the temporary file cannot be
    deleted, [patchPDB] throws the system error "Failed to delete
    temporary PDB" after it has printed both lines; the temporary file
    holds the rewritten container and the PDB is as it was. *)
Theorem X12_patchPDB_delete_failure (pdbPath : string) (pdbInfo : option Z)
    (signature : vec byte 16) (w : World) (content : list byte)
    (msf : MsfFile) (pdbHeader : PdbStream70) (p : Z) (cv : CV_INFO_PDB70) :
  files w !! pdbPath = Some content →
  getTempPdbPath pdbPath ∉ unwritable w →
  header_accepted content msf pdbHeader →
  pdbInfo = Some p → load_CV_INFO_PDB70 (image w) p = Some cv →
  matchingSignatures cv pdbHeader = true →
  getTempPdbPath pdbPath ∈ undeletable w →
  ∃ w', patchPDB false pdbPath pdbInfo signature true w
          = (Throw (system_error EACCES "Failed to delete temporary PDB"), w') ∧
    stdout w' = stdout w ++ [("PDB Timestamp: ", pdb_timestamp pdbHeader);
                             ("PDB Age: ", age pdbHeader)] ∧
    files w' !! pdbPath = Some content ∧
    files w' !! getTempPdbPath pdbPath = Some (msf_write msf) ∧
    image w' = image w.
Proof.
  intros Hfile Htmp (msf0 & s & Hload & -> & Hs & Hlen & Hread & -> & Hver)
    -> Hcv Hm Hdel.
  pose proof (getTempPdbPath_ne pdbPath) as Hne.
  eexists. split.
  - patchPDB_open Hfile Htmp. rewrite Hload, Hs.
    rewrite decide_False by lia.
    rewrite decide_False by (intros Hne'; by apply Hne').
    rewrite decide_False by lia.
    cbn [image opened set_files]. rewrite Hcv. cbn [of_option]. rewrite Hm.
    cbn [negb]. unfold remove.
    cbn [image files unwritable undeletable errno set_files set_errno print].
    rewrite lookup_insert_eq. rewrite decide_True by done.
    rewrite decide_True by done.
    cbn [image files unwritable undeletable errno set_files set_errno print].
    reflexivity.
  - cbn [image files stdout unwritable undeletable errno set_files set_errno
         print].
    rewrite <- ?app_assoc.
    rewrite ?lookup_insert_eq, ?lookup_insert_ne by done.
    rewrite ?opened_lookup_pdb.
    split_and!; done.
Qed.
End PatchPDBOutcomes.

(** X8 on [sample_world] with a PDB path that does not exist, and on
    [unwritable_world]. *)
Lemma X8_patchPDB_open_failures_witness :
  patchPDB (H1 := SingleStreamMsf)
    false "missing.pdb" (Some 448) sample_signature false sample_world
  = (Throw (system_error ENOENT "Failed to open PDB file"),
     set_errno ENOENT sample_world) ∧
  patchPDB (H1 := SingleStreamMsf)
    false "app.pdb" (Some 448) sample_signature false unwritable_world
  = (Throw (system_error EACCES "Failed to open file"),
     set_errno EACCES unwritable_world).
Proof.
  split.
  - apply (proj1 (X8_patchPDB_open_failures (H1 := SingleStreamMsf)
             false "missing.pdb" (Some 448) sample_signature false
             sample_world)).
    reflexivity.
  - apply (proj1 (proj2 (X8_patchPDB_open_failures (H1 := SingleStreamMsf)
             false "app.pdb" (Some 448) sample_signature false
             unwritable_world))).
    + exists sample_pdb. reflexivity.
    + apply (bool_decide_unpack (_ ∈ _)). vm_compute. exact I.
Defined.

(** X9 on [truncated_world], read through a container that promises 28
    bytes and delivers three. *)
Lemma X9_patchPDB_short_read_rejected_witness :
  patchPDB (H1 := PromisingMsf)
    false "app.pdb" (Some 448) sample_signature false truncated_world
  = (Throw (InvalidPdb "missing PDB header"), opened "app.pdb" truncated_world) ∧
  files (opened "app.pdb" truncated_world) !! "app.pdb" = Some [x01; x02; x03] ∧
  files (opened "app.pdb" truncated_world) !! getTempPdbPath "app.pdb" = Some [].
Proof.
  apply (X9_patchPDB_short_read_rejected (H1 := PromisingMsf)
           false "app.pdb" (Some 448) sample_signature false truncated_world
           [x01; x02; x03] [x01; x02; x03] (mkMsfStream 28 [x01; x02; x03])).
  - reflexivity.
  - vm_compute. intros Hin. discriminate Hin.
  - reflexivity.
  - reflexivity.
  - vm_compute. discriminate.
  - vm_compute. discriminate.
Defined.

(** X10 on [truncated_world]: the header stream is too short, and the
    empty temporary file stays behind. *)
Lemma X10_patchPDB_InvalidPdb_leaves_empty_temporary_witness :
  let run := patchPDB (H1 := SingleStreamMsf)
               false "app.pdb" (Some 448) sample_signature true
               truncated_world in
  run.1 = Throw (InvalidPdb "missing PDB 7.0 header") ∧
  files run.2 !! getTempPdbPath "app.pdb" = Some [] ∧
  stdout run.2 = stdout truncated_world.
Proof.
  intros run.
  assert (run = (Throw (InvalidPdb "missing PDB 7.0 header"), run.2)) as Hrun
    by (vm_compute; reflexivity).
  destruct (X10_patchPDB_InvalidPdb_leaves_empty_temporary
              (H1 := SingleStreamMsf) false "app.pdb" (Some 448)
              sample_signature true truncated_world
              "missing PDB 7.0 header" run.2 Hrun)
    as (_ & Htmp & _ & _ & Hout).
  split_and!; [vm_compute; reflexivity|exact Htmp|exact Hout].
Defined.

(** X11 on [sample_world], outside a dry run: the PDB is as it was and
    the rewritten container is in ["app.pdb.tmp"]. *)
Lemma X11_patchPDB_success_keeps_original_PDB_witness :
  ∃ w', patchPDB (H1 := SingleStreamMsf)
          false "app.pdb" (Some 448) sample_signature false sample_world
          = (Ok (), w') ∧
    stdout w' = stdout sample_world ++
      [("PDB Timestamp: ", pdb_timestamp (decode_PdbStream70 sample_pdb));
       ("PDB Age: ", age (decode_PdbStream70 sample_pdb))] ∧
    files w' !! "app.pdb" = Some sample_pdb ∧
    files w' !! getTempPdbPath "app.pdb" = Some sample_pdb ∧
    image w' = image sample_world.
Proof.
  apply (X11_patchPDB_success_keeps_original_PDB (H1 := SingleStreamMsf)
           false "app.pdb" (Some 448) sample_signature false sample_world
           sample_pdb sample_pdb (decode_PdbStream70 sample_pdb) 448
           (mkCvInfo CV_INFO_SIGNATURE_PDB70 (slice_vec sample_image 452 16) 7)).
  - reflexivity.
  - vm_compute. intros Hin. discriminate Hin.
  - exists sample_pdb, (mkMsfStream (Zlen sample_pdb) sample_pdb).
    split_and!; vm_compute; try reflexivity; discriminate.
  - reflexivity.
  - vm_compute. reflexivity.
  - vm_compute. reflexivity.
  - intros _ Hdry. discriminate Hdry.
Defined.

(** X12 on [undeletable_world]. *)
Lemma X12_patchPDB_delete_failure_witness :
  ∃ w', patchPDB (H1 := SingleStreamMsf)
          false "app.pdb" (Some 448) sample_signature true undeletable_world
          = (Throw (system_error EACCES "Failed to delete temporary PDB"), w') ∧
    stdout w' = stdout undeletable_world ++
      [("PDB Timestamp: ", pdb_timestamp (decode_PdbStream70 sample_pdb));
       ("PDB Age: ", age (decode_PdbStream70 sample_pdb))] ∧
    files w' !! "app.pdb" = Some sample_pdb ∧
    files w' !! getTempPdbPath "app.pdb" = Some sample_pdb ∧
    image w' = image undeletable_world.
Proof.
  apply (X12_patchPDB_delete_failure (H1 := SingleStreamMsf)
           "app.pdb" (Some 448) sample_signature undeletable_world
           sample_pdb sample_pdb (decode_PdbStream70 sample_pdb) 448
           (mkCvInfo CV_INFO_SIGNATURE_PDB70 (slice_vec sample_image 452 16) 7)).
  - reflexivity.
  - vm_compute. intros Hin. discriminate Hin.
  - exists sample_pdb, (mkMsfStream (Zlen sample_pdb) sample_pdb).
    split_and!; vm_compute; try reflexivity; discriminate.
  - reflexivity.
  - vm_compute. reflexivity.
  - vm_compute. reflexivity.
  - apply (bool_decide_unpack (_ ∈ _)). vm_compute. exact I.
Defined.

(** ** [patchImageImpl]: what a run changes *)

Section ApplyWorld.
Context `{PEParser}.

(** [apply] changes the image and nothing else. *)
Lemma apply_loop_world sig dry ps : ∀ prev w r w',
  apply_loop sig dry prev ps w = (r, w') →
  w' = set_image (image w') w.
Proof.
  induction ps as [|p rest IH]; intros prev w r w' Hrun.
  - cbn in Hrun. injection Hrun as _ <-. by destruct w.
  - rewrite apply_loop_cons in Hrun. case_decide.
    + apply IH in Hrun. rewrite Hrun at 1. by destruct dry.
    + injection Hrun as _ <-. by destruct w.
Qed.

(** Whether [apply] returns or throws depends on the length of the image
    only, not on its bytes and not on [dryRun]. *)
Lemma apply_loop_result sig ps : ∀ dry1 dry2 prev w1 w2,
  0 <= prev →
  Zlen (image w1) = Zlen (image w2) →
  (apply_loop sig dry1 prev ps w1).1 = (apply_loop sig dry2 prev ps w2).1.
Proof.
  induction ps as [|p rest IH]; intros dry1 dry2 prev w1 w2 Hprev HZ; [done|].
  rewrite !apply_loop_cons. rewrite <- HZ.
  case_decide as Hin; [|done].
  pose proof (patch_bytes_Zlen sig p ltac:(lia)) as Hlen.
  apply IH; [lia|].
  destruct dry1, dry2; cbn [image set_image];
    rewrite ?mem_write_Zlen by lia; done.
Qed.
End ApplyWorld.

Section PatchPDBDryRun.
Context `{Md5} `{PEParser} `{Msf}.

(** A dry run of [patchPDB] has the result of the real run, unless the
    temporary file cannot be deleted. *)
Lemma patchPDB_dryrun_result WIN32 pdbPath pdbInfo signature w :
  (WIN32 = false → getTempPdbPath pdbPath ∉ undeletable w) →
  (patchPDB WIN32 pdbPath pdbInfo signature true w).1
    = (patchPDB WIN32 pdbPath pdbInfo signature false w).1.
Proof.
  intros Hdel.
  unfold patchPDB, mbind, M_bind, openFile, remove, get_world, lift, throw,
    modify, mret, M_ret.
  repeat (case_match; simplify_eq; try done);
    cbn [image files unwritable undeletable errno set_files set_errno print] in *;
    rewrite ?lookup_insert_eq in *; simplify_eq.
  all: exfalso; by apply Hdel.
Qed.
End PatchPDBDryRun.

Section RunEffects.
Context `{Md5} `{PEParser} `{Msf}.

(** The stage at which the patches are applied, when the run gets there. *)
Lemma patchImageImpl_apply_stage WIN32 imagePath pdbPath dryrun w r w' :
  patchImageImpl WIN32 imagePath pdbPath dryrun w = (r, w') →
  (w' = w ∧ r ≠ Ok ()) ∨
  (∃ p pdbInfo signature,
     pdbPath = Some p ∧ r ≠ Ok () ∧
     patchPDB WIN32 p pdbInfo signature dryrun w = (r, w')) ∨
  ∃ pdbInfo patches pdbSignature wm,
    collectPatches (image w) (Zlen (image w)) = Ok (pdbInfo, patches) ∧
    calculateChecksum (image w) (Zlen (image w)) (Patches_sort patches)
      = Some pdbSignature ∧
    match pdbPath with
    | Some p => patchPDB WIN32 p pdbInfo pdbSignature dryrun w = (Ok (), wm)
    | None => wm = w
    end ∧
    Patches_apply pdbSignature (Patches_sort patches) dryrun wm = (r, w').
Proof.
  rewrite patchImageImpl_stages. intros Hrun.
  destruct (collectPatches _ _) as [[pdbInfo patches]|e|] eqn:Hcol;
    [|left; by simplify_eq..].
  destruct (calculateChecksum _ _ _) as [sig|] eqn:Hsum;
    [|left; by simplify_eq].
  destruct pdbPath as [p|].
  - destruct (patchPDB WIN32 p pdbInfo sig dryrun w) as [[[]|e|] wm] eqn:Hpdb.
    + right. right. by exists pdbInfo, patches, sig, wm.
    + right. left. exists p, pdbInfo, sig. by simplify_eq.
    + right. left. exists p, pdbInfo, sig. by simplify_eq.
  - right. right. by exists pdbInfo, patches, sig, w.
Qed.

(** X13.  No run of [patchImageImpl], dry or not, with or without
    [_WIN32], changes a file other than the temporary file next to the
    PDB; in particular the PDB itself is never replaced by the rewritten
    container.  Without a PDB path no file changes and nothing is
    printed. *)
Theorem X13_run_never_replaces_the_PDB (WIN32 : bool) (imagePath : string)
    (pdbPath : option string) (dryrun : bool) (w : World) (r : Result ())
    (w' : World) :
  patchImageImpl WIN32 imagePath pdbPath dryrun w = (r, w') →
  (∀ q, (∀ p, pdbPath = Some p → q ≠ getTempPdbPath p) →
     files w' !! q = files w !! q) ∧
  (∀ p, pdbPath = Some p → files w' !! p = files w !! p) ∧
  (pdbPath = None → files w' = files w ∧ stdout w' = stdout w).
Proof.
  intros Hrun.
  assert (Hfiles : ∀ q, (∀ p, pdbPath = Some p → q ≠ getTempPdbPath p) →
            files w' !! q = files w !! q).
  { intros q Hq.
    destruct (patchImageImpl_apply_stage _ _ _ _ _ _ _ Hrun)
      as [[-> _]|[(p & pdbInfo & sig & -> & _ & Hpdb)
                 |(pdbInfo & patches & sig & wm & _ & _ & Hpdb & Happly)]].
    - done.
    - apply patchPDB_frame in Hpdb as (_ & _ & _ & Hf). by apply Hf, Hq.
    - apply apply_loop_world in Happly. rewrite Happly. cbn [files set_image].
      destruct pdbPath as [p|]; [|by subst].
      apply patchPDB_frame in Hpdb as (_ & _ & _ & Hf). by apply Hf, Hq. }
  split_and!; [done| |].
  - intros p ->. apply Hfiles. intros p' [= <-] Heq.
    by apply (getTempPdbPath_ne p).
  - intros ->.
    destruct (patchImageImpl_apply_stage _ _ _ _ _ _ _ Hrun)
      as [[-> _]|[(p & pdbInfo & sig & [=] & _)
                 |(pdbInfo & patches & sig & wm & _ & _ & -> & Happly)]];
      [done|].
    apply apply_loop_world in Happly. by rewrite Happly.
Qed.

(** X14.  Every run of [patchImageImpl], whatever its outcome, leaves the
    image at its length and leaves every byte outside the ranges of the
    collected patches as it was; when the analysis does not return, the
    image is not changed at all. *)
Theorem X14_run_changes_only_patched_ranges (WIN32 : bool)
    (imagePath : string) (pdbPath : option string) (dryrun : bool)
    (w : World) (r : Result ()) (w' : World) :
  patchImageImpl WIN32 imagePath pdbPath dryrun w = (r, w') →
  Zlen (image w') = Zlen (image w) ∧
  (∀ pdbInfo patches,
     collectPatches (image w) (Zlen (image w)) = Ok (pdbInfo, patches) →
     ∀ j, 0 <= j → ¬ covered patches j →
       image w' !! Z.to_nat j = image w !! Z.to_nat j) ∧
  ((∀ pdbInfo patches,
      collectPatches (image w) (Zlen (image w)) ≠ Ok (pdbInfo, patches)) →
   image w' = image w).
Proof.
  intros Hrun.
  destruct (patchImageImpl_apply_stage _ _ _ _ _ _ _ Hrun)
    as [[-> _]|[(p & pdbInfo & sig & -> & _ & Hpdb)
               |(pdbInfo & patches & sig & wm & Hcol & _ & Hpdb & Happly)]].
  - done.
  - apply patchPDB_frame in Hpdb as (-> & _). done.
  - assert (image wm = image w) as Hwm.
    { destruct pdbPath as [p|]; [|by subst].
      by apply patchPDB_frame in Hpdb as (? & _). }
    unfold Patches_apply in Happly.
    apply apply_loop_frame in Happly as [HZ Hframe]; [|lia].
    rewrite Hwm in HZ, Hframe. split_and!; [done| |].
    + intros pdbInfo' patches' Hcol' j Hj Hnc.
      rewrite Hcol in Hcol'. injection Hcol' as <- <-. apply Hframe; [done|].
      by rewrite (covered_perm _ _ _ (Patches_sort_perm _)).
    + intros Hno. by destruct (Hno pdbInfo patches).
Qed.

(** X15.  After a run that has patched an image shorter than 2^64 bytes
    and returned, every collected patch range holds the bytes of its
    patch, and the checksum of the patched image over the same patches is
    the signature the run has computed on the unpatched image: the PDB
    signature stored in the image can be recomputed from the image
    itself. *)
Theorem X15_stored_signature_is_checksum_of_result (WIN32 : bool)
    (imagePath : string) (pdbPath : option string) (w w' : World) :
  Zlen (image w) < SIZE_MAX1 →
  patchImageImpl WIN32 imagePath pdbPath false w = (Ok (), w') →
  ∃ pdbInfo patches pdbSignature,
    collectPatches (image w) (Zlen (image w)) = Ok (pdbInfo, patches) ∧
    calculateChecksum (image w') (Zlen (image w')) (Patches_sort patches)
      = Some pdbSignature ∧
    (∀ p, p ∈ patches →
       slice (image w') (offset p) (length p) = patch_bytes pdbSignature p) ∧
    (∀ p, p ∈ patches → data p = ptr_pdbSignature →
       slice (image w') (offset p) 16 = vec_to_list pdbSignature).
Proof.
  intros Hmax Hrun.
  destruct (patchImageImpl_apply_stage _ _ _ _ _ _ _ Hrun)
    as [[_ Hr]|[(p & pdbInfo & sig & _ & Hr & _)
               |(pdbInfo & patches & sig & wm & Hcol & Hsum & Hpdb & Happly)]];
    [done..|].
  assert (image wm = image w) as Hwm.
  { destruct pdbPath as [p|]; [|by subst].
    by apply patchPDB_frame in Hpdb as (? & _). }
  set (S := Patches_sort patches) in *.
  unfold Patches_apply in Happly.
  pose proof (Zlen_nonneg (image wm)) as Hlen0.
  pose proof (apply_loop_Ok_chain _ _ _ _ _ _ Happly ltac:(lia)) as Hchain.
  pose proof (apply_loop_frame _ _ _ 0 _ _ _ ltac:(lia) Happly) as [HZ Hframe].
  rewrite Hwm in Hchain, HZ, Hframe.
  assert (Forall registered S) as Hreg.
  { unfold S. rewrite Patches_sort_perm. by eapply collectPatches_registered. }
  assert (Forall (λ p, Zlen (patch_bytes sig p) = length p) S) as Hlens.
  { eapply Forall_impl; [exact Hreg|]. intros p. apply patch_bytes_registered. }
  pose proof (apply_loop_written _ _ 0 _ _ ltac:(lia) Happly Hlens) as Hwritten.
  assert (∀ p, p ∈ patches →
            slice (image w') (offset p) (length p) = patch_bytes sig p) as Hwr.
  { intros p Hp. rewrite Forall_forall in Hwritten. apply Hwritten.
    unfold S. by rewrite Patches_sort_perm. }
  exists pdbInfo, patches, sig. split_and!; [done| |done|].
  - rewrite <- Hsum. rewrite HZ.
    rewrite !calculateChecksum_chunks by done. do 2 f_equal.
    symmetry. apply unpatched_chunks_ext; [done|done|].
    intros i Hi [_ Hnc]. symmetry. by apply Hframe.
  - intros p Hp Hdata.
    assert (registered p) as Hrp.
    { eapply Forall_forall; [by eapply collectPatches_registered|done]. }
    specialize (Hwr p Hp).
    destruct Hrp as [(Hd & _)|[(_ & Hl & _)|(Hd & _)]]; [congruence| |congruence].
    rewrite Hl in Hwr. rewrite Hwr. unfold patch_bytes. rewrite Hdata, Hl.
    cbn [patch_data]. apply take_ge. rewrite length_vec_to_list. lia.
Qed.

(** X16.  A dry run changes no byte of the image, with or without
    [_WIN32], and it ends as the real run on the same input ends, with
    the same exception if any; the one exception to this is a temporary
    file that cannot be deleted, in a build without [_WIN32]. *)
Theorem X16_dry_run_predicts_the_real_run (WIN32 : bool) (imagePath : string)
    (pdbPath : option string) (w : World) :
  (WIN32 = false →
   ∀ p, pdbPath = Some p → getTempPdbPath p ∉ undeletable w) →
  image (patchImageImpl WIN32 imagePath pdbPath true w).2 = image w ∧
  (patchImageImpl WIN32 imagePath pdbPath true w).1
    = (patchImageImpl WIN32 imagePath pdbPath false w).1.
Proof.
  intros Hdel. rewrite !patchImageImpl_stages.
  destruct (collectPatches _ _) as [[pdbInfo patches]|e|]; [|done..].
  destruct (calculateChecksum _ _ _) as [sig|]; [|done].
  unfold Patches_apply.
  destruct pdbPath as [p|].
  - pose proof (patchPDB_dryrun_result WIN32 p pdbInfo sig w) as Hsame.
    destruct (patchPDB WIN32 p pdbInfo sig true w) as [r1 w1] eqn:Hdry.
    destruct (patchPDB WIN32 p pdbInfo sig false w) as [r2 w2] eqn:Hreal.
    cbn [fst] in Hsame. rewrite <- Hsame by (intros HW; by apply Hdel).
    apply patchPDB_frame in Hdry as (Hi1 & _).
    apply patchPDB_frame in Hreal as (Hi2 & _).
    destruct r1 as [[]|e|]; [|done..]. split.
    + destruct (apply_loop sig true 0 (Patches_sort patches) w1)
        as [r w1'] eqn:Happly.
      apply apply_loop_dryrun in Happly. cbn [snd]. congruence.
    + apply apply_loop_result; [lia|congruence].
  - split.
    + destruct (apply_loop sig true 0 (Patches_sort patches) w)
        as [r w1'] eqn:Happly.
      apply apply_loop_dryrun in Happly. cbn [snd]. congruence.
    + by apply apply_loop_result.
Qed.
End RunEffects.

(** X13 on [sample_world], outside a dry run: the PDB holds what it
    held. *)
Lemma X13_run_never_replaces_the_PDB_witness :
  let run := patchImageImpl (H := PolyHash) (H0 := FlatPE.parser)
               (H1 := SingleStreamMsf) false "app.exe" (Some "app.pdb")
               false sample_world in
  files run.2 !! "app.pdb" = files sample_world !! "app.pdb".
Proof.
  intros run.
  destruct (X13_run_never_replaces_the_PDB (H := PolyHash)
              (H0 := FlatPE.parser) (H1 := SingleStreamMsf) false "app.exe"
              (Some "app.pdb") false sample_world run.1 run.2)
    as (_ & Hpdb & _).
  - apply surjective_pairing.
  - exact (Hpdb "app.pdb" eq_refl).
Defined.

(** X14 on [sample_world]: the DOS header at offset 0 lies in no patch
    and keeps its first byte. *)
Lemma X14_run_changes_only_patched_ranges_witness :
  let run := patchImageImpl (H := PolyHash) (H0 := FlatPE.parser)
               (H1 := SingleStreamMsf) false "app.exe" None false
               sample_world in
  Zlen (image run.2) = Zlen (image sample_world) ∧
  image run.2 !! Z.to_nat 0 = image sample_world !! Z.to_nat 0.
Proof.
  intros run.
  destruct (X14_run_changes_only_patched_ranges (H := PolyHash)
              (H0 := FlatPE.parser) (H1 := SingleStreamMsf) false "app.exe"
              None false sample_world run.1 run.2)
    as (HZ & Hframe & _).
  - apply surjective_pairing.
  - split; [exact HZ|].
    apply (Hframe (Some 448) sample_patches).
    + vm_compute. reflexivity.
    + lia.
    + apply (unpatchedb_spec sample_patches 0 1); [vm_compute; reflexivity|lia].
Defined.

(** X15 on [sample_world] and the image the run leaves. *)
Lemma X15_stored_signature_is_checksum_of_result_witness :
  ∃ pdbInfo patches pdbSignature,
    collectPatches (H := FlatPE.parser) (image sample_world)
      (Zlen (image sample_world)) = Ok (pdbInfo, patches) ∧
    calculateChecksum (H := PolyHash) (image patched_world)
      (Zlen (image patched_world)) (Patches_sort patches) = Some pdbSignature ∧
    (∀ p, p ∈ patches →
       slice (image patched_world) (offset p) (length p)
         = patch_bytes (H := FlatPE.parser) pdbSignature p) ∧
    (∀ p, p ∈ patches → data p = ptr_pdbSignature →
       slice (image patched_world) (offset p) 16 = vec_to_list pdbSignature).
Proof.
  apply (X15_stored_signature_is_checksum_of_result (H := PolyHash)
           (H0 := FlatPE.parser) (H1 := SingleStreamMsf) false "app.exe" None
           sample_world patched_world).
  - vm_compute. reflexivity.
  - vm_compute. reflexivity.
Defined.

(** X16 on [sample_world] with its PDB, without [_WIN32]. *)
Lemma X16_dry_run_predicts_the_real_run_witness :
  image (patchImageImpl (H := PolyHash) (H0 := FlatPE.parser)
           (H1 := SingleStreamMsf) false "app.exe" (Some "app.pdb") true
           sample_world).2 = image sample_world ∧
  (patchImageImpl (H := PolyHash) (H0 := FlatPE.parser)
     (H1 := SingleStreamMsf) false "app.exe" (Some "app.pdb") true
     sample_world).1
    = (patchImageImpl (H := PolyHash) (H0 := FlatPE.parser)
         (H1 := SingleStreamMsf) false "app.exe" (Some "app.pdb") false
         sample_world).1.
Proof.
  apply (X16_dry_run_predicts_the_real_run (H := PolyHash)
           (H0 := FlatPE.parser) (H1 := SingleStreamMsf) false "app.exe"
           (Some "app.pdb") sample_world).
  intros _ p Hp. injection Hp as <-.
  vm_compute. intros Hin. discriminate Hin.
Defined.

(** ** [calculateChecksum] before [apply] *)

Section ChecksumGuardsApply.
Context `{Md5} `{PEParser} `{Msf}.

(** X17.  With no patch at all, [calculateChecksum] hashes the whole
    buffer in one [md5_update]; the loop body never runs. *)
Theorem X17_calculateChecksum_without_patches (buf : list byte) :
  Zlen buf < SIZE_MAX1 →
  calculateChecksum buf (Zlen buf) [] =
    Some (md5_finish (md5_update md5_starts buf)).
Proof.
  intros Hmax. pose proof (Zlen_nonneg buf) as Hlen.
  unfold calculateChecksum. cbn [checksum_loop].
  rewrite size_t_wrap_small by lia.
  rewrite mem_read_Some by lia.
  unfold slice. rewrite Z.sub_0_r. cbn [Z.to_nat drop].
  unfold Zlen. rewrite Nat2Z.id. by rewrite firstn_all.
Qed.

Lemma apply_loop_chain sig dry ps : ∀ prev w,
  0 <= prev → chain_ok prev (Zlen (image w)) ps →
  ∃ w', apply_loop sig dry prev ps w = (Ok (), w').
Proof.
  induction ps as [|p rest IH]; intros prev w Hprev Hchain.
  - by eexists.
  - destruct Hchain as (Hle & Hl & Hchain).
    pose proof (chain_ok_pos_le _ _ _ Hchain) as Hend.
    pose proof (patch_bytes_Zlen sig p Hl) as Hlen.
    rewrite apply_loop_cons. rewrite decide_True by lia.
    apply IH; [lia|].
    destruct dry; cbn [image set_image]; rewrite ?mem_write_Zlen by lia; done.
Qed.

(** X18.  On an image shorter than 2^64 bytes whose collected patches
    are [size_t] ranges, a run without PDB that has got past the analysis
    either returns normally or has read outside the image in
    [calculateChecksum]: a patch list that is out of order after sorting,
    overlaps or leaves the image makes the checksum walk leave the buffer
    before the patches are applied, so applying them never fails. *)
Theorem X18_checksum_walk_precedes_patch_validation (WIN32 : bool)
    (imagePath : string) (dryrun : bool) (w : World) (pdbInfo : option Z)
    (patches : list Patch) (r : Result ()) (w' : World) :
  Zlen (image w) < SIZE_MAX1 →
  collectPatches (image w) (Zlen (image w)) = Ok (pdbInfo, patches) →
  size_t_ranges patches →
  patchImageImpl WIN32 imagePath None dryrun w = (r, w') →
  (sorted_disjoint (Patches_sort patches) ∧
   patches_within (Zlen (image w)) (Patches_sort patches) → r = Ok ()) ∧
  (¬ (sorted_disjoint (Patches_sort patches) ∧
      patches_within (Zlen (image w)) (Patches_sort patches)) →
   r = Undefined ∧ w' = w).
Proof.
  intros Hmax Hcol Hranges Hrun.
  rewrite patchImageImpl_stages, Hcol in Hrun.
  assert (size_t_ranges (Patches_sort patches)) as HrangesS.
  { unfold size_t_ranges. by rewrite Patches_sort_perm. }
  pose proof (Zlen_nonneg (image w)) as Hlen.
  split.
  - intros [Hs Hw].
    assert (chain_ok 0 (Zlen (image w)) (Patches_sort patches)) as Hchain
      by (by apply sorted_within_chain).
    rewrite (calculateChecksum_chunks _ _ _ eq_refl Hmax Hchain) in Hrun.
    unfold Patches_apply in Hrun.
    destruct (apply_loop_chain (digest_of_chunks
                 (unpatched_chunks (image w) (Zlen (image w)) 0
                    (Patches_sort patches)))
                dryrun (Patches_sort patches) 0 w)
      as [w1 Happly]; [lia|done|].
    rewrite Happly in Hrun. by injection Hrun as <- _.
  - intros Hbad.
    destruct (calculateChecksum _ _ _) as [sig|] eqn:Hsum.
    + exfalso. apply Hbad. apply (chain_ok_sorted_within 0); [lia|].
      apply (checksum_tail_defined (image w) (Zlen (image w))
               (Patches_sort patches) 0 md5_starts eq_refl Hmax);
        [unfold SIZE_MAX1; lia|done|].
      exists sig. exact Hsum.
    + by injection Hrun as <- <-.
Qed.
End ChecksumGuardsApply.

(** X17 on an empty buffer and on a buffer of three bytes. *)
Lemma X17_calculateChecksum_without_patches_witness :
  calculateChecksum (H := PolyHash) [] 0 []
    = Some (md5_finish (Md5 := PolyHash) (md5_update md5_starts [])) ∧
  calculateChecksum (H := PolyHash) [x01; x02; x03] 3 []
    = Some (md5_finish (Md5 := PolyHash) (md5_update md5_starts [x01; x02; x03])).
Proof.
  split.
  - apply (X17_calculateChecksum_without_patches (H := PolyHash) []).
    reflexivity.
  - apply (X17_calculateChecksum_without_patches (H := PolyHash)
             [x01; x02; x03]).
    reflexivity.
Defined.

(** X18 on [sample_world], whose patches are in order inside the image,
    and on [overlapping_image], where two patches cover the same field. *)
Lemma X18_checksum_walk_precedes_patch_validation_witness :
  let run := patchImageImpl (H := PolyHash) (H0 := FlatPE.parser)
               (H1 := SingleStreamMsf) false "app.exe" None false
               sample_world in
  let w := set_image overlapping_image sample_world in
  let run' := patchImageImpl (H := PolyHash) (H0 := FlatPE.parser)
                (H1 := SingleStreamMsf) false "app.exe" None false w in
  run.1 = Ok () ∧ run'.1 = Undefined ∧ run'.2 = w.
Proof.
  intros run w run'. split.
  2: {
    destruct (X18_checksum_walk_precedes_patch_validation (H := PolyHash)
                (H0 := FlatPE.parser) (H1 := SingleStreamMsf) false "app.exe"
                false w (Some 448)
                [mkPatch 72 4 ptr_timestamp "IMAGE_FILE_HEADER.TimeDateStamp";
                 mkPatch 152 4 ptr_timestamp "OptionalHeader.CheckSum";
                 mkPatch 324 4 ptr_timestamp "IMAGE_EXPORT_DIRECTORY.TimeDateStamp";
                 mkPatch 324 4 ptr_timestamp "IMAGE_RESOURCE_DIRECTORY.TimeDateStamp";
                 mkPatch 388 4 ptr_timestamp "IMAGE_DEBUG_DIRECTORY.TimeDateStamp";
                 mkPatch 452 16 ptr_pdbSignature "PDB Signature";
                 mkPatch 468 4 ptr_pdbAge "PDB Age"]
                run'.1 run'.2)
      as [_ Hbad].
    - vm_compute. reflexivity.
    - vm_compute. reflexivity.
    - repeat constructor; simpl; unfold SIZE_MAX1; lia.
    - apply surjective_pairing.
    - apply Hbad. intros [Hs _]. simpl in Hs. lia. }
  destruct (X18_checksum_walk_precedes_patch_validation (H := PolyHash)
              (H0 := FlatPE.parser) (H1 := SingleStreamMsf) false "app.exe"
              false sample_world (Some 448) sample_patches run.1 run.2)
    as [Hok _].
  - vm_compute. reflexivity.
  - vm_compute. reflexivity.
  - repeat constructor; simpl; unfold SIZE_MAX1; lia.
  - apply surjective_pairing.
  - apply Hok.
    assert (Patches_sort sample_patches =
              [mkPatch 72 4 ptr_timestamp "IMAGE_FILE_HEADER.TimeDateStamp";
               mkPatch 152 4 ptr_timestamp "OptionalHeader.CheckSum";
               mkPatch 324 4 ptr_timestamp "IMAGE_EXPORT_DIRECTORY.TimeDateStamp";
               mkPatch 372 4 ptr_timestamp "IMAGE_RESOURCE_DIRECTORY.TimeDateStamp";
               mkPatch 388 4 ptr_timestamp "IMAGE_DEBUG_DIRECTORY.TimeDateStamp";
               mkPatch 452 16 ptr_pdbSignature "PDB Signature";
               mkPatch 468 4 ptr_pdbAge "PDB Age"]) as ->
      by (vm_compute; reflexivity).
    assert (Zlen (image sample_world) = 512) as -> by (vm_compute; reflexivity).
    split.
    + simpl. lia.
    + repeat constructor; simpl; lia.
Defined.
